(** * The RoboCup player gateway (player.cpp): model and verified properties

    A shallow embedding of [PlayerServer] from
    [projects/samples/contests/robocup/controllers/player/player.cpp]:
    the framed transport ([receiveMessages], [receiveData], [send_all]),
    the command dispatcher ([processBuffer]), the subscription sets
    ([sensors], [new_sensors], [updateDevices]), the measurement aggregator
    ([prepareSensorMessage]) and the bandwidth accounting
    ([bandwidth_usage], [sendSensorMessage]), tied together by [step].

    The object's fields and the part of the world it acts on (the socket,
    the devices' sampling periods, the quota file, what was sent) form one
    record that every function takes and returns.  What the host, the
    kernel and the teammates do during one step is an explicit argument
    ([StepEnv]).  Undefined behaviour of the C++ program (a remainder by
    zero, an allocation of negative size) is a [Fault]. *)

From Stdlib Require Import ZArith Lia Ascii.
From stdpp Require Import base gmap sets list strings pretty sorting.

Local Open Scope Z_scope.

(** * The controller *)

Module Player.

(** ** Machine integers *)

(** [uint32_t] arithmetic *)
Definition wrap_u32 (z : Z) : Z := z mod 2 ^ 32.

(** [int] arithmetic (32 bits, two's complement) *)
Definition wrap_i32 (z : Z) : Z := (z + 2 ^ 31) mod 2 ^ 32 - 2 ^ 31.

Abbreviation byte := Byte.byte.

Definition byte_val (b : byte) : Z := Z.of_N (Byte.to_N b).

(** The byte whose value is [z mod 256]. *)
Definition byte_of (z : Z) : byte :=
  default Byte.x00 (Byte.of_N (Z.to_N (z mod 256))).

(** The value of a word whose storage, in network order, is [m]:
    what [ntohl] returns for the word stored in the bytes [m]. *)
Definition be32 (m : list byte) : Z :=
  fold_left (fun acc b => acc * 256 + byte_val b) m 0.

(** The four bytes [htonl (size)] occupies. *)
Definition htonl_bytes (size : Z) : list byte :=
  [byte_of (size / 2 ^ 24); byte_of (size / 2 ^ 16); byte_of (size / 2 ^ 8); byte_of size].

(** [recv] stores what it received at the start of the area it was given. *)
Definition overwrite (data area : list byte) : list byte :=
  data ++ drop (length data) area.

(** ** Outcomes *)

Inductive fault : Set :=
  | DivisionByZero   (* [x % 0] or [x / 0] *)
  | BadAlloc         (* [new T[n]] with [n] negative *)
  | NullStream       (* [fprintf] or [fclose] on the null stream of a failed [fopen] *)
  | OutOfFuel.       (* the model's loop bound was too small; never happens, see the fuel lemmas *)

Inductive outcome (A : Type) : Type :=
  | Ok (a : A)
  | Fault (f : fault).
Arguments Ok {A} a.
Arguments Fault {A} f.

#[global] Instance outcome_bind : MBind outcome := fun A B k m =>
  match m with
  | Ok a => k a
  | Fault f => Fault f
  end.

(** ** The host: devices *)

(** A [webots::Device *]. *)
Abbreviation Device := positive.

(** [webots::Node] types the controller distinguishes. *)
Inductive NodeType : Set :=
  | ACCELEROMETER | CAMERA | GYRO | POSITION_SENSOR | TOUCH_SENSOR | MOTOR | OTHER_NODE.

(** [webots::TouchSensor::Type] *)
Inductive TouchType : Set := BUMPER | FORCE | FORCE3D.

(** Modelled from the spec: the host's device registry, which is not in
    the controller's source.  Section 6 gives the capability set used
    here: [resolveDevice(name) -> deviceHandle | none] is [getDevice],
    [deviceKind(handle)] is [getNodeType], and [currentStepDurationMs()]
    is [getBasicTimeStep]. *)
Record Robot : Type := {
  getBasicTimeStep : Z;
  getDevice : string -> option Device;
  getNodeType : Device -> NodeType;
  getName : Device -> string;
  getType : Device -> TouchType
}.

(** Modelled from the spec: [getMotor] and [getCamera] resolve a name and
    return the device only if it is of that kind. *)
Definition getMotor (robot : Robot) (name : string) : option Device :=
  match getDevice robot name with
  | Some d => match getNodeType robot d with MOTOR => Some d | _ => None end
  | None => None
  end.

Definition getCamera (robot : Robot) (name : string) : option Device :=
  match getDevice robot name with
  | Some d => match getNodeType robot d with CAMERA => Some d | _ => None end
  | None => None
  end.

(** IEEE-754 values are carried as bit patterns and never computed with. *)
Definition double : Type := Z.

(** The writes the controller performs on the host's actuators. *)
Inductive HostCall : Type :=
  | SetPosition (motor : Device) (position : double)
  | SetVelocity (motor : Device) (velocity : double)
  | SetForce (motor : Device) (force : double)
  | SetTorque (motor : Device) (torque : double)
  | SetControlPID (motor : Device) (p i d : double)
  | SetExposure (camera : Device) (exposure : double).

(** ** Messages (messages.proto) *)

Record Command (V : Type) : Type := { cmd_name : string; cmd_value : V }.
Arguments cmd_name {V} c.
Arguments cmd_value {V} c.

(** [timestep] is the value as read into [const int sensor_time_step]. *)
Record SensorTimeStep : Type := { sts_name : string; timestep : Z }.

Record ActuatorRequests : Type := {
  motor_positions : list (Command double);
  motor_velocities : list (Command double);
  motor_forces : list (Command double);
  motor_torques : list (Command double);
  motor_pids : list (Command (double * double * double));
  camera_qualities : list (Command Z);
  camera_exposures : list (Command double);
  sensor_time_steps : list SensorTimeStep
}.

Inductive MessageType : Set := ERROR_MESSAGE | WARNING_MESSAGE.

Record Message : Type := { message_type : MessageType; text : string }.

(** The repeated measurement fields of [SensorMeasurements]; the values
    read from the host (vectors, scalars, images) are not modelled. *)
Inductive MeasurementField : Set :=
  | accelerometers | cameras | gyros | position_sensors | bumpers | forces | force3ds.

(** One record added to a repeated field; [m_name] is what [set_name]
    stored, [m_device] the device it was read from. *)
Record Measurement : Type := {
  m_field : MeasurementField;
  m_device : Device;
  m_name : string
}.

Record SensorMeasurements : Type := {
  time : Z;
  real_time : Z;
  messages : list Message;
  measurements : list Measurement
}.

(** [sensor_measurements.Clear ()] *)
Definition Clear : SensorMeasurements :=
  {| time := 0; real_time := 0; messages := []; measurements := [] |}.

Definition add_messages (m : Message) (sm : SensorMeasurements) : SensorMeasurements :=
  {| time := time sm; real_time := real_time sm;
     messages := messages sm ++ [m]; measurements := measurements sm |}.

Definition add_measurement (m : Measurement) (sm : SensorMeasurements) : SensorMeasurements :=
  {| time := time sm; real_time := real_time sm;
     messages := messages sm; measurements := measurements sm ++ [m] |}.

Definition set_time (t : Z) (sm : SensorMeasurements) : SensorMeasurements :=
  {| time := t; real_time := real_time sm;
     messages := messages sm; measurements := measurements sm |}.

Definition set_real_time (t : Z) (sm : SensorMeasurements) : SensorMeasurements :=
  {| time := time sm; real_time := t;
     messages := messages sm; measurements := measurements sm |}.

(** A device contributes a measurement to a snapshot. *)
Definition reports (sm : SensorMeasurements) (d : Device) : Prop :=
  d ∈ m_device <$> measurements sm.

#[global] Instance reports_dec sm d : Decision (reports sm d).
Proof. unfold reports. apply _. Defined.

(** ** What leaves through the socket *)

Inductive Sent : Type :=
  | Token (fd : Z) (token : string) (complete : bool)
      (* the 8 bytes "Welcome" or "Refused" with their terminator *)
  | Frame (fd : Z) (size : Z) (payload : SensorMeasurements) (written : Z) (complete : bool).
      (* [htonl (size)] followed by the serialized payload; [written] of
         its [4 + size] bytes were accepted by the kernel *)

(** ** The state *)

Record PlayerServer : Type := mkPlayerServer {
  (* fields of the class *)
  client_fd : Z;
  sensors : gset Device;
  new_sensors : gset Device;
  controller_time : Z;
  recv_buffer : list byte;
  recv_index : Z;
  content_size : Z;
  sensor_measurements : SensorMeasurements;
  (* the function-local static of [bandwidth_usage] *)
  data_transferred : option (list Z);
  (* the world: bytes readable on the client socket *)
  sock : list byte;
  (* the sampling period of every device (0: disabled) *)
  periods : gmap Device Z;
  (* the actuator writes performed so far *)
  actuations : list HostCall;
  (* this player's quota file *)
  quota_file : option (list Z);
  (* [fopen (filename, "w")] on this player's quota file succeeds *)
  quota_writable : bool;
  (* what was handed to [send_all] *)
  outbox : list Sent;
  (* the payloads handed to [processBuffer], oldest first *)
  dispatched : list (list byte)
}.

Definition set_client_fd v s := mkPlayerServer v (sensors s) (new_sensors s) (controller_time s)
  (recv_buffer s) (recv_index s) (content_size s) (sensor_measurements s) (data_transferred s)
  (sock s) (periods s) (actuations s) (quota_file s) (quota_writable s) (outbox s)
  (dispatched s).
Definition set_sensors v s := mkPlayerServer (client_fd s) v (new_sensors s) (controller_time s)
  (recv_buffer s) (recv_index s) (content_size s) (sensor_measurements s) (data_transferred s)
  (sock s) (periods s) (actuations s) (quota_file s) (quota_writable s) (outbox s)
  (dispatched s).
Definition set_new_sensors v s := mkPlayerServer (client_fd s) (sensors s) v (controller_time s)
  (recv_buffer s) (recv_index s) (content_size s) (sensor_measurements s) (data_transferred s)
  (sock s) (periods s) (actuations s) (quota_file s) (quota_writable s) (outbox s)
  (dispatched s).
Definition set_controller_time v s := mkPlayerServer (client_fd s) (sensors s) (new_sensors s) v
  (recv_buffer s) (recv_index s) (content_size s) (sensor_measurements s) (data_transferred s)
  (sock s) (periods s) (actuations s) (quota_file s) (quota_writable s) (outbox s)
  (dispatched s).
Definition set_recv_buffer v s := mkPlayerServer (client_fd s) (sensors s) (new_sensors s)
  (controller_time s) v (recv_index s) (content_size s) (sensor_measurements s)
  (data_transferred s) (sock s) (periods s) (actuations s) (quota_file s) (quota_writable s)
  (outbox s) (dispatched s).
Definition set_recv_index v s := mkPlayerServer (client_fd s) (sensors s) (new_sensors s)
  (controller_time s) (recv_buffer s) v (content_size s) (sensor_measurements s)
  (data_transferred s) (sock s) (periods s) (actuations s) (quota_file s) (quota_writable s)
  (outbox s) (dispatched s).
Definition set_content_size v s := mkPlayerServer (client_fd s) (sensors s) (new_sensors s)
  (controller_time s) (recv_buffer s) (recv_index s) v (sensor_measurements s)
  (data_transferred s) (sock s) (periods s) (actuations s) (quota_file s) (quota_writable s)
  (outbox s) (dispatched s).
Definition set_sensor_measurements v s := mkPlayerServer (client_fd s) (sensors s)
  (new_sensors s) (controller_time s) (recv_buffer s) (recv_index s) (content_size s) v
  (data_transferred s) (sock s) (periods s) (actuations s) (quota_file s) (quota_writable s)
  (outbox s) (dispatched s).
Definition set_data_transferred v s := mkPlayerServer (client_fd s) (sensors s) (new_sensors s)
  (controller_time s) (recv_buffer s) (recv_index s) (content_size s) (sensor_measurements s) v
  (sock s) (periods s) (actuations s) (quota_file s) (quota_writable s) (outbox s)
  (dispatched s).
Definition set_sock v s := mkPlayerServer (client_fd s) (sensors s) (new_sensors s)
  (controller_time s) (recv_buffer s) (recv_index s) (content_size s) (sensor_measurements s)
  (data_transferred s) v (periods s) (actuations s) (quota_file s) (quota_writable s) (outbox s)
  (dispatched s).
Definition set_periods v s := mkPlayerServer (client_fd s) (sensors s) (new_sensors s)
  (controller_time s) (recv_buffer s) (recv_index s) (content_size s) (sensor_measurements s)
  (data_transferred s) (sock s) v (actuations s) (quota_file s) (quota_writable s) (outbox s)
  (dispatched s).
Definition set_actuations v s := mkPlayerServer (client_fd s) (sensors s) (new_sensors s)
  (controller_time s) (recv_buffer s) (recv_index s) (content_size s) (sensor_measurements s)
  (data_transferred s) (sock s) (periods s) v (quota_file s) (quota_writable s) (outbox s)
  (dispatched s).
Definition set_quota_file v s := mkPlayerServer (client_fd s) (sensors s) (new_sensors s)
  (controller_time s) (recv_buffer s) (recv_index s) (content_size s) (sensor_measurements s)
  (data_transferred s) (sock s) (periods s) (actuations s) v (quota_writable s) (outbox s)
  (dispatched s).
Definition set_quota_writable v s := mkPlayerServer (client_fd s) (sensors s) (new_sensors s)
  (controller_time s) (recv_buffer s) (recv_index s) (content_size s) (sensor_measurements s)
  (data_transferred s) (sock s) (periods s) (actuations s) (quota_file s) v (outbox s)
  (dispatched s).
Definition set_outbox v s := mkPlayerServer (client_fd s) (sensors s) (new_sensors s)
  (controller_time s) (recv_buffer s) (recv_index s) (content_size s) (sensor_measurements s)
  (data_transferred s) (sock s) (periods s) (actuations s) (quota_file s) (quota_writable s) v
  (dispatched s).
Definition set_dispatched v s := mkPlayerServer (client_fd s) (sensors s) (new_sensors s)
  (controller_time s) (recv_buffer s) (recv_index s) (content_size s) (sensor_measurements s)
  (data_transferred s) (sock s) (periods s) (actuations s) (quota_file s) (quota_writable s)
  (outbox s) v.

(** [warn (sensor_measurements, text)] *)
Definition warn (text : string) (st : PlayerServer) : PlayerServer :=
  set_sensor_measurements
    (add_messages {| message_type := WARNING_MESSAGE; text := text |} (sensor_measurements st)) st.

(** [close_socket (client_fd); client_fd = -1]: what was still readable is lost. *)
Definition close_client (st : PlayerServer) : PlayerServer :=
  set_client_fd (-1) (set_sock [] st).

(** Modelled from the spec: [samplingPeriod(handle)], the period the last
    [enable(period)] configured, 0 for a device never enabled. *)
Definition getSamplingPeriod (st : PlayerServer) (d : Device) : Z :=
  default 0 (periods st !! d).

(** Modelled from the spec: [enable(period)] configures the device's
    underlying sampling. *)
Definition enable (d : Device) (period : Z) (st : PlayerServer) : PlayerServer :=
  set_periods (<[d := period]> (periods st)) st.

(** ** What happens around the controller during one call of [step] *)

(** What [recv] reports once nothing is left to read. *)
Inductive RecvEnd : Type :=
  | RecvFails (errno : Z)   (* [recv] returns -1 and sets [errno] *)
  | PeerClosed.             (* [recv] returns 0 *)

Record StepEnv : Type := {
  (* [accept]: a pending connection (descriptor, resolved host name), if any *)
  e_accept : option (Z * string);
  (* the bytes that arrived on the client socket since the last step *)
  e_arrived : list byte;
  (* the value [select] returns *)
  e_select : Z;
  (* what [recv] reports when the socket has been read empty *)
  e_dry : RecvEnd;
  (* [gettimeofday], in milliseconds *)
  e_real_time : Z;
  (* the quota files of the players 1 to 4, where they exist *)
  e_files : Z -> option (list Z);
  (* the value found in [v] when [fscanf] stores nothing *)
  e_stale : Z;
  (* how many bytes the kernel takes at the n-th [send] of the step
     (below 1: the call fails) *)
  e_send : nat -> Z
}.

(** A step in which [chunk] arrives and [dry] ends the reading; the
    kernel takes whatever is sent. *)
Definition arriving (chunk : list byte) (dry : RecvEnd) : StepEnv :=
  {| e_accept := None; e_arrived := chunk; e_select := 1; e_dry := dry;
     e_real_time := 1700000000000; e_files := fun _ => None; e_stale := 0;
     e_send := fun _ => 2 ^ 30 |}.

(** The message whose payload is [payload], as it travels. *)
Definition frame (payload : list byte) : list byte :=
  htonl_bytes (Z.of_nat (length payload)) ++ payload.

(** teams are limited to a bandwdith of 100 MB/s ... *)
Definition TEAM_QUOTA : Z := 1000 * 1024 * 1024.

(** The character that delimits names in the warnings. *)
Definition dquote : string := String "034"%char EmptyString.

(** ** send_all *)

(** [send (socket, buffer, length, 0)] at the [call]-th call: the kernel
    takes at most [length] bytes, or none and the call fails; the result
    is assigned to an [int]. *)
Definition send (kernel : nat -> Z) (call : nat) (length : Z) : Z :=
  if kernel call <? 1 then -1 else wrap_i32 (Z.min (kernel call) length).

(** The loop of [send_all]; the result is the function's result and the
    number of bytes written. *)
Fixpoint send_all_loop (fuel : nat) (kernel : nat -> Z) (call : nat) (length written : Z)
  : outcome (bool * Z) :=
  if 0 <? length then
    match fuel with
    | O => Fault OutOfFuel
    | S fuel' =>
        let i := send kernel call length in
        if i <? 1 then Ok (false, written)
        else send_all_loop fuel' kernel (S call) (length - i) (written + i)
    end
  else Ok (true, written).

Definition send_all (kernel : nat -> Z) (length : Z) : outcome (bool * Z) :=
  send_all_loop (Z.to_nat length) kernel 0%nat length 0.

(** [a % b] and [a / b] on operands that are not negative after the usual
    conversions, or on [int]s: C truncates, and a zero divisor is undefined. *)
Definition c_rem (a b : Z) : outcome Z :=
  if b =? 0 then Fault DivisionByZero else Ok (Z.rem a b).

Definition c_div (a b : Z) : outcome Z :=
  if b =? 0 then Fault DivisionByZero else Ok (Z.quot a b).

Section Controller.

(** The values of [<errno.h>]. *)
Variables EAGAIN EWOULDBLOCK : Z.

(** The code protoc generates from messages.proto. *)
Variable ParseFromArray : list byte -> ActuatorRequests.
Variable ByteSizeLong : SensorMeasurements -> Z.

(** The constructor's arguments. *)
Variable allowed_hosts : list string.
Variable player_id : Z.
Variable team : Z.
Variable robot : Robot.

(** [basic_time_step = robot->getBasicTimeStep ()], set once by the constructor. *)
Definition basic_time_step : Z := getBasicTimeStep robot.

(** The state the constructor leaves, in a directory where the quota
    file can be written. *)
Definition init : PlayerServer :=
  {| client_fd := -1; sensors := ∅; new_sensors := ∅; controller_time := 0;
     recv_buffer := []; recv_index := 0; content_size := 0;
     sensor_measurements := Clear; data_transferred := None;
     sock := []; periods := ∅; actuations := []; quota_file := None;
     quota_writable := true;
     outbox := []; dispatched := [] |}.

(** *** The subscription state *)

(** The part of the state the time step commands act on. *)
Record DeviceSubscription : Type := {
  active : gset Device;          (* [sensors] *)
  pending : gset Device;         (* [new_sensors] *)
  configured : gmap Device Z     (* the devices' sampling periods *)
}.

Definition subscription (st : PlayerServer) : DeviceSubscription :=
  {| active := sensors st; pending := new_sensors st; configured := periods st |}.

Definition is_sensor (t : NodeType) : bool :=
  match t with
  | ACCELEROMETER | CAMERA | GYRO | POSITION_SENSOR | TOUCH_SENSOR => true
  | _ => false
  end.

(** The time step command reaches the call of [enable]. *)
Definition configures (sensor_time_step : Z) (device : Device) : bool :=
  negb (negb (sensor_time_step =? 0) && (sensor_time_step <? basic_time_step))
  && (Z.rem sensor_time_step basic_time_step =? 0)
  && is_sensor (getNodeType robot device).

(** What one iteration of the loop over [sensor_time_steps] does to the
    subscription state, where it does not divide by zero
    (see [sensor_time_step_command_effect]). *)
Definition time_step_effect (u : DeviceSubscription) (c : SensorTimeStep) : DeviceSubscription :=
  match getDevice robot (sts_name c) with
  | Some device =>
      let sensor_time_step := timestep c in
      let u1 :=
        if negb (sensor_time_step =? 0) then
          if decide (device ∈ active u) then u
          else {| active := active u; pending := pending u ∪ {[device]};
                  configured := configured u |}
        else {| active := active u ∖ {[device]}; pending := pending u;
                configured := configured u |} in
      if configures sensor_time_step device
      then {| active := active u1; pending := pending u1;
              configured := <[device := sensor_time_step]> (configured u1) |}
      else u1
  | None => u
  end.

(** The time step commands of the payloads, in the order of dispatch. *)
Definition commands_of (payloads : list (list byte)) : list SensorTimeStep :=
  payloads ≫= (fun payload => sensor_time_steps (ParseFromArray payload)).

(** The fields [processBuffer] neither reads for its decisions nor writes,
    apart from the three it resets. *)
Definition steady (st : PlayerServer) :=
  (controller_time st, data_transferred st, quota_file st, outbox st,
   measurements (sensor_measurements st),
   time (sensor_measurements st), real_time (sensor_measurements st)).

Definition untouched (st : PlayerServer) := (client_fd st, sock st, steady st).

(** Everything but the socket and its descriptor. *)
Definition beyond_socket (st : PlayerServer) :=
  (sensors st, new_sensors st, periods st, controller_time st, recv_buffer st,
   recv_index st, content_size st, sensor_measurements st, data_transferred st,
   actuations st, quota_file st, outbox st, dispatched st).

(** The command names the device. *)
Definition names (d : Device) (c : SensorTimeStep) : Prop :=
  getDevice robot (sts_name c) = Some d.

(** The time step commands dispatched between two states of one run. *)
Definition commands_between (st st' : PlayerServer) : list SensorTimeStep :=
  commands_of (drop (length (dispatched st)) (dispatched st')).

(** The receive state between two iterations of [receiveMessages]:
    no message is pending, or a message of positive length is incomplete. *)
Definition well_framed (st : PlayerServer) : Prop :=
  (content_size st = 0 /\ recv_index st = 0) \/
  (0 <= recv_index st < content_size st /\ content_size st < 2 ^ 31).

(** The bookkeeping of the message being received. *)
Definition receiving (st : PlayerServer) :=
  (recv_buffer st, recv_index st, content_size st, dispatched st).

(** *** Framed transport, inbound *)

(** [recv (client_fd, buffer, len, 0)] on the non-blocking socket: the
    result, the bytes stored, [errno]. *)
Definition recv (dry : RecvEnd) (len : Z) (st : PlayerServer)
  : Z * list byte * Z * PlayerServer :=
  match sock st with
  | [] =>
      match dry with
      | RecvFails errno => (-1, [], errno, st)
      | PeerClosed => (0, [], 0, st)
      end
  | _ :: _ =>
      let n := Z.min len (Z.of_nat (length (sock st))) in
      (n, take (Z.to_nat n) (sock st), 0, set_sock (drop (Z.to_nat n) (sock st)) st)
  end.

(** The test [errno != EAGAIN || errno != EWOULDBLOCK]. *)
Definition unexpected_failure (errno : Z) : bool :=
  negb (errno =? EAGAIN) || negb (errno =? EWOULDBLOCK).

(** [receiveData] closes the socket when it finds nothing left to read. *)
Definition closes (dry : RecvEnd) : bool :=
  match dry with
  | RecvFails errno => unexpected_failure errno
  | PeerClosed => true
  end.

(** The loop of [receiveData]; [buffer] is the area the caller passed.
    Every [recv] is given [buffer] itself, as in the source. *)
Fixpoint receiveData_loop (fuel : nat) (dry : RecvEnd) (length received : Z)
    (buffer : list byte) (st : PlayerServer) : outcome (Z * list byte * PlayerServer) :=
  if received <? length then
    match fuel with
    | O => Fault OutOfFuel
    | S fuel' =>
        let '(n, data, errno, st1) := recv dry (length - received) st in
        if n =? -1 then
          if unexpected_failure errno
          then Ok (received, buffer, close_client st1)
          else Ok (received, buffer, st1)
        else if n =? 0 then Ok (received, buffer, close_client st1)
        else receiveData_loop fuel' dry length (received + n) (overwrite data buffer) st1
    end
  else Ok (received, buffer, st).

Definition receiveData (dry : RecvEnd) (length : Z) (buffer : list byte) (st : PlayerServer)
  : outcome (Z * list byte * PlayerServer) :=
  receiveData_loop (S (List.length (sock st))) dry length 0 buffer st.

(** *** Command dispatcher *)

Definition not_found (kind name command : string) : string :=
  kind +:+ " " +:+ dquote +:+ name +:+ dquote +:+ " not found, " +:+ command +:+ " command ignored.".

(** The five loops over motor commands differ in the setter and one word. *)
Definition motor_commands {V : Type} (command : string) (setter : Device -> V -> HostCall)
    (cmds : list (Command V)) (st : PlayerServer) : PlayerServer :=
  foldl (fun st c =>
           match getMotor robot (cmd_name c) with
           | Some motor => set_actuations (actuations st ++ [setter motor (cmd_value c)]) st
           | None => warn (not_found "Motor" (cmd_name c) command) st
           end) st cmds.

Definition camera_quality_commands (cmds : list (Command Z)) (st : PlayerServer) : PlayerServer :=
  foldl (fun st c =>
           match getCamera robot (cmd_name c) with
           | Some _ => warn "CameraQuality is not yet implemented, ignored." st
           | None => warn (not_found "Camera" (cmd_name c) "quality") st
           end) st cmds.

Definition camera_exposure_commands (cmds : list (Command double)) (st : PlayerServer)
  : PlayerServer :=
  foldl (fun st c =>
           match getCamera robot (cmd_name c) with
           | Some camera => set_actuations (actuations st ++ [SetExposure camera (cmd_value c)]) st
           | None => warn (not_found "Camera" (cmd_name c) "exposure") st
           end) st cmds.

Definition time_step_warning (name reason : string) (sensor_time_step : Z) : string :=
  "Time step for " +:+ dquote +:+ name +:+ dquote +:+ " should be " +:+ reason +:+
  pretty basic_time_step +:+ ", ignoring " +:+ pretty sensor_time_step +:+ " value.".

(** One iteration of the loop over [sensor_time_steps]. *)
Definition sensor_time_step_command (c : SensorTimeStep) (st : PlayerServer)
  : outcome PlayerServer :=
  match getDevice robot (sts_name c) with
  | Some device =>
      let sensor_time_step := timestep c in
      let st1 :=
        if negb (sensor_time_step =? 0) then
          if decide (device ∈ sensors st) then st
          else set_new_sensors (new_sensors st ∪ {[device]}) st
        else set_sensors (sensors st ∖ {[device]}) st in
      if negb (sensor_time_step =? 0) && (sensor_time_step <? basic_time_step) then
        Ok (warn (time_step_warning (sts_name c) "greater or equal to " sensor_time_step) st1)
      else
        r ← c_rem sensor_time_step basic_time_step;
        if negb (r =? 0) then
          Ok (warn (time_step_warning (sts_name c) "a multiple of " sensor_time_step) st1)
        else
          match getNodeType robot device with
          | ACCELEROMETER | CAMERA | GYRO | POSITION_SENSOR | TOUCH_SENSOR =>
              Ok (enable device sensor_time_step st1)
          | _ =>
              Ok (warn ("Device " +:+ dquote +:+ sts_name c +:+ dquote +:+
                        " is not supported, time step command, ignored.") st1)
          end
  | None =>
      Ok (warn ("Device " +:+ dquote +:+ sts_name c +:+ dquote +:+
                " not found, time step command, ignored.") st)
  end.

Fixpoint sensor_time_step_commands (cmds : list SensorTimeStep) (st : PlayerServer)
  : outcome PlayerServer :=
  match cmds with
  | [] => Ok st
  | c :: cmds' => st' ← sensor_time_step_command c st; sensor_time_step_commands cmds' st'
  end.

(** The body of [processBuffer] after the buffer has been parsed and reset. *)
Definition dispatch (actuatorRequests : ActuatorRequests) (st : PlayerServer)
  : outcome PlayerServer :=
  let st := motor_commands "position" SetPosition (motor_positions actuatorRequests) st in
  let st := motor_commands "velocity" SetVelocity (motor_velocities actuatorRequests) st in
  let st := motor_commands "force" SetForce (motor_forces actuatorRequests) st in
  let st := motor_commands "torque" SetTorque (motor_torques actuatorRequests) st in
  let st := motor_commands "PID" (fun m '(x, y, z) => SetControlPID m x y z)
              (motor_pids actuatorRequests) st in
  let st := camera_quality_commands (camera_qualities actuatorRequests) st in
  let st := camera_exposure_commands (camera_exposures actuatorRequests) st in
  sensor_time_step_commands (sensor_time_steps actuatorRequests) st.

Definition processBuffer (st : PlayerServer) : outcome PlayerServer :=
  let payload := take (Z.to_nat (recv_index st)) (recv_buffer st) in
  let actuatorRequests := ParseFromArray payload in
  let st := set_dispatched (dispatched st ++ [payload]) st in
  (* Reset buffer associated values *)
  let st := set_recv_buffer [] (set_content_size 0 (set_recv_index 0 st)) in
  dispatch actuatorRequests st.

(** The loop of [receiveMessages]. *)
Fixpoint receiveMessages_loop (fuel : nat) (dry : RecvEnd) (st : PlayerServer)
  : outcome PlayerServer :=
  if client_fd st =? -1 then Ok st
  else
    match fuel with
    | O => Fault OutOfFuel
    | S fuel' =>
        if content_size st =? 0 then
          (* the four bytes of [content_size], which holds 0 *)
          '(bytes_received, storage, st1) ← receiveData dry 4 (replicate 4 Byte.x00) st;
          let size := wrap_i32 (be32 storage) in
          if size <? 0 then Fault BadAlloc
          else
            let st2 := set_recv_buffer (replicate (Z.to_nat size) Byte.x00)
                         (set_content_size size st1) in
            if bytes_received =? 0 then Ok st2 else receiveMessages_loop fuel' dry st2
        else
          let index := Z.to_nat (recv_index st) in
          '(bytes_received, area, st1) ←
            receiveData dry (content_size st - recv_index st) (drop index (recv_buffer st)) st;
          let st2 := set_recv_buffer (take index (recv_buffer st) ++ area) st1 in
          let st3 := set_recv_index (wrap_i32 (recv_index st + bytes_received)) st2 in
          st4 ← (if recv_index st3 =? content_size st3 then processBuffer st3 else Ok st3);
          if bytes_received =? 0 then Ok st4 else receiveMessages_loop fuel' dry st4
    end.

Definition receiveMessages (dry : RecvEnd) (st : PlayerServer) : outcome PlayerServer :=
  receiveMessages_loop (S (List.length (sock st))) dry st.

(** *** Measurement aggregator *)

(** [controller_time % device->getSamplingPeriod ()] is zero; the period,
    an [int], is converted to [unsigned] first. *)
Definition due (device : Device) (st : PlayerServer) : outcome bool :=
  r ← c_rem (controller_time st) (wrap_u32 (getSamplingPeriod st device));
  Ok (r =? 0).

Definition add_record (field : MeasurementField) (device : Device) (st : PlayerServer)
  : PlayerServer :=
  set_sensor_measurements
    (add_measurement {| m_field := field; m_device := device; m_name := getName robot device |}
       (sensor_measurements st)) st.

(** One iteration of the loop of [prepareSensorMessage]; the chain of
    [dynamic_cast]s selects by the device's class. *)
Definition sample (device : Device) (st : PlayerServer) : outcome PlayerServer :=
  match getNodeType robot device with
  | ACCELEROMETER =>
      b ← due device st; Ok (if b : bool then add_record accelerometers device st else st)
  | CAMERA =>
      b ← due device st; Ok (if b : bool then add_record cameras device st else st)
  | GYRO =>
      b ← due device st; Ok (if b : bool then add_record gyros device st else st)
  | POSITION_SENSOR =>
      b ← due device st; Ok (if b : bool then add_record position_sensors device st else st)
  | TOUCH_SENSOR =>
      b ← due device st;
      Ok (if b : bool then
            match getType robot device with
            | BUMPER => add_record bumpers device st
            | FORCE => add_record forces device st
            | FORCE3D => add_record force3ds device st
            end
          else st)
  | _ => Ok st
  end.

(** The iteration for [device] adds a record. *)
Definition sampled (st : PlayerServer) (device : Device) : bool :=
  is_sensor (getNodeType robot device)
  && match due device st with Ok b => b | Fault _ => false end.

(** Everything but the measurement records of the snapshot. *)
Definition beyond_records (st : PlayerServer) :=
  (subscription st, receiving st, client_fd st, sock st, controller_time st,
   data_transferred st, quota_file st, outbox st, actuations st,
   messages (sensor_measurements st)).

Fixpoint sample_all (devices : list Device) (st : PlayerServer) : outcome PlayerServer :=
  match devices with
  | [] => Ok st
  | device :: devices' => st' ← sample device st; sample_all devices' st'
  end.

(** A [std::set] of pointers is traversed in the order of the addresses. *)
Definition in_order (s : gset Device) : list Device := merge_sort Pos.le (elements s).

Definition prepareSensorMessage (real_time : Z) (st : PlayerServer) : outcome PlayerServer :=
  let st := set_sensor_measurements
              (set_real_time real_time
                 (set_time (controller_time st) (sensor_measurements st))) st in
  sample_all (in_order (sensors st)) st.

(** *** Subscription promotion *)

Definition updateDevices (st : PlayerServer) : PlayerServer :=
  set_new_sensors ∅ (set_sensors (sensors st ∪ new_sensors st) st).

(** *** Bandwidth accounting *)

(** [sum += v] over the values of a list, in [int] arithmetic. *)
Fixpoint sum_int (values : list Z) (sum : Z) : Z :=
  match values with
  | [] => sum
  | v :: values' => sum_int values' (wrap_i32 (sum + v))
  end.

(** The [while (!feof (fd))] loop over a teammate's file.  On an empty
    file [fscanf] returns [EOF], which is not 0, and [v] is added as it is. *)
Definition read_quota_file (stale : Z) (content : list Z) (sum : Z) : Z :=
  match content with
  | [] => wrap_i32 (sum + stale)
  | _ :: _ => sum_int content sum
  end.

Definition bandwidth_usage (env : StepEnv) (new_packet_size : Z) (st : PlayerServer)
  : outcome (Z * PlayerServer) :=
  window_size ← c_div 1000 basic_time_step;
  steps ← c_div (controller_time st) (wrap_u32 basic_time_step);
  index ← c_rem steps (wrap_u32 window_size);
  let index := wrap_i32 index in
  data ← match data_transferred st with
         | None =>
             if window_size <? 0 then Fault BadAlloc
             else Ok (replicate (Z.to_nat window_size) 0)
         | Some data => Ok data
         end;
  let data := <[Z.to_nat index := wrap_i32 new_packet_size]> data in
  (* [fopen (filename, "w")]: its result goes unchecked to [fprintf] and [fclose] *)
  if quota_writable st then
    let st := set_quota_file (Some data) (set_data_transferred (Some data) st) in
    let sum := sum_int data 0 in
    let sum :=
      foldl (fun sum i =>
               if i =? player_id then sum
               else match e_files env i with
                    | None => sum
                    | Some content => read_quota_file (e_stale env) content sum
                    end) sum [1; 2; 3; 4] in
    Ok (sum, st)
  else Fault NullStream.

(** The record that replaces the snapshot when the quota is exceeded. *)
Definition quota_error : SensorMeasurements :=
  add_messages {| message_type := ERROR_MESSAGE;
                  text := pretty TEAM_QUOTA +:+ " MB/s quota exceeded." |} Clear.

Definition sendSensorMessage (env : StepEnv) (st : PlayerServer) : outcome PlayerServer :=
  let size := wrap_u32 (ByteSizeLong (sensor_measurements st)) in
  '(usage, st) ← bandwidth_usage env size st;
  let exceeded := TEAM_QUOTA <? usage in
  let st := if exceeded then set_sensor_measurements quota_error st else st in
  let size := if exceeded then wrap_u32 (ByteSizeLong (sensor_measurements st)) else size in
  '(complete, written) ← send_all (e_send env) (4 + size);
  (* the result of [send_all] is dropped *)
  let st := set_outbox
              (outbox st ++ [Frame (client_fd st) size (sensor_measurements st) written complete])
              st in
  Ok (set_sensor_measurements Clear st).

(** *** Step orchestrator *)

Definition accept_client (env : StepEnv) (st : PlayerServer) : outcome (Z * PlayerServer) :=
  match e_accept env with
  | None => Ok (-1, st)
  | Some (cfd, h_name) =>
      if cfd =? -1 then Ok (-1, st)
      else
        '(complete, _) ← send_all (e_send env) 8;
        if bool_decide (h_name ∈ allowed_hosts)
        then Ok (cfd, set_outbox (outbox st ++ [Token cfd "Welcome" complete]) st)
        else Ok (-1, set_outbox (outbox st ++ [Token cfd "Refused" complete]) st)
  end.

(** [step] up to the call of [receiveMessages]. *)
Definition step_receive (env : StepEnv) (st : PlayerServer) : outcome PlayerServer :=
  let st := set_controller_time (wrap_u32 (controller_time st + basic_time_step)) st in
  let st := set_sock (sock st ++ e_arrived env) st in
  if e_select env =? -1 then Ok st else receiveMessages (e_dry env) st.

(** The polls of successive steps, one chunk arriving before each, the
    reading ending on "would block". *)
Fixpoint deliver (chunks : list (list byte)) (st : PlayerServer) : outcome PlayerServer :=
  match chunks with
  | [] => Ok st
  | chunk :: chunks' =>
      st' ← step_receive (arriving chunk (RecvFails EAGAIN)) st; deliver chunks' st'
  end.

(** [step] up to the call of [prepareSensorMessage]: the state in which
    the snapshot of the step has just been built. *)
Definition step_snapshot (env : StepEnv) (st : PlayerServer) : outcome PlayerServer :=
  st ← step_receive env st;
  prepareSensorMessage (e_real_time env) st.

Definition step (env : StepEnv) (st : PlayerServer) : outcome PlayerServer :=
  if client_fd st =? -1 then
    '(cfd, st) ← accept_client env st;
    let st := set_client_fd cfd st in
    if negb (cfd =? -1)
    then Ok (set_controller_time 0 (set_sock (e_arrived env) st))
    else Ok st
  else
    st ← step_snapshot env st;
    sendSensorMessage env (updateDevices st).

(** The main loop, one environment per call of [step]. *)
Fixpoint run (envs : list StepEnv) (st : PlayerServer) : outcome PlayerServer :=
  match envs with
  | [] => Ok st
  | env :: envs' => st' ← step env st; run envs' st'
  end.

End Controller.

End Player.

Import Player.

(** ** Chunkings of a stream of messages *)

(** The message being received: what has arrived of its payload, what is missing. *)
Definition Pending : Type := option (list byte * list byte).

(** [covers m chunk msgs m' msgs' out]: with [m] pending and the messages
    [msgs] still to come, the bytes of [chunk] end with [m'] pending and
    [msgs'] to come, and complete the payloads [out]; the chunk ends
    inside a payload or between two messages, never inside a header. *)
Inductive covers :
  Pending -> list byte -> list (list byte) -> Pending -> list (list byte) -> list (list byte) -> Prop :=
  | covers_idle msgs :
      covers None [] msgs None msgs []
  | covers_header payload chunk msgs m' msgs' out :
      payload <> [] ->
      covers (Some ([], payload)) chunk msgs m' msgs' out ->
      covers None (htonl_bytes (Z.of_nat (length payload)) ++ chunk) (payload :: msgs) m' msgs' out
  | covers_empty_message chunk msgs m' msgs' out :
      covers None chunk msgs m' msgs' out ->
      covers None (htonl_bytes 0 ++ chunk) ([] :: msgs) m' msgs' out
  | covers_part got chunk missing msgs :
      missing <> [] ->
      covers (Some (got, chunk ++ missing)) chunk msgs (Some (got ++ chunk, missing)) msgs []
  | covers_rest got missing chunk msgs m' msgs' out :
      missing <> [] ->
      covers None chunk msgs m' msgs' out ->
      covers (Some (got, missing)) (missing ++ chunk) msgs m' msgs' ((got ++ missing) :: out).

(** [uncut m chunks msgs out]: the chunks deliver the rest of [m] and the
    messages [msgs] to their end without cutting a header, completing [out]. *)
Inductive uncut : Pending -> list (list byte) -> list (list byte) -> list (list byte) -> Prop :=
  | uncut_nil : uncut None [] [] []
  | uncut_cons m chunk chunks msgs m' msgs' out out' :
      covers m chunk msgs m' msgs' out ->
      uncut m' chunks msgs' out' ->
      uncut m (chunk :: chunks) msgs (out ++ out').





(** ** A concrete installation *)

(** One robot, the Linux values of [errno], and stand-ins for the
    generated protobuf code, to run the controller on concrete inputs. *)
Module Demo.

(** [<errno.h>] on Linux gives both names the same value. *)
Definition EAGAIN : Z := 11.
Definition EWOULDBLOCK : Z := 11.
Definition ECONNRESET : Z := 104.

Definition gyro : Device := 1%positive.
Definition accelerometer : Device := 2%positive.
Definition motor : Device := 3%positive.

Definition robot : Robot :=
  {| getBasicTimeStep := 32;
     getDevice := fun name =>
       if String.eqb name "gyro" then Some gyro
       else if String.eqb name "accelerometer" then Some accelerometer
       else if String.eqb name "motor" then Some motor
       else None;
     getNodeType := fun d =>
       match d with
       | 1%positive => GYRO
       | 2%positive => ACCELEROMETER
       | 3%positive => MOTOR
       | _ => OTHER_NODE
       end;
     getName := fun d =>
       match d with
       | 1%positive => "gyro"
       | 2%positive => "accelerometer"
       | 3%positive => "motor"
       | _ => ""
       end;
     getType := fun _ => BUMPER |}.

(** A stand-in for the decoder: a payload is a sequence of two-byte
    time step commands, a device code and the requested period. *)
Definition device_name (code : byte) : string :=
  getName robot (Z.to_pos (byte_val code)).

Fixpoint parse_time_steps (payload : list byte) : list SensorTimeStep :=
  match payload with
  | code :: period :: rest =>
      {| sts_name := device_name code; timestep := byte_val period |} :: parse_time_steps rest
  | _ => []
  end.

(** The batch that holds these time step commands and nothing else. *)
Definition time_steps (cmds : list SensorTimeStep) : ActuatorRequests :=
  {| motor_positions := []; motor_velocities := []; motor_forces := [];
     motor_torques := []; motor_pids := []; camera_qualities := [];
     camera_exposures := []; sensor_time_steps := cmds |}.

Definition ParseFromArray (payload : list byte) : ActuatorRequests :=
  time_steps (parse_time_steps payload).

(** A stand-in for the size calculation: the proto3 wire format, one
    byte per field tag, a base-128 length, default values left out, the
    values of a measurement taken as defaults. *)
Definition varint_size (n : Z) : Z := if n <? 128 then 1 else Z.log2 n / 7 + 1.

Definition varint_field (n : Z) : Z := if n =? 0 then 0 else 1 + varint_size n.

Definition string_field (s : string) : Z :=
  let n := Z.of_nat (String.length s) in
  if n =? 0 then 0 else 1 + varint_size n + n.

Definition embedded (n : Z) : Z := 1 + varint_size n + n.

Definition message_size (m : Message) : Z :=
  match message_type m with ERROR_MESSAGE => 0 | WARNING_MESSAGE => 2 end
  + string_field (text m).

Definition measurement_size (m : Measurement) : Z := string_field (m_name m).

Definition ByteSizeLong (sm : SensorMeasurements) : Z :=
  varint_field (time sm) + varint_field (real_time sm)
  + foldr (fun m n => embedded (message_size m) + n) 0 (messages sm)
  + foldr (fun m n => embedded (measurement_size m) + n) 0 (measurements sm).

Definition allowed_hosts : list string := ["localhost"].
Definition player_id : Z := 1.

(** A quiet step: nothing arrives, the kernel takes whatever is sent. *)
Definition quiet : StepEnv :=
  {| e_accept := None; e_arrived := []; e_select := 0; e_dry := RecvFails EAGAIN;
     e_real_time := 1700000000000; e_files := fun _ => None; e_stale := 0;
     e_send := fun _ => 2 ^ 30 |}.

(** A step in which a client from an allowed host is waiting. *)
Definition connecting : StepEnv :=
  {| e_accept := Some (7, "localhost"); e_arrived := []; e_select := 0;
     e_dry := RecvFails EAGAIN; e_real_time := 1700000000000; e_files := fun _ => None;
     e_stale := 0; e_send := fun _ => 2 ^ 30 |}.

(** A quiet step during which a teammate's file shows a full window of
    40 MB packets. *)
Definition teammate_busy : StepEnv :=
  {| e_accept := None; e_arrived := []; e_select := 0; e_dry := RecvFails EAGAIN;
     e_real_time := 1700000000000;
     e_files := fun i => if i =? 2 then Some (replicate 31 40000000) else None;
     e_stale := 0; e_send := fun _ => 2 ^ 30 |}.


Definition step := step EAGAIN EWOULDBLOCK ParseFromArray ByteSizeLong allowed_hosts player_id robot.
Definition run := run EAGAIN EWOULDBLOCK ParseFromArray ByteSizeLong allowed_hosts player_id robot.
Definition step_snapshot := step_snapshot EAGAIN EWOULDBLOCK ParseFromArray robot.
Definition step_receive := step_receive EAGAIN EWOULDBLOCK ParseFromArray robot.

Definition deliver := deliver EAGAIN EWOULDBLOCK ParseFromArray robot.

(** The state once the client of [connecting] has been accepted. *)
Definition connected : PlayerServer :=
  set_outbox [Token 7 "Welcome" true] (set_client_fd 7 init).

Definition unwrap (o : outcome PlayerServer) : PlayerServer :=
  match o with Ok st => st | Fault _ => init end.

(** Step N: a time step command enables the accelerometer every 64 ms;
    step N+1 is quiet. *)
Definition enabling : StepEnv := arriving (frame [Byte.x02; Byte.x40]) (RecvFails EAGAIN).
Definition snapshot_N : PlayerServer := unwrap (step_snapshot enabling connected).
Definition after_N : PlayerServer := unwrap (step enabling connected).
Definition snapshot_N1 : PlayerServer := unwrap (step_snapshot quiet after_N).

(** The accelerometer active with a period of 64 ms, at simulated time [t]. *)
Definition sampling_at (t : Z) : PlayerServer :=
  set_controller_time t
    (set_periods {[accelerometer := 64]} (set_sensors {[accelerometer]} connected)).

(** Two of the five bytes of a message have arrived when the peer leaves:
    the header announced two bytes, one came. *)
Definition leaving : StepEnv :=
  {| e_accept := None;
     e_arrived := [Byte.x00; Byte.x00; Byte.x00; Byte.x02; Byte.x01];
     e_select := 1; e_dry := PeerClosed; e_real_time := 1700000000000;
     e_files := fun _ => None; e_stale := 0; e_send := fun _ => -1 |}.

(** One byte is missing of a two-byte message. *)
Definition one_missing : PlayerServer :=
  set_recv_index 1 (set_content_size 2 (set_recv_buffer [Byte.x01; Byte.x00] connected)).

(** The state in which [sendSensorMessage] is called in a step from
    [connected], and what [bandwidth_usage] answers there. *)
Definition sending (env : StepEnv) : PlayerServer :=
  updateDevices (unwrap (step_snapshot env connected)).

Definition usage_of (env : StepEnv) : Z * PlayerServer :=
  match bandwidth_usage player_id robot env
          (wrap_u32 (ByteSizeLong (sensor_measurements (sending env)))) (sending env) with
  | Ok r => r
  | Fault _ => (0, init)
  end.


End Demo.


(** ** Start-up: what [main] derives from the robot's name *)

Module Startup.

(** [name.find_last_of (c)]: the index of the last occurrence of [c], if any. *)
Fixpoint find_last_of (c : ascii) (s : string) : option nat :=
  match s with
  | EmptyString => None
  | String a s' =>
      match find_last_of c s' with
      | Some i => Some (S i)
      | None => if Ascii.eqb a c then Some 0%nat else None
      end
  end.

(** [name.substr (pos)]; it throws when [pos] exceeds the length. *)
Fixpoint substr (pos : nat) (s : string) : option string :=
  match pos, s with
  | O, _ => Some s
  | S pos', String _ s' => substr pos' s'
  | S _, EmptyString => None
  end.

(** What [std::stoi] does with a string: a value, or one of its two exceptions. *)
Inductive parsed : Set :=
  | Parsed (value : Z)
  | InvalidArgument
  | OutOfRange.

(** [isspace] in the C locale. *)
Definition isspace (a : ascii) : bool :=
  let n := nat_of_ascii a in
  (n =? 32)%nat || ((9 <=? n)%nat && (n <=? 13)%nat).

Definition digit_of (a : ascii) : option Z :=
  let n := Z.of_nat (nat_of_ascii a) in
  if (48 <=? n) && (n <=? 57) then Some (n - 48) else None.

Fixpoint skip_spaces (s : string) : string :=
  match s with
  | String a s' => if isspace a then skip_spaces s' else s
  | EmptyString => s
  end.

(** The value of the longest prefix of decimal digits, if there is a digit. *)
Fixpoint leading_digits (s : string) (value : Z) (seen : bool) : option Z :=
  match s with
  | String a s' =>
      match digit_of a with
      | Some d => leading_digits s' (value * 10 + d) true
      | None => if seen then Some value else None
      end
  | EmptyString => if seen then Some value else None
  end.

(** [std::stoi (s)]: white space, an optional sign, decimal digits; what
    follows the digits is ignored. *)
Definition stoi (s : string) : parsed :=
  let s := skip_spaces s in
  let '(negative, s) :=
    match s with
    | String "-" s' => (true, s')
    | String "+" s' => (false, s')
    | _ => (false, s)
    end in
  match leading_digits s 0 false with
  | Some v =>
      let v := if negative : bool then - v else v in
      if (- 2 ^ 31 <=? v) && (v <? 2 ^ 31) then Parsed v else OutOfRange
  | None => InvalidArgument
  end.

(** [std::stoi (name.substr (name.find_last_of (' ') + 1))]; without a
    space [find_last_of] gives [npos], and [npos + 1] is 0. *)
Definition player_id_of (name : string) : parsed :=
  let pos := match find_last_of " " name with Some i => S i | None => O end in
  match substr pos name with
  | Some s => stoi s
  | None => OutOfRange
  end.

(** The string of the decimal digits [ds]. *)
Fixpoint of_digits (ds : list nat) : string :=
  match ds with
  | [] => EmptyString
  | d :: ds' => String (ascii_of_nat (48 + d)) (of_digits ds')
  end.

Definition value_of (ds : list nat) : Z :=
  foldl (fun v d => v * 10 + Z.of_nat d) 0 ds.

End Startup.

(** ** Notions the further properties are stated with *)

(** The repeated field [prepareSensorMessage] adds a sensor's record to
    (a device that is no sensor never gets one). *)
Definition field_of (robot : Robot) (d : Device) : MeasurementField :=
  match getNodeType robot d with
  | ACCELEROMETER => accelerometers
  | CAMERA => cameras
  | GYRO => gyros
  | POSITION_SENSOR => position_sensors
  | _ =>
      match getType robot d with
      | BUMPER => bumpers
      | FORCE => forces
      | FORCE3D => force3ds
      end
  end.

Definition record_of (robot : Robot) (d : Device) : Measurement :=
  {| m_field := field_of robot d; m_device := d; m_name := getName robot d |}.

(** The names the commands of a batch carry, in the order of dispatch. *)
Definition batch_names (req : ActuatorRequests) : list string :=
  (cmd_name <$> motor_positions req) ++ (cmd_name <$> motor_velocities req) ++
  (cmd_name <$> motor_forces req) ++ (cmd_name <$> motor_torques req) ++
  (cmd_name <$> motor_pids req) ++ (cmd_name <$> camera_qualities req) ++
  (cmd_name <$> camera_exposures req) ++ (sts_name <$> sensor_time_steps req).

(** Between [st] and [st'] the warnings [ws] and the actuator writes
    [calls] were added, in this order each. *)
Definition answered (st st' : PlayerServer) (ws : list Message) (calls : list HostCall) : Prop :=
  messages (sensor_measurements st') = messages (sensor_measurements st) ++ ws /\
  Forall (fun m => message_type m = WARNING_MESSAGE) ws /\
  actuations st' = actuations st ++ calls.

(** The sum of a list of byte counts. *)
Definition total (values : list Z) : Z := foldr Z.add 0 values.

(** The files of the teammates that [bandwidth_usage] reads. *)
Definition teammates_files (player_id : Z) (env : StepEnv) : list (list Z) :=
  omap (fun i => if i =? player_id then None else e_files env i) [1; 2; 3; 4].

(** What holds of the state between two calls of [step]. *)
Definition between_steps (robot : Robot) (st : PlayerServer) : Prop :=
  new_sensors st = ∅ /\
  sensor_measurements st = Clear /\
  0 <= controller_time st < 2 ^ 32 /\
  well_framed st /\
  quota_file st = data_transferred st /\
  (forall data, data_transferred st = Some data ->
                length data = Z.to_nat (Z.quot 1000 (basic_time_step robot))) /\
  (client_fd st = -1 -> sock st = []) /\
  (forall d, d ∈ sensors st -> exists name, getDevice robot name = Some d) /\
  (forall d period, periods st !! d = Some period ->
     is_sensor (getNodeType robot d) = true /\
     Z.rem period (basic_time_step robot) = 0 /\
     (period = 0 \/ basic_time_step robot <= period)).

(** * Properties *)

(** ** Machine integers *)

Lemma wrap_i32_small z : - 2 ^ 31 <= z < 2 ^ 31 -> wrap_i32 z = z.
Proof.
  intros Hz. unfold wrap_i32.
  rewrite Z.mod_small; lia.
Qed.

Lemma wrap_u32_small z : 0 <= z < 2 ^ 32 -> wrap_u32 z = z.
Proof. intros Hz. unfold wrap_u32. apply Z.mod_small; lia. Qed.

Lemma wrap_u32_range z : 0 <= wrap_u32 z < 2 ^ 32.
Proof. unfold wrap_u32. apply Z.mod_pos_bound. lia. Qed.

Lemma wrap_i32_le z : 0 <= z -> wrap_i32 z <= z.
Proof.
  intros Hz. unfold wrap_i32.
  assert ((z + 2 ^ 31) mod 2 ^ 32 <= z + 2 ^ 31) by (apply Z.mod_le; lia).
  lia.
Qed.

(** ** send_all *)

Lemma send_result kernel call length :
  0 < length -> ~ send kernel call length < 1 -> 1 <= send kernel call length <= length.
Proof.
  unfold send. intros Hlen Hi.
  destruct (kernel call <? 1) eqn:Hk; [lia|].
  apply Z.ltb_ge in Hk.
  pose proof (wrap_i32_le (Z.min (kernel call) length)). lia.
Qed.

(** The loop of [send_all] ends within [length] iterations; it reports
    success exactly when it has written everything. *)
Lemma send_all_loop_result fuel : forall kernel call length written,
  0 <= length <= Z.of_nat fuel ->
  exists complete w,
    send_all_loop fuel kernel call length written = Ok (complete, w) /\
    (if complete : bool then w = written + length else written <= w < written + length).
Proof.
  induction fuel as [|fuel IH]; intros kernel call length written Hlen; simpl.
  - replace length with 0 by lia. simpl. exists true, written. split; [done|lia].
  - destruct (0 <? length) eqn:Hpos.
    + apply Z.ltb_lt in Hpos.
      destruct (send kernel call length <? 1) eqn:Hi.
      * exists false, written. split; [done|lia].
      * apply Z.ltb_ge in Hi.
        destruct (send_result kernel call length) as [Hlo Hhi]; [lia..|].
        destruct (IH kernel (S call) (length - send kernel call length)
                    (written + send kernel call length)) as (c & w & Heq & Hw); [lia|].
        exists c, w. split; [done|]. destruct c; lia.
    + apply Z.ltb_ge in Hpos. exists true, written. split; [done|lia].
Qed.

Lemma send_all_result kernel length :
  0 <= length ->
  exists complete w,
    send_all kernel length = Ok (complete, w) /\
    (if complete : bool then w = length else 0 <= w < length).
Proof.
  intros Hlen. unfold send_all.
  destruct (send_all_loop_result (Z.to_nat length) kernel 0%nat length 0) as (c & w & Heq & Hw);
    [lia|].
  exists c, w. split; [done|]. destruct c; lia.
Qed.

(** ** Framed transport, inbound *)

Lemma set_sock_same st : set_sock (sock st) st = st.
Proof. by destruct st. Qed.

Section Transport.

Variables EAGAIN EWOULDBLOCK : Z.

Local Abbreviation receiveData := (receiveData EAGAIN EWOULDBLOCK).
Local Abbreviation closes := (closes EAGAIN EWOULDBLOCK).

(** Where both names denote one value, only that value is "would block". *)
Lemma unexpected_failure_same errno :
  EAGAIN = EWOULDBLOCK ->
  unexpected_failure EAGAIN EWOULDBLOCK errno = negb (errno =? EAGAIN).
Proof. intros <-. unfold unexpected_failure. by destruct (errno =? EAGAIN). Qed.

(** Where they differ, the test holds of every value. *)
Lemma unexpected_failure_distinct errno :
  EAGAIN <> EWOULDBLOCK -> unexpected_failure EAGAIN EWOULDBLOCK errno = true.
Proof.
  intros Hne. unfold unexpected_failure.
  destruct (errno =? EAGAIN) eqn:H1; [|done].
  destruct (errno =? EWOULDBLOCK) eqn:H2; [|done].
  apply Z.eqb_eq in H1, H2. congruence.
Qed.

Lemma receiveData_nothing_wanted dry len buffer st :
  len <= 0 -> receiveData dry len buffer st = Ok (0, buffer, st).
Proof.
  intros Hlen. unfold Player.receiveData. simpl.
  destruct (0 <? len) eqn:H; [apply Z.ltb_lt in H; lia|done].
Qed.

(** Enough is readable: one [recv] fills the area. *)
Lemma receiveData_enough dry len buffer st :
  0 < len <= Z.of_nat (length (sock st)) ->
  receiveData dry len buffer st
  = Ok (len, overwrite (take (Z.to_nat len) (sock st)) buffer,
        set_sock (drop (Z.to_nat len) (sock st)) st).
Proof.
  intros Hlen. unfold Player.receiveData. simpl.
  destruct (0 <? len) eqn:H; [|apply Z.ltb_ge in H; lia].
  unfold recv. destruct (sock st) as [|b l] eqn:Hs; [simpl in Hlen; lia|].
  rewrite Z.sub_0_r, Z.min_l by lia.
  destruct (len =? -1) eqn:H1; [apply Z.eqb_eq in H1; lia|].
  destruct (len =? 0) eqn:H2; [apply Z.eqb_eq in H2; lia|].
  destruct (length l); simpl; rewrite Z.ltb_irrefl; done.
Qed.

(** Less is readable than wanted: a first [recv] takes what there is, the
    next one finds the socket dry. *)
Lemma receiveData_short dry len buffer st :
  Z.of_nat (length (sock st)) < len ->
  receiveData dry len buffer st
  = Ok (Z.of_nat (length (sock st)), overwrite (sock st) buffer,
        if closes dry then close_client (set_sock [] st) else set_sock [] st).
Proof.
  intros Hlen. unfold Player.receiveData.
  destruct (sock st) as [|b l] eqn:Hs.
  - (* nothing to read *)
    replace (set_sock [] st) with st by (rewrite <- Hs; symmetry; apply set_sock_same).
    simpl. destruct (0 <? len) eqn:H; [|apply Z.ltb_ge in H; simpl in Hlen; lia].
    unfold recv. rewrite Hs.
    destruct dry as [errno|]; simpl; [|done].
    by destruct (unexpected_failure EAGAIN EWOULDBLOCK errno).
  - set (k := Z.of_nat (length (b :: l))) in *.
    assert (0 < k) by (subst k; simpl; lia).
    cbn [receiveData_loop].
    destruct (0 <? len) eqn:H0; [|apply Z.ltb_ge in H0; lia].
    unfold recv at 1. rewrite Hs. fold k.
    rewrite Z.sub_0_r, Z.min_r by lia.
    destruct (k =? -1) eqn:H1; [apply Z.eqb_eq in H1; lia|].
    destruct (k =? 0) eqn:H2; [apply Z.eqb_eq in H2; lia|].
    replace (Z.to_nat k) with (length (b :: l)) by (subst k; lia).
    rewrite firstn_all, drop_all. cbn [length receiveData_loop].
    rewrite Z.add_0_l.
    destruct (k <? len) eqn:H3; [|apply Z.ltb_ge in H3; lia].
    unfold recv. cbn [sock set_sock].
    destruct dry as [errno|]; simpl; [|done].
    by destruct (unexpected_failure EAGAIN EWOULDBLOCK errno).
Qed.

(** In every case [receiveData] returns, touches only the socket, and
    shortens what is readable by what it read. *)
Lemma receiveData_cases dry len buffer st :
  exists n area st1,
    receiveData dry len buffer st = Ok (n, area, st1) /\
    beyond_socket st1 = beyond_socket st /\
    0 <= n /\
    (n <> 0 -> (length (sock st1) < length (sock st))%nat) /\
    (client_fd st1 = client_fd st \/ client_fd st1 = -1).
Proof.
  destruct (Z.le_gt_cases len 0) as [H0|H0].
  { rewrite receiveData_nothing_wanted by done.
    eexists _, _, _. split; [done|]. repeat split; auto; lia. }
  destruct (Z.le_gt_cases len (Z.of_nat (length (sock st)))) as [H1|H1].
  { rewrite receiveData_enough by lia.
    eexists _, _, _. split; [done|]. repeat split; auto; [lia|].
    intros _. cbn [sock set_sock]. rewrite length_drop. lia. }
  rewrite receiveData_short by lia.
  eexists _, _, _. split; [done|].
  destruct (closes dry); repeat split; auto; try lia;
    intros Hn; cbn; lia.
Qed.

End Transport.

(** ** Command dispatcher *)

Lemma foldl_invariant {A B} (f : A -> B -> A) (P : A -> Prop) (l : list B) :
  (forall a b, P a -> P (f a b)) -> forall a, P a -> P (foldl f a l).
Proof. intros Hf. induction l as [|b l IH]; intros a Ha; simpl; auto. Qed.

Section Dispatcher.

Variable ParseFromArray : list byte -> ActuatorRequests.
Variable robot : Robot.

Local Abbreviation sensor_time_step_command := (sensor_time_step_command robot).
Local Abbreviation sensor_time_step_commands := (sensor_time_step_commands robot).
Local Abbreviation time_step_effect := (time_step_effect robot).
Local Abbreviation dispatch := (dispatch robot).
Local Abbreviation processBuffer := (processBuffer ParseFromArray robot).
Local Abbreviation commands_of := (commands_of ParseFromArray).
Local Abbreviation basic_time_step := (basic_time_step robot).

(** The loops over motor and camera commands write to the actuators and
    add warnings; nothing else changes. *)
Lemma motor_commands_frame {V} command setter (cmds : list (Command V)) st :
  let st' := motor_commands robot command setter cmds st in
  subscription st' = subscription st /\ untouched st' = untouched st /\
  receiving st' = receiving st.
Proof.
  unfold motor_commands. apply foldl_invariant; [|done].
  intros s c (H1 & H2 & H3). by destruct (getMotor robot (cmd_name c)).
Qed.

Lemma camera_quality_commands_frame cmds st :
  let st' := camera_quality_commands robot cmds st in
  subscription st' = subscription st /\ untouched st' = untouched st /\
  receiving st' = receiving st.
Proof.
  unfold camera_quality_commands. apply foldl_invariant; [|done].
  intros s c (H1 & H2 & H3). by destruct (getCamera robot (cmd_name c)).
Qed.

Lemma camera_exposure_commands_frame cmds st :
  let st' := camera_exposure_commands robot cmds st in
  subscription st' = subscription st /\ untouched st' = untouched st /\
  receiving st' = receiving st.
Proof.
  unfold camera_exposure_commands. apply foldl_invariant; [|done].
  intros s c (H1 & H2 & H3). by destruct (getCamera robot (cmd_name c)).
Qed.

(** One time step command acts on the subscription state as
    [time_step_effect] says, and on the warnings. *)
Lemma sensor_time_step_command_effect c st st' :
  sensor_time_step_command c st = Ok st' ->
  subscription st' = time_step_effect (subscription st) c /\
  untouched st' = untouched st /\ receiving st' = receiving st.
Proof.
  unfold Player.sensor_time_step_command, Player.time_step_effect, configures.
  destruct (getDevice robot (sts_name c)) as [device|]; [|by intros [= <-]].
  cbn [active pending configured subscription].
  destruct (negb (timestep c =? 0)) eqn:Hz; cbn [andb negb].
  - destruct (timestep c <? basic_time_step) eqn:Hlt; cbn [negb andb].
    + intros [= <-]. by destruct (decide (device ∈ sensors st)).
    + unfold c_rem. destruct (basic_time_step =? 0); [done|]. cbn.
      destruct (Z.rem (timestep c) basic_time_step =? 0); cbn [negb andb].
      * destruct (decide (device ∈ sensors st));
          by destruct (getNodeType robot device); intros [= <-].
      * intros [= <-]. by destruct (decide (device ∈ sensors st)).
  - unfold c_rem. destruct (basic_time_step =? 0); [done|]. cbn.
    destruct (Z.rem (timestep c) basic_time_step =? 0); cbn [negb andb].
    * by destruct (getNodeType robot device); intros [= <-].
    * by intros [= <-].
Qed.


Lemma sensor_time_step_commands_effect cmds : forall st st',
  sensor_time_step_commands cmds st = Ok st' ->
  subscription st' = foldl time_step_effect (subscription st) cmds /\
  untouched st' = untouched st /\ receiving st' = receiving st.
Proof.
  induction cmds as [|c cmds IH]; intros st st'; simpl.
  - by intros [= <-].
  - destruct (sensor_time_step_command c st) as [st1|] eqn:Hc; [|done]. cbn.
    intros Hrest. apply IH in Hrest as (-> & -> & ->).
    by apply sensor_time_step_command_effect in Hc as (-> & -> & ->).
Qed.


Lemma dispatch_effect req st st' :
  dispatch req st = Ok st' ->
  subscription st' = foldl time_step_effect (subscription st) (sensor_time_steps req) /\
  untouched st' = untouched st /\ receiving st' = receiving st.
Proof.
  unfold Player.dispatch. intros H.
  apply sensor_time_step_commands_effect in H as (-> & -> & ->).
  repeat match goal with
  | |- context [camera_exposure_commands robot ?c ?s] =>
      destruct (camera_exposure_commands_frame c s) as (-> & -> & ->)
  | |- context [camera_quality_commands robot ?c ?s] =>
      destruct (camera_quality_commands_frame c s) as (-> & -> & ->)
  | |- context [motor_commands robot ?w ?f ?c ?s] =>
      destruct (motor_commands_frame w f c s) as (-> & -> & ->)
  end.
  done.
Qed.


(** [processBuffer] logs the payload, resets the buffer and dispatches. *)
Lemma processBuffer_effect st st' :
  processBuffer st = Ok st' ->
  let payload := take (Z.to_nat (recv_index st)) (recv_buffer st) in
  subscription st' = foldl time_step_effect (subscription st) (commands_of [payload]) /\
  untouched st' = untouched st /\
  receiving st' = ([], 0, 0, dispatched st ++ [payload]).
Proof.
  unfold Player.processBuffer. intros H.
  apply dispatch_effect in H as (-> & -> & ->).
  unfold Player.commands_of. simpl. by rewrite app_nil_r.
Qed.

End Dispatcher.

(** ** The receive loop *)

Lemma beyond_socket_parts st1 st :
  beyond_socket st1 = beyond_socket st ->
  subscription st1 = subscription st /\ receiving st1 = receiving st /\
  steady st1 = steady st /\ actuations st1 = actuations st.
Proof.
  unfold beyond_socket, subscription, receiving, steady.
  intros [= -> -> -> -> -> -> -> -> -> -> -> -> ->]. done.
Qed.

Lemma untouched_parts st1 st :
  untouched st1 = untouched st ->
  client_fd st1 = client_fd st /\ sock st1 = sock st /\ steady st1 = steady st.
Proof.
  unfold untouched. intros H. split_and!.
  - exact (f_equal (fun x => fst (fst x)) H).
  - exact (f_equal (fun x => snd (fst x)) H).
  - exact (f_equal snd H).
Qed.

Section Receiving.

Variables EAGAIN EWOULDBLOCK : Z.
Variable ParseFromArray : list byte -> ActuatorRequests.
Variable robot : Robot.

Local Abbreviation receiveData := (receiveData EAGAIN EWOULDBLOCK).
Local Abbreviation receiveMessages_loop :=
  (receiveMessages_loop EAGAIN EWOULDBLOCK ParseFromArray robot).
Local Abbreviation receiveMessages := (receiveMessages EAGAIN EWOULDBLOCK ParseFromArray robot).
Local Abbreviation processBuffer := (processBuffer ParseFromArray robot).
Local Abbreviation time_step_effect := (time_step_effect robot).
Local Abbreviation commands_of := (commands_of ParseFromArray).

Lemma commands_of_cons payload payloads :
  commands_of (payload :: payloads) = commands_of [payload] ++ commands_of payloads.
Proof. unfold Player.commands_of. simpl. by rewrite app_nil_r. Qed.

Lemma commands_of_app payloads1 payloads2 :
  commands_of (payloads1 ++ payloads2) = commands_of payloads1 ++ commands_of payloads2.
Proof. unfold Player.commands_of. apply bind_app. Qed.

(** The only fault of the dispatcher is the remainder by a zero step duration. *)
Lemma processBuffer_fault st f : processBuffer st = Fault f -> f = DivisionByZero.
Proof.
  unfold Player.processBuffer, dispatch.
  generalize (sensor_time_steps
                (ParseFromArray (take (Z.to_nat (recv_index st)) (recv_buffer st)))).
  intros cmds. match goal with |- sensor_time_step_commands _ _ ?s = _ -> _ => generalize s end.
  induction cmds as [|c cmds IH]; intros s; simpl; [done|].
  destruct (sensor_time_step_command robot c s) as [s1|f1] eqn:Hc; cbn.
  - apply IH.
  - intros [= <-]. revert Hc. unfold sensor_time_step_command.
    destruct (getDevice robot (sts_name c)); [|done].
    destruct (_ && _); [done|].
    unfold c_rem. destruct (basic_time_step robot =? 0); cbn; [congruence|].
    destruct (negb _); [done|]. by destruct (getNodeType robot _).
Qed.

(** What one poll does: it hands some payloads to the dispatcher, whose
    time step commands act in order on the subscription state. *)
Lemma receiveMessages_loop_effect dry fuel : forall st st',
  receiveMessages_loop fuel dry st = Ok st' ->
  exists payloads,
    dispatched st' = dispatched st ++ payloads /\
    subscription st' = foldl time_step_effect (subscription st) (commands_of payloads) /\
    steady st' = steady st.
Proof.
  induction fuel as [|fuel IH]; intros st st'; cbn [Player.receiveMessages_loop];
    (destruct (client_fd st =? -1);
     [intros [= <-]; exists []; by rewrite app_nil_r|]); [done|].
  destruct (content_size st =? 0).
  - destruct (receiveData_cases EAGAIN EWOULDBLOCK dry 4 (replicate 4 Byte.x00) st)
      as (n & area & st1 & -> & Hb & _). cbn.
    apply beyond_socket_parts in Hb as (Hsub & Hrecv & Hst & _).
    destruct (_ <? 0); [done|].
    match goal with |- context [receiveMessages_loop _ _ ?s] => set (st2 := s) end.
    assert (dispatched st2 = dispatched st /\ subscription st2 = subscription st
            /\ steady st2 = steady st) as (Hd2 & Hs2 & Ht2).
    { injection Hrecv as _ _ _ Hd. done. }
    destruct (n =? 0).
    + intros [= <-]. exists []. by rewrite app_nil_r.
    + intros H. apply IH in H as (ps & -> & -> & ->).
      exists ps. by rewrite Hd2, Hs2, Ht2.
  - destruct (receiveData_cases EAGAIN EWOULDBLOCK dry (content_size st - recv_index st)
                (drop (Z.to_nat (recv_index st)) (recv_buffer st)) st)
      as (n & area & st1 & -> & Hb & _). cbn.
    apply beyond_socket_parts in Hb as (Hsub & Hrecv & Hst & _).
    match goal with |- context [processBuffer ?s] => set (st3 := s) end.
    assert (dispatched st3 = dispatched st /\ subscription st3 = subscription st
            /\ steady st3 = steady st) as (Hd3 & Hs3 & Ht3).
    { injection Hrecv as _ _ _ Hd. done. }
    destruct (_ =? content_size st1).
    + destruct (processBuffer st3) as [st4|] eqn:Hp; [|done]. cbn.
      apply processBuffer_effect in Hp as (Hs4 & Hu4 & Hr4).
      apply untouched_parts in Hu4 as (_ & _ & Ht4). injection Hr4 as _ _ _ Hd4.
      change (dispatched st4 = dispatched st3 ++
                [take (Z.to_nat (recv_index st3)) (recv_buffer st3)]) in Hd4.
      destruct (n =? 0).
      * intros [= <-]. exists [take (Z.to_nat (recv_index st3)) (recv_buffer st3)].
        by rewrite Hd4, Hs4, Ht4, Hd3, Hs3, Ht3.
      * intros H. apply IH in H as (ps & -> & -> & ->).
        exists (take (Z.to_nat (recv_index st3)) (recv_buffer st3) :: ps).
        rewrite commands_of_cons, foldl_app.
        rewrite Hd4, Hs4, Ht4, Hd3, Hs3, Ht3.
        split; [by rewrite <- app_assoc|done].
    + cbn. destruct (n =? 0).
      * intros [= <-]. exists []. by rewrite app_nil_r.
      * intros H. apply IH in H as (ps & -> & -> & ->).
        exists ps. by rewrite Hd3, Hs3, Ht3.
Qed.

(** The loop ends: every iteration that goes on has taken bytes from the socket. *)
Lemma receiveMessages_loop_fuel dry fuel : forall st,
  (length (sock st) < fuel)%nat -> receiveMessages_loop fuel dry st <> Fault OutOfFuel.
Proof.
  induction fuel as [|fuel IH]; intros st Hfuel; [lia|].
  cbn [Player.receiveMessages_loop].
  destruct (client_fd st =? -1); [done|].
  destruct (content_size st =? 0).
  - destruct (receiveData_cases EAGAIN EWOULDBLOCK dry 4 (replicate 4 Byte.x00) st)
      as (n & area & st1 & -> & _ & _ & Hless & _). cbn.
    destruct (_ <? 0); [done|].
    destruct (n =? 0) eqn:Hn; [done|]. apply Z.eqb_neq in Hn.
    apply IH. cbn. specialize (Hless Hn). lia.
  - destruct (receiveData_cases EAGAIN EWOULDBLOCK dry (content_size st - recv_index st)
                (drop (Z.to_nat (recv_index st)) (recv_buffer st)) st)
      as (n & area & st1 & -> & _ & _ & Hless & _). cbn.
    match goal with |- context [processBuffer ?s] => set (st3 := s) end.
    assert (sock st3 = sock st1) as Hs3 by done.
    destruct (_ =? content_size st1).
    + destruct (processBuffer st3) as [st4|f] eqn:Hp; cbn.
      * apply processBuffer_effect in Hp as (_ & Hu4 & _).
        apply untouched_parts in Hu4 as (_ & Hs4 & _).
        destruct (n =? 0) eqn:Hn; [done|]. apply Z.eqb_neq in Hn.
        apply IH. specialize (Hless Hn). rewrite Hs4, Hs3. lia.
      * apply processBuffer_fault in Hp as ->. done.
    + cbn. destruct (n =? 0) eqn:Hn; [done|]. apply Z.eqb_neq in Hn.
      apply IH. specialize (Hless Hn). rewrite Hs3. lia.
Qed.

Lemma receiveMessages_effect dry st st' :
  receiveMessages dry st = Ok st' ->
  exists payloads,
    dispatched st' = dispatched st ++ payloads /\
    subscription st' = foldl time_step_effect (subscription st) (commands_of payloads) /\
    steady st' = steady st.
Proof. apply receiveMessages_loop_effect. Qed.

Lemma receiveMessages_fuel dry st : receiveMessages dry st <> Fault OutOfFuel.
Proof. apply receiveMessages_loop_fuel. lia. Qed.

End Receiving.

(** ** The subscription state under time step commands *)

Section Subscriptions.

Variable robot : Robot.

Local Abbreviation time_step_effect := (time_step_effect robot).
Local Abbreviation configures := (configures robot).

Implicit Types (u : DeviceSubscription) (c : SensorTimeStep) (d : Device).

(** No command adds a device to the active set. *)
Lemma effect_active_subset u c : active (time_step_effect u c) ⊆ active u.
Proof.
  unfold Player.time_step_effect.
  destruct (getDevice robot (sts_name c)) as [device|]; [|done].
  destruct (negb (timestep c =? 0)), (decide (device ∈ active u)),
    (configures (timestep c) device); cbn; set_solver.
Qed.

(** No command removes a device from the pending set. *)
Lemma effect_pending_mono u c : pending u ⊆ pending (time_step_effect u c).
Proof.
  unfold Player.time_step_effect.
  destruct (getDevice robot (sts_name c)) as [device|]; [|done].
  destruct (negb (timestep c =? 0)), (decide (device ∈ active u)),
    (configures (timestep c) device); cbn; set_solver.
Qed.

(** The two sets stay disjoint. *)
Lemma effect_disjoint u c :
  active u ## pending u -> active (time_step_effect u c) ## pending (time_step_effect u c).
Proof.
  unfold Player.time_step_effect.
  destruct (getDevice robot (sts_name c)) as [device|]; [|done].
  destruct (negb (timestep c =? 0)), (decide (device ∈ active u)),
    (configures (timestep c) device); cbn; set_solver.
Qed.

(** A command leaves the devices it does not name alone. *)
Lemma effect_other u c d :
  getDevice robot (sts_name c) <> Some d ->
  (d ∈ active (time_step_effect u c) <-> d ∈ active u) /\
  (d ∈ pending (time_step_effect u c) <-> d ∈ pending u) /\
  configured (time_step_effect u c) !! d = configured u !! d.
Proof.
  unfold Player.time_step_effect.
  destruct (getDevice robot (sts_name c)) as [device|]; [|done].
  intros Hne. assert (device <> d) by congruence.
  destruct (negb (timestep c =? 0)), (decide (device ∈ active u)),
    (configures (timestep c) device); cbn;
    rewrite ?lookup_insert_ne by done; split_and!; set_solver.
Qed.

(** A period of 0 takes the device out of the active set. *)
Lemma effect_disable u c d :
  getDevice robot (sts_name c) = Some d -> timestep c = 0 ->
  d ∉ active (time_step_effect u c).
Proof.
  unfold Player.time_step_effect. intros -> ->. cbn.
  destruct (configures 0 d); cbn; set_solver.
Qed.

(** A command that reaches [enable] for an inactive device stages it
    and configures its period. *)
Lemma effect_enable u c d :
  getDevice robot (sts_name c) = Some d -> timestep c <> 0 ->
  configures (timestep c) d = true -> d ∉ active u ->
  d ∉ active (time_step_effect u c) /\ d ∈ pending (time_step_effect u c) /\
  configured (time_step_effect u c) !! d = Some (timestep c).
Proof.
  unfold Player.time_step_effect. intros -> Hts -> Hd.
  apply Z.eqb_neq in Hts. rewrite Hts. cbn.
  destruct (decide (d ∈ active u)); [done|]. cbn.
  rewrite lookup_insert_eq. split_and!; [done|set_solver|done].
Qed.

Lemma effects_active_subset cmds : forall u, active (foldl time_step_effect u cmds) ⊆ active u.
Proof.
  induction cmds as [|c cmds IH]; intros u; simpl; [done|].
  etrans; [apply IH|apply effect_active_subset].
Qed.

Lemma effects_pending_mono cmds : forall u, pending u ⊆ pending (foldl time_step_effect u cmds).
Proof.
  induction cmds as [|c cmds IH]; intros u; simpl; [done|].
  etrans; [apply effect_pending_mono|apply IH].
Qed.

Lemma effects_disjoint cmds : forall u,
  active u ## pending u ->
  active (foldl time_step_effect u cmds) ## pending (foldl time_step_effect u cmds).
Proof.
  induction cmds as [|c cmds IH]; intros u Hu; simpl; [done|].
  by apply IH, effect_disjoint.
Qed.

Lemma effects_other cmds d : forall u,
  (forall c, c ∈ cmds -> getDevice robot (sts_name c) <> Some d) ->
  (d ∈ active (foldl time_step_effect u cmds) <-> d ∈ active u) /\
  (d ∈ pending (foldl time_step_effect u cmds) <-> d ∈ pending u) /\
  configured (foldl time_step_effect u cmds) !! d = configured u !! d.
Proof.
  induction cmds as [|c cmds IH]; intros u Hcmds; simpl; [done|].
  destruct (IH (time_step_effect u c)) as (H1 & H2 & H3).
  { intros c' Hc'. apply Hcmds. by right. }
  destruct (effect_other u c d) as (H4 & H5 & H6).
  { apply Hcmds. by left. }
  rewrite H1, H2, H3. done.
Qed.

(** A device named by a period-0 command is not active afterwards. *)
Lemma effects_disable cmds c d u :
  c ∈ cmds -> getDevice robot (sts_name c) = Some d -> timestep c = 0 ->
  d ∉ active (foldl time_step_effect u cmds).
Proof.
  intros Hin Hd Hts.
  apply list_elem_of_split in Hin as (l1 & l2 & ->).
  rewrite foldl_app. simpl. intros Hact.
  apply effects_active_subset in Hact.
  by eapply effect_disable.
Qed.

End Subscriptions.

(** ** Measurement aggregator *)

Lemma beyond_records_parts st1 st :
  beyond_records st1 = beyond_records st ->
  subscription st1 = subscription st /\ client_fd st1 = client_fd st /\
  controller_time st1 = controller_time st /\ dispatched st1 = dispatched st /\
  messages (sensor_measurements st1) = messages (sensor_measurements st).
Proof.
  unfold beyond_records, subscription, receiving.
  intros H. injection H. intros. split_and!; congruence.
Qed.

Section Aggregator.

Variable robot : Robot.

Local Abbreviation sample := (sample robot).
Local Abbreviation sample_all := (sample_all robot).
Local Abbreviation sampled := (sampled robot).
Local Abbreviation prepareSensorMessage := (prepareSensorMessage robot).

Lemma elem_of_in_order (s : gset Device) d : d ∈ in_order s <-> d ∈ s.
Proof. unfold in_order. by rewrite merge_sort_Permutation, elem_of_elements. Qed.

(** With a period that is positive as an [unsigned], the test is the
    one on the remainder. *)
Lemma due_period st d :
  0 <= controller_time st -> 0 < getSamplingPeriod st d < 2 ^ 32 ->
  due d st = Ok (controller_time st mod getSamplingPeriod st d =? 0).
Proof.
  intros Ht HP. unfold due, c_rem.
  rewrite wrap_u32_small by lia.
  destruct (getSamplingPeriod st d =? 0) eqn:H0; [apply Z.eqb_eq in H0; lia|].
  cbn. by rewrite Z.rem_mod_nonneg by lia.
Qed.

(** With a period that is zero as an [unsigned], the test is undefined. *)
Lemma due_zero st d :
  wrap_u32 (getSamplingPeriod st d) = 0 -> due d st = Fault DivisionByZero.
Proof. intros H. unfold due, c_rem. by rewrite H. Qed.

Lemma due_returns st d :
  wrap_u32 (getSamplingPeriod st d) <> 0 -> exists b, due d st = Ok b.
Proof.
  intros H. unfold due, c_rem.
  destruct (_ =? 0) eqn:H0; [by apply Z.eqb_eq in H0|]. cbn. eauto.
Qed.

(** One iteration adds a record of the device or nothing. *)
Lemma sample_effect d st st' :
  sample d st = Ok st' ->
  exists field,
    st' = if sampled st d then add_record robot field d st else st.
Proof.
  unfold Player.sample, Player.sampled.
  destruct (getNodeType robot d); cbn [is_sensor andb];
    try (intros [= <-]; by exists accelerometers);
    (destruct (due d st) as [[]|]; cbn; [| |done]; intros [= <-];
     [|by exists accelerometers]).
  - by exists accelerometers.
  - by exists cameras.
  - by exists gyros.
  - by exists position_sensors.
  - destruct (getType robot d); eauto.
Qed.

Lemma sample_all_effect devices : forall st st',
  sample_all devices st = Ok st' ->
  beyond_records st' = beyond_records st /\
  forall d, reports (sensor_measurements st') d <->
            reports (sensor_measurements st) d \/ (d ∈ devices /\ sampled st d = true).
Proof.
  induction devices as [|d0 devices IH]; intros st st'; simpl.
  - intros [= <-]. split; [done|]. intros d. set_solver.
  - destruct (sample d0 st) as [st1|] eqn:Hs; [|done]. cbn. intros Hrest.
    apply IH in Hrest as [Hb Hrep].
    apply sample_effect in Hs as [field ->].
    split.
    + rewrite Hb. by destruct (Player.sampled robot st d0).
    + intros d. rewrite Hrep. unfold reports.
      destruct (Player.sampled robot st d0) eqn:Hd0.
      * change (Player.sampled robot (add_record robot field d0 st) d)
          with (Player.sampled robot st d).
        cbn. rewrite fmap_app. cbn. rewrite elem_of_app, list_elem_of_singleton.
        rewrite elem_of_cons. split; [|naive_solver].
        intros [[? | ->] | [? ?]]; auto.
      * rewrite elem_of_cons. split; [naive_solver|].
        intros [? | [[-> | ?] ?]]; auto. congruence.
Qed.

Lemma sample_all_returns devices : forall st,
  (forall d, d ∈ devices -> is_sensor (getNodeType robot d) = true ->
             wrap_u32 (getSamplingPeriod st d) <> 0) ->
  exists st', sample_all devices st = Ok st'.
Proof.
  induction devices as [|d0 devices IH]; intros st Hper; simpl; [eauto|].
  assert (exists st1, sample d0 st = Ok st1 /\ periods st1 = periods st) as (st1 & -> & Hp).
  { unfold Player.sample.
    destruct (getNodeType robot d0) eqn:Hk; try (by eauto);
      (destruct (due_returns st d0) as [b ->];
       [apply Hper; [by left|by rewrite Hk]|]); cbn;
      destruct b; eauto.
    destruct (getType robot d0); eauto. }
  cbn. apply IH. intros d Hd Hk. unfold getSamplingPeriod. rewrite Hp.
  apply Hper; [by right|done].
Qed.

(** The snapshot holds, besides what it held, a record of every active
    device that is due. *)
Lemma prepareSensorMessage_effect real_time st st' :
  prepareSensorMessage real_time st = Ok st' ->
  subscription st' = subscription st /\ client_fd st' = client_fd st /\
  controller_time st' = controller_time st /\ dispatched st' = dispatched st /\
  forall d, reports (sensor_measurements st') d <->
            reports (sensor_measurements st) d \/ (d ∈ sensors st /\ sampled st d = true).
Proof.
  unfold Player.prepareSensorMessage. intros H.
  apply sample_all_effect in H as [Hb Hrep].
  apply beyond_records_parts in Hb as (-> & -> & -> & -> & _).
  split_and!; try done.
  intros d. rewrite Hrep. cbn [sensors set_sensor_measurements].
  by rewrite elem_of_in_order.
Qed.

Lemma prepareSensorMessage_returns real_time st :
  (forall d, d ∈ sensors st -> is_sensor (getNodeType robot d) = true ->
             wrap_u32 (getSamplingPeriod st d) <> 0) ->
  exists st', prepareSensorMessage real_time st = Ok st'.
Proof.
  intros H. unfold Player.prepareSensorMessage.
  apply sample_all_returns. intros d Hd. apply H. by apply elem_of_in_order in Hd.
Qed.

End Aggregator.

(** ** Bandwidth accounting and the outbound frame *)

Section Sending.

Variable ByteSizeLong : SensorMeasurements -> Z.
Variable player_id : Z.
Variable robot : Robot.

Local Abbreviation basic_time_step := (basic_time_step robot).
Local Abbreviation bandwidth_usage := (bandwidth_usage player_id robot).
Local Abbreviation sendSensorMessage := (sendSensorMessage ByteSizeLong player_id robot).

(** [bandwidth_usage] changes the window and the file, nothing else. *)
Lemma bandwidth_usage_effect env size st usage st1 :
  bandwidth_usage env size st = Ok (usage, st1) ->
  exists data, st1 = set_quota_file (Some data) (set_data_transferred (Some data) st).
Proof.
  unfold Player.bandwidth_usage.
  destruct (c_div 1000 basic_time_step) as [window_size|]; [cbn|done].
  destruct (c_div (controller_time st) _) as [steps|]; [cbn|done].
  destruct (c_rem steps _) as [index|]; [cbn|done].
  destruct (match data_transferred st with Some _ => _ | None => _ end) as [data|];
    [cbn|done].
  destruct (quota_writable st); [|done].
  intros [= _ <-]. eauto.
Qed.


(** With a step duration between 1 and 1000 ms and a quota file that can
    be opened it returns, and the slot of the current step holds the size
    it was given. *)
Lemma bandwidth_usage_returns env size st :
  0 < basic_time_step <= 1000 -> 0 <= controller_time st -> quota_writable st = true ->
  let window_size := 1000 / basic_time_step in
  let index := (controller_time st / basic_time_step) mod window_size in
  let data := <[Z.to_nat index := wrap_i32 size]>
                (default (replicate (Z.to_nat window_size) 0) (data_transferred st)) in
  exists usage,
    bandwidth_usage env size st
    = Ok (usage, set_quota_file (Some data) (set_data_transferred (Some data) st)).
Proof.
  intros Hb Ht Hwr window_size index data.
  assert (1 <= window_size) as Hw.
  { subst window_size. apply Z.div_le_lower_bound; lia. }
  assert (window_size <= 1000) as Hw'.
  { subst window_size. apply Z.div_le_upper_bound; lia. }
  assert (0 <= index < window_size) as Hi by (subst index; apply Z.mod_pos_bound; lia).
  unfold Player.bandwidth_usage, c_div, c_rem.
  destruct (basic_time_step =? 0) eqn:H0; [apply Z.eqb_eq in H0; lia|]. cbn.
  rewrite (wrap_u32_small basic_time_step) by lia. rewrite H0. cbn.
  rewrite Z.quot_div_nonneg by lia. fold window_size.
  rewrite (wrap_u32_small window_size) by lia.
  destruct (window_size =? 0) eqn:H1; [apply Z.eqb_eq in H1; lia|]. cbn.
  rewrite Z.quot_div_nonneg by lia.
  rewrite Z.rem_mod_nonneg by (try apply Z.div_pos; lia). fold index.
  rewrite (wrap_i32_small index) by lia.
  destruct (data_transferred st) as [d|]; cbn.
  - rewrite Hwr. eexists. reflexivity.
  - destruct (window_size <? 0) eqn:H2; [apply Z.ltb_lt in H2; lia|]. cbn.
    rewrite Hwr. eexists. reflexivity.
Qed.

(** What [sendSensorMessage] hands to [send_all], given the usage
    [bandwidth_usage] found; the usage is computed once, from the size
    of the snapshot as it was built. *)
Lemma sendSensorMessage_result env st usage st1 :
  bandwidth_usage env (wrap_u32 (ByteSizeLong (sensor_measurements st))) st = Ok (usage, st1) ->
  let payload := if TEAM_QUOTA <? usage then quota_error else sensor_measurements st in
  let size := wrap_u32 (ByteSizeLong payload) in
  exists complete written,
    send_all (e_send env) (4 + size) = Ok (complete, written) /\
    sendSensorMessage env st
    = Ok (set_sensor_measurements Clear
            (set_outbox (outbox st ++ [Frame (client_fd st) size payload written complete])
               st1)).
Proof.
  intros Hu payload size.
  destruct (send_all_result (e_send env) (4 + size)) as (complete & written & Hs & _).
  { pose proof (wrap_u32_range (ByteSizeLong payload)). subst size. lia. }
  exists complete, written. split; [done|].
  unfold Player.sendSensorMessage. rewrite Hu. cbn.
  apply bandwidth_usage_effect in Hu as [data ->].
  subst size payload. destruct (TEAM_QUOTA <? usage); cbn in *; by rewrite Hs.
Qed.

(** Sending leaves the subscription state, the descriptor and the
    receive state alone and clears the snapshot. *)
Lemma sendSensorMessage_effect env st st' :
  sendSensorMessage env st = Ok st' ->
  subscription st' = subscription st /\ client_fd st' = client_fd st /\
  controller_time st' = controller_time st /\ receiving st' = receiving st /\
  sensor_measurements st' = Clear.
Proof.
  intros H.
  destruct (bandwidth_usage env (wrap_u32 (ByteSizeLong (sensor_measurements st))) st)
    as [[usage st1]|] eqn:Hu.
  - destruct (sendSensorMessage_result env st usage st1 Hu) as (c & w & _ & Heq).
    rewrite Heq in H. injection H as <-.
    apply bandwidth_usage_effect in Hu as [data ->]. done.
  - unfold Player.sendSensorMessage in H. by rewrite Hu in H.
Qed.

End Sending.

(** ** The two reporting sets are disjoint *)

Lemma dispatch_keeps_disjoint robot req st st' :
  dispatch robot req st = Ok st' ->
  sensors st ## new_sensors st -> sensors st' ## new_sensors st'.
Proof.
  intros H Hdis. apply dispatch_effect in H as (Hs & _ & _).
  change (active (subscription st') ## pending (subscription st')).
  rewrite Hs. by apply effects_disjoint.
Qed.

Lemma updateDevices_disjoint st :
  sensors (updateDevices st) ## new_sensors (updateDevices st).
Proof. cbn. set_solver. Qed.

(** ** Devices that stay enabled *)

Section StayingEnabled.

Variable robot : Robot.

Local Abbreviation time_step_effect := (time_step_effect robot).
Local Abbreviation configures := (configures robot).
Local Abbreviation names := (names robot).
Local Abbreviation basic_time_step := (basic_time_step robot).

Lemma configures_period ts d :
  configures ts d = true -> ts <> 0 ->
  basic_time_step <= ts /\ is_sensor (getNodeType robot d) = true.
Proof.
  unfold Player.configures. intros H Hts.
  apply andb_true_iff in H as [H Hk]. apply andb_true_iff in H as [H _].
  apply Z.eqb_neq in Hts. rewrite Hts in H. cbn in H.
  apply negb_true_iff, Z.ltb_ge in H. done.
Qed.

(** A device that is active or pending with a positive period stays so
    under a command that does not disable it; while active it stays active. *)
Lemma effect_keeps_enabled u c d :
  0 < basic_time_step ->
  (names d c -> timestep c <> 0) ->
  (d ∈ active u \/ d ∈ pending u) -> 0 < default 0 (configured u !! d) ->
  (d ∈ active u -> d ∈ active (time_step_effect u c)) /\
  (d ∈ active (time_step_effect u c) \/ d ∈ pending (time_step_effect u c)) /\
  0 < default 0 (configured (time_step_effect u c) !! d).
Proof.
  intros Hb Hc Hin Hper.
  destruct (decide (getDevice robot (sts_name c) = Some d)) as [Hd|Hd].
  - specialize (Hc Hd). unfold Player.time_step_effect. rewrite Hd.
    destruct (timestep c =? 0) eqn:H0; [by apply Z.eqb_eq in H0|]. cbn [negb].
    destruct (configures (timestep c) d) eqn:Hconf.
    + apply configures_period in Hconf as [Hge _]; [|done].
      destruct (decide (d ∈ active u)); cbn; rewrite lookup_insert_eq; cbn;
        split_and!; auto; try lia; set_solver.
    + destruct (decide (d ∈ active u)); cbn; split_and!; auto; set_solver.
  - destruct (effect_other robot u c d Hd) as (H1 & H2 & H3).
    rewrite H1, H2, H3. tauto.
Qed.

Lemma effects_keep_enabled cmds d : forall u,
  0 < basic_time_step ->
  (forall c, c ∈ cmds -> names d c -> timestep c <> 0) ->
  (d ∈ active u \/ d ∈ pending u) -> 0 < default 0 (configured u !! d) ->
  (d ∈ active u -> d ∈ active (foldl time_step_effect u cmds)) /\
  (d ∈ active (foldl time_step_effect u cmds) \/ d ∈ pending (foldl time_step_effect u cmds)) /\
  0 < default 0 (configured (foldl time_step_effect u cmds) !! d).
Proof.
  induction cmds as [|c cmds IH]; intros u Hb Hcmds Hin Hper; simpl; [tauto|].
  destruct (effect_keeps_enabled u c d Hb) as (H1 & H2 & H3); [|done..|].
  { apply Hcmds. by left. }
  destruct (IH (time_step_effect u c) Hb) as (H4 & H5 & H6); [|done..|].
  { intros c' Hc'. apply Hcmds. by right. }
  auto.
Qed.

(** An inactive device named by a command that reaches [enable], and by
    no period-0 command after it, ends up enabled with a positive period,
    and still not active. *)
Lemma effects_enable_kept l1 c l2 d u :
  0 < basic_time_step ->
  names d c -> timestep c <> 0 -> configures (timestep c) d = true ->
  d ∉ active u ->
  (forall c', c' ∈ l2 -> names d c' -> timestep c' <> 0) ->
  let u' := foldl time_step_effect u (l1 ++ c :: l2) in
  d ∉ active u' /\ d ∈ pending u' /\ 0 < default 0 (configured u' !! d).
Proof.
  intros Hb Hd Hts Hconf Hact Hl2. cbn zeta.
  assert (d ∉ active (foldl time_step_effect u (l1 ++ c :: l2))) as Hnot.
  { intros Hin. by apply effects_active_subset in Hin. }
  split; [done|]. revert Hnot. rewrite foldl_app. simpl. intros Hnot.
  destruct (effect_enable robot (foldl time_step_effect u l1) c d) as (H1 & H2 & H3);
    [done..| |].
  { intros Hin. by apply effects_active_subset in Hin. }
  destruct (configures_period _ _ Hconf Hts) as [Hge _].
  destruct (effects_keep_enabled l2 d
              (time_step_effect (foldl time_step_effect u l1) c) Hb Hl2)
    as (_ & H5 & H6); [by right|rewrite H3; cbn; lia|].
  split; [|done]. by destruct H5.
Qed.

End StayingEnabled.

(** ** One step *)

Section Steps.

Variables EAGAIN EWOULDBLOCK : Z.
Variable ParseFromArray : list byte -> ActuatorRequests.
Variable ByteSizeLong : SensorMeasurements -> Z.
Variable allowed_hosts : list string.
Variable player_id : Z.
Variable robot : Robot.

Local Abbreviation receiveMessages := (receiveMessages EAGAIN EWOULDBLOCK ParseFromArray robot).
Local Abbreviation step_receive := (step_receive EAGAIN EWOULDBLOCK ParseFromArray robot).
Local Abbreviation step_snapshot := (step_snapshot EAGAIN EWOULDBLOCK ParseFromArray robot).
Local Abbreviation sendSensorMessage := (sendSensorMessage ByteSizeLong player_id robot).
Local Abbreviation step :=
  (step EAGAIN EWOULDBLOCK ParseFromArray ByteSizeLong allowed_hosts player_id robot).
Local Abbreviation run :=
  (run EAGAIN EWOULDBLOCK ParseFromArray ByteSizeLong allowed_hosts player_id robot).
Local Abbreviation time_step_effect := (time_step_effect robot).
Local Abbreviation commands_of := (commands_of ParseFromArray).
Local Abbreviation commands_between := (commands_between ParseFromArray).
Local Abbreviation sampled := (sampled robot).
Local Abbreviation names := (names robot).
Local Abbreviation configures := (configures robot).
Local Abbreviation basic_time_step := (basic_time_step robot).

Lemma commands_between_app st st' payloads :
  dispatched st' = dispatched st ++ payloads -> commands_between st st' = commands_of payloads.
Proof. intros H. unfold Player.commands_between. by rewrite H, drop_app_length. Qed.

Lemma sampled_depends st st' d :
  periods st' = periods st -> controller_time st' = controller_time st ->
  sampled st' d = sampled st d.
Proof.
  intros Hp Ht. unfold Player.sampled, due, getSamplingPeriod. by rewrite Hp, Ht.
Qed.

(** The first part of a step: the clock advances and the payloads that
    arrived are dispatched. *)
Lemma step_receive_effect env st st1 :
  step_receive env st = Ok st1 ->
  exists payloads,
    dispatched st1 = dispatched st ++ payloads /\
    subscription st1 = foldl time_step_effect (subscription st) (commands_of payloads) /\
    controller_time st1 = wrap_u32 (controller_time st + basic_time_step) /\
    measurements (sensor_measurements st1) = measurements (sensor_measurements st).
Proof.
  unfold Player.step_receive. destruct (e_select env =? -1).
  - intros [= <-]. exists []. by rewrite app_nil_r.
  - intros H. apply receiveMessages_effect in H as (ps & Hd & Hs & Ht).
    exists ps. unfold steady in Ht. injection Ht as Hct _ _ _ Hm _ _. done.
Qed.

(** The state in which the snapshot has been built. *)
Lemma step_snapshot_effect env st sb :
  step_snapshot env st = Ok sb ->
  exists payloads,
    dispatched sb = dispatched st ++ payloads /\
    subscription sb = foldl time_step_effect (subscription st) (commands_of payloads) /\
    controller_time sb = wrap_u32 (controller_time st + basic_time_step) /\
    forall d, reports (sensor_measurements sb) d <->
              reports (sensor_measurements st) d \/ (d ∈ sensors sb /\ sampled sb d = true).
Proof.
  unfold Player.step_snapshot.
  destruct (step_receive env st) as [st1|] eqn:Hr; [cbn|done]. intros Hp.
  apply step_receive_effect in Hr as (ps & Hd & Hs & Ht & Hm).
  apply prepareSensorMessage_effect in Hp as (Hs' & _ & Ht' & Hd' & Hrep).
  exists ps. rewrite Hd', Hs', Ht'. split_and!; try done.
  intros d. rewrite Hrep. unfold reports. rewrite Hm.
  assert (sensors sb = sensors st1) as -> by (by injection Hs').
  rewrite (sampled_depends st1 sb); [done|by injection Hs'|done].
Qed.

(** A step with a client builds the snapshot, promotes and sends. *)
Lemma step_connected env st st' :
  client_fd st <> -1 -> step env st = Ok st' ->
  exists sb,
    step_snapshot env st = Ok sb /\
    sensors st' = sensors sb ∪ new_sensors sb /\ new_sensors st' = ∅ /\
    periods st' = periods sb /\ dispatched st' = dispatched sb /\
    client_fd st' = client_fd sb /\ controller_time st' = controller_time sb /\
    sensor_measurements st' = Clear.
Proof.
  intros Hfd. unfold Player.step.
  destruct (client_fd st =? -1) eqn:H; [by apply Z.eqb_eq in H|].
  destruct (step_snapshot env st) as [sb|]; [cbn|done]. intros Hs.
  exists sb. split; [done|].
  apply sendSensorMessage_effect in Hs as (Hsub & -> & -> & Hrecv & ->).
  injection Hsub as -> -> ->. by injection Hrecv as _ _ _ ->.
Qed.

(** A step without a client tries to accept one; the subscription state
    and the receive state are as they were. *)
Lemma step_accepting env st st' :
  client_fd st = -1 -> step env st = Ok st' ->
  subscription st' = subscription st /\ receiving st' = receiving st /\
  sensor_measurements st' = sensor_measurements st.
Proof.
  intros Hfd. unfold Player.step, accept_client. rewrite Hfd. cbn.
  destruct (e_accept env) as [[cfd h_name]|]; cbn; [|by intros [= <-]].
  destruct (cfd =? -1) eqn:Hc; cbn; [by intros [= <-]|].
  destruct (send_all (e_send env) 8) as [[complete written]|]; [cbn|done].
  destruct (bool_decide _); cbn; rewrite ?Hc; cbn; by intros [= <-].
Qed.

(** Over a step, a device that no command disables stays active with a
    positive period. *)
Lemma step_keeps_enabled env st st' d :
  0 < basic_time_step -> step env st = Ok st' ->
  (forall c, c ∈ commands_between st st' -> names d c -> timestep c <> 0) ->
  d ∈ sensors st -> 0 < getSamplingPeriod st d ->
  (exists payloads, dispatched st' = dispatched st ++ payloads) /\
  d ∈ sensors st' /\ 0 < getSamplingPeriod st' d.
Proof.
  intros Hb Hstep Hcmds Hin Hper.
  destruct (decide (client_fd st = -1)) as [Hfd|Hfd].
  - apply step_accepting in Hstep as (Hs & Hr & _); [|done].
    unfold getSamplingPeriod. injection Hs as -> _ ->. injection Hr as _ _ _ ->.
    split; [exists []; by rewrite app_nil_r|done].
  - apply step_connected in Hstep as (sb & Hsb & Hs' & _ & Hp' & Hd' & _); [|done].
    apply step_snapshot_effect in Hsb as (ps & Hd & Hs & _).
    rewrite Hd in Hd'. rewrite (commands_between_app _ _ ps Hd') in Hcmds.
    destruct (effects_keep_enabled robot (commands_of ps) d (subscription st) Hb Hcmds)
      as (H1 & _ & H3); [by left|done|].
    rewrite <- Hs in H1, H3.
    split; [by exists ps|]. unfold getSamplingPeriod. rewrite Hs', Hp'.
    split; [|done]. apply elem_of_union_l. by apply H1.
Qed.

Lemma step_dispatched env st st' :
  step env st = Ok st' -> exists payloads, dispatched st' = dispatched st ++ payloads.
Proof.
  intros Hstep. destruct (decide (client_fd st = -1)) as [Hfd|Hfd].
  - apply step_accepting in Hstep as (_ & Hr & _); [|done].
    injection Hr as _ _ _ ->. exists []. by rewrite app_nil_r.
  - apply step_connected in Hstep as (sb & Hsb & _ & _ & _ & -> & _); [|done].
    apply step_snapshot_effect in Hsb as (ps & -> & _). eauto.
Qed.

Lemma run_dispatched envs : forall st st',
  run envs st = Ok st' -> exists payloads, dispatched st' = dispatched st ++ payloads.
Proof.
  induction envs as [|env envs IH]; intros st st'; simpl.
  - intros [= <-]. exists []. by rewrite app_nil_r.
  - destruct (step env st) as [st1|] eqn:Hstep; [cbn|done]. intros Hrun.
    apply step_dispatched in Hstep as [ps1 Hd1]. apply IH in Hrun as [ps2 ->].
    exists (ps1 ++ ps2). by rewrite Hd1, <- app_assoc.
Qed.

Lemma run_keeps_enabled envs d : forall st st',
  0 < basic_time_step -> run envs st = Ok st' ->
  (forall c, c ∈ commands_between st st' -> names d c -> timestep c <> 0) ->
  d ∈ sensors st -> 0 < getSamplingPeriod st d ->
  d ∈ sensors st' /\ 0 < getSamplingPeriod st' d.
Proof.
  induction envs as [|env envs IH]; intros st st' Hb; simpl.
  - by intros [= <-] _ Hin Hper.
  - destruct (step env st) as [st1|] eqn:Hstep; [cbn|done]. intros Hrun Hcmds Hin Hper.
    destruct (step_dispatched _ _ _ Hstep) as [ps1 Hd1].
    destruct (run_dispatched _ _ _ Hrun) as [ps2 Hd2].
    rewrite (commands_between_app st st' (ps1 ++ ps2)) in Hcmds
      by (by rewrite Hd2, Hd1, <- app_assoc).
    rewrite commands_of_app in Hcmds.
    destruct (step_keeps_enabled env st st1 d Hb Hstep) as (_ & Hin1 & Hper1); [|done..|].
    { intros c Hc. apply Hcmds. rewrite (commands_between_app _ _ ps1 Hd1) in Hc.
      by apply elem_of_app; left. }
    apply (IH st1 st' Hb Hrun); [|done..].
    intros c Hc. apply Hcmds. rewrite (commands_between_app _ _ ps2 Hd2) in Hc.
    by apply elem_of_app; right.
Qed.

(** The snapshot a step with a client sends on is empty again at its end. *)
Lemma step_clears_snapshot env st st' d :
  client_fd st <> -1 -> step env st = Ok st' -> ~ reports (sensor_measurements st') d.
Proof.
  intros Hfd Hstep. apply step_connected in Hstep as (sb & _ & _ & _ & _ & _ & _ & _ & ->);
    [|done].
  unfold reports. cbn. set_solver.
Qed.

(** X21: subscription-promotion ordering, for the snapshots that are
    built.  [st] is the state at the start of step N (a client is
    connected, the snapshot holds no record of [d]) and [sb] the state in
    which the snapshot of step N has been built.  (1) A device that was
    inactive at the start of step N has no record in that snapshot,
    whatever was dispatched in the step, an accepted enable command
    included.  (2) A device named by a period-0 command dispatched in
    step N has no record in that snapshot.  (3) If a command of step N
    that reaches [enable] names an inactive device, and no later command
    of step N or of the following steps disables it, then in every later
    step that gets as far as building its snapshot the device is active
    then, its period is positive, and the snapshot holds a record of it
    whenever the simulated time is a multiple of the period. *)
Theorem subscription_promotion_ordering env st sb d :
  client_fd st <> -1 ->
  ~ reports (sensor_measurements st) d ->
  step_snapshot env st = Ok sb ->
  (d ∉ sensors st -> ~ reports (sensor_measurements sb) d) /\
  ((exists c, c ∈ commands_between st sb /\ names d c /\ timestep c = 0) ->
   ~ reports (sensor_measurements sb) d) /\
  (forall l1 c l2 st1 envs st2 env' sb',
     0 < basic_time_step ->
     commands_between st sb = l1 ++ c :: l2 ->
     names d c -> timestep c <> 0 -> configures (timestep c) d = true ->
     d ∉ sensors st ->
     step env st = Ok st1 ->
     run envs st1 = Ok st2 ->
     client_fd st2 <> -1 ->
     step_snapshot env' st2 = Ok sb' ->
     (forall c', c' ∈ l2 ++ commands_between st1 sb' -> names d c' -> timestep c' <> 0) ->
     d ∈ sensors sb' /\ 0 < getSamplingPeriod sb' d /\
     (getSamplingPeriod sb' d < 2 ^ 32 ->
      controller_time sb' mod getSamplingPeriod sb' d = 0 ->
      reports (sensor_measurements sb') d)).
Proof.
  intros Hfd Hclear Hsb.
  destruct (step_snapshot_effect env st sb Hsb) as (ps & Hd & Hs & Ht & Hrep).
  assert (sensors sb ⊆ sensors st) as Hsub.
  { change (active (subscription sb) ⊆ active (subscription st)).
    rewrite Hs. apply effects_active_subset. }
  split_and!.
  - intros Hin Hr. apply Hrep in Hr as [Hr|[Hr _]]; [done|]. by apply Hsub in Hr.
  - intros (c & Hc & Hn & Hz) Hr. apply Hrep in Hr as [Hr|[Hr _]]; [done|].
    rewrite (commands_between_app _ _ ps Hd) in Hc.
    change (d ∈ active (subscription sb)) in Hr. rewrite Hs in Hr.
    by eapply effects_disable.
  - intros l1 c l2 st1 envs st2 env' sb' Hb Hcmds Hn Hts Hconf Hin Hstep Hrun Hfd2 Hsb' Hlater.
    rewrite (commands_between_app _ _ ps Hd) in Hcmds.
    (* step N: [d] is pending when the snapshot is built, active at the end *)
    destruct (effects_enable_kept robot l1 c l2 d (subscription st) Hb Hn Hts Hconf Hin)
      as (_ & Hpend & Hper).
    { intros c' Hc'. apply Hlater. by apply elem_of_app; left. }
    rewrite <- Hcmds, <- Hs in Hpend, Hper.
    apply step_connected in Hstep as (sb0 & Hsb0 & Hs1 & _ & Hp1 & Hd1 & _); [|done].
    rewrite Hsb in Hsb0. injection Hsb0 as <-.
    assert (d ∈ sensors st1) as Hin1 by (rewrite Hs1; by apply elem_of_union_r).
    assert (0 < getSamplingPeriod st1 d) as Hper1 by (unfold getSamplingPeriod; by rewrite Hp1).
    (* the steps in between and the step of the later snapshot *)
    destruct (run_dispatched _ _ _ Hrun) as [psr Hdr].
    destruct (step_snapshot_effect env' st2 sb' Hsb') as (ps' & Hd' & Hs' & Ht' & Hrep').
    assert (commands_between st1 sb' = commands_of psr ++ commands_of ps') as Hbetween.
    { rewrite <- commands_of_app. apply commands_between_app.
      by rewrite Hd', Hdr, <- app_assoc. }
    rewrite Hbetween in Hlater.
    destruct (run_keeps_enabled envs d st1 st2 Hb Hrun) as (Hin2 & Hper2); [|done..|].
    { intros c' Hc'. apply Hlater. rewrite (commands_between_app _ _ psr Hdr) in Hc'.
      apply elem_of_app; right. by apply elem_of_app; left. }
    destruct (effects_keep_enabled robot (commands_of ps') d (subscription st2) Hb)
      as (Hact & _ & Hper'); [|by left|done|].
    { intros c' Hc'. apply Hlater. apply elem_of_app; right. by apply elem_of_app; right. }
    rewrite <- Hs' in Hact, Hper'. specialize (Hact Hin2).
    split_and!; [done..|]. intros Hlt Hmod. apply Hrep'. right. split; [done|].
    unfold Player.sampled.
    destruct (configures_period robot _ _ Hconf Hts) as [_ ->].
    rewrite due_period; [|rewrite Ht'; apply wrap_u32_range|done].
    cbn [andb]. by apply Z.eqb_eq.
Qed.

End Steps.

(** ** Sampling *)

Section Sampling.

Variable robot : Robot.


End Sampling.

(** ** The quota *)

Section Quota.

Variable ByteSizeLong : SensorMeasurements -> Z.
Variable player_id : Z.
Variable robot : Robot.

Local Abbreviation basic_time_step := (basic_time_step robot).
Local Abbreviation bandwidth_usage := (bandwidth_usage player_id robot).
Local Abbreviation sendSensorMessage := (sendSensorMessage ByteSizeLong player_id robot).

(** C6, as amended: when the usage [bandwidth_usage] returns for the size
    of the snapshot exceeds [TEAM_QUOTA], what is handed to [send_all] is
    a frame whose payload is the single error record with the quota's
    value in its text, of that record's own size; the usage is not
    computed again: the window and the file are as the one call of
    [bandwidth_usage] left them. *)
Theorem quota_exceeded_replacement env st usage st1 :
  bandwidth_usage env (wrap_u32 (ByteSizeLong (sensor_measurements st))) st = Ok (usage, st1) ->
  TEAM_QUOTA < usage ->
  exists st' written complete,
    sendSensorMessage env st = Ok st' /\
    outbox st' = outbox st ++
      [Frame (client_fd st) (wrap_u32 (ByteSizeLong quota_error)) quota_error written complete] /\
    messages quota_error
      = [{| message_type := ERROR_MESSAGE; text := "1048576000 MB/s quota exceeded." |}] /\
    measurements quota_error = [] /\
    data_transferred st' = data_transferred st1 /\ quota_file st' = quota_file st1.
Proof.
  intros Hu Hq.
  destruct (sendSensorMessage_result ByteSizeLong player_id robot env st usage st1 Hu)
    as (complete & written & _ & Hs).
  apply Z.ltb_lt in Hq. rewrite Hq in Hs.
  eexists _, written, complete. split; [exact Hs|].
  apply bandwidth_usage_effect in Hu as [data ->].
  split_and!; done.
Qed.



End Quota.

(** ** Read errors *)

Section ReadErrors.

Variables EAGAIN EWOULDBLOCK : Z.
Variable ParseFromArray : list byte -> ActuatorRequests.
Variable ByteSizeLong : SensorMeasurements -> Z.
Variable allowed_hosts : list string.
Variable player_id : Z.
Variable robot : Robot.

Local Abbreviation receiveData := (receiveData EAGAIN EWOULDBLOCK).
Local Abbreviation receiveMessages_loop :=
  (receiveMessages_loop EAGAIN EWOULDBLOCK ParseFromArray robot).
Local Abbreviation receiveMessages := (receiveMessages EAGAIN EWOULDBLOCK ParseFromArray robot).
Local Abbreviation processBuffer := (processBuffer ParseFromArray robot).
Local Abbreviation closes := (closes EAGAIN EWOULDBLOCK).
Local Abbreviation step :=
  (step EAGAIN EWOULDBLOCK ParseFromArray ByteSizeLong allowed_hosts player_id robot).

Lemma receiveMessages_loop_closed dry fuel st :
  client_fd st = -1 -> receiveMessages_loop fuel dry st = Ok st.
Proof. intros H. destruct fuel; cbn [Player.receiveMessages_loop]; by rewrite H. Qed.

Lemma wrap_i32_nonneg_bound z : 0 <= wrap_i32 z -> wrap_i32 z < 2 ^ 31.
Proof.
  unfold wrap_i32. intros _.
  pose proof (Z.mod_pos_bound (z + 2 ^ 31) (2 ^ 32)). lia.
Qed.

(** After a poll from a well-framed state with a client, the session is
    closed exactly when what ended the reading closes it; the receive
    state is well framed again. *)
Lemma receiveMessages_loop_session dry fuel : forall st st',
  well_framed st -> client_fd st <> -1 ->
  receiveMessages_loop fuel dry st = Ok st' ->
  client_fd st' = (if closes dry then -1 else client_fd st) /\ well_framed st'.
Proof.
  induction fuel as [|fuel IH]; intros st st' Hwf Hfd;
    cbn [Player.receiveMessages_loop];
    (destruct (client_fd st =? -1) eqn:Hc; [by apply Z.eqb_eq in Hc|]); [done|].
  destruct (content_size st =? 0) eqn:Hcs.
  - (* the header *)
    apply Z.eqb_eq in Hcs.
    assert (recv_index st = 0) as Hri by (destruct Hwf as [[_ ?]|[? _]]; [done|lia]).
    assert (forall size st1, 0 <= size -> size < 2 ^ 31 ->
              well_framed (set_recv_buffer (replicate (Z.to_nat size) Byte.x00)
                             (set_content_size size st1)) \/ recv_index st1 <> 0) as Hwf2.
    { intros size st1 H0 H1. destruct (decide (recv_index st1 = 0)) as [Hz|]; [left|by right].
      unfold well_framed. cbn. destruct (decide (size = 0)); [by left|right; lia]. }
    destruct (Z.le_gt_cases 4 (Z.of_nat (length (sock st)))) as [Hk|Hk].
    + rewrite receiveData_enough by lia. cbn.
      destruct (_ <? 0) eqn:Hneg; [done|]. apply Z.ltb_ge in Hneg.
      intros H. apply IH in H; [done| |done].
      destruct (Hwf2 _ (set_sock (drop (Z.to_nat 4) (sock st)) st) Hneg
                  (wrap_i32_nonneg_bound _ Hneg)); done.
    + rewrite receiveData_short by lia. cbn.
      destruct (_ <? 0) eqn:Hneg; [done|]. apply Z.ltb_ge in Hneg.
      pose proof (wrap_i32_nonneg_bound _ Hneg) as Hlt.
      destruct (Z.of_nat (length (sock st)) =? 0) eqn:Hn.
      * intros [= <-]. destruct (closes dry); cbn; (split; [done|]);
          match goal with |- well_framed (set_recv_buffer _ (set_content_size _ ?s)) =>
            destruct (Hwf2 _ s Hneg Hlt) end; done.
      * destruct (closes dry).
        -- rewrite receiveMessages_loop_closed by done. intros [= <-].
           split; [done|].
           match goal with |- well_framed (set_recv_buffer _ (set_content_size _ ?s)) =>
             destruct (Hwf2 _ s Hneg Hlt) end; done.
        -- intros H. apply IH in H; [done| |done].
           match goal with |- well_framed (set_recv_buffer _ (set_content_size _ ?s)) =>
             destruct (Hwf2 _ s Hneg Hlt) end; done.
  - (* the payload *)
    apply Z.eqb_neq in Hcs.
    destruct Hwf as [[? _]|[Hri Hlt]]; [done|].
    destruct (Z.le_gt_cases (content_size st - recv_index st) (Z.of_nat (length (sock st))))
      as [Hk|Hk].
    + rewrite receiveData_enough by lia. cbn.
      replace (recv_index st + (content_size st - recv_index st)) with (content_size st) by lia.
      rewrite wrap_i32_small, Z.eqb_refl by lia.
      match goal with |- context [processBuffer ?s] => set (st3 := s) end.
      destruct (processBuffer st3) as [st4|] eqn:Hp; [cbn|done].
      apply processBuffer_effect in Hp as (_ & Hu & Hr).
      apply untouched_parts in Hu as (Hfd4 & _ & _). injection Hr as _ Hri4 Hcs4 _.
      destruct (_ =? 0) eqn:Hn; [apply Z.eqb_eq in Hn; lia|].
      intros H. apply IH in H as [-> Hwf']; [by rewrite Hfd4|by left|by rewrite Hfd4].
    + rewrite receiveData_short by lia. cbn.
      rewrite wrap_i32_small by lia.
      destruct (_ =? content_size _) eqn:He.
      { apply Z.eqb_eq in He. destruct (closes dry); cbn in He; lia. }
      cbn.
      assert (forall s, recv_index s = recv_index st -> content_size s = content_size st ->
                well_framed (set_recv_index (recv_index st + Z.of_nat (length (sock st)))
                               (set_recv_buffer
                                  (take (Z.to_nat (recv_index st)) (recv_buffer st) ++
                                   overwrite (sock st)
                                     (drop (Z.to_nat (recv_index st)) (recv_buffer st))) s)))
        as Hwf3.
      { intros s H1 H2. right. cbn. lia. }
      destruct (Z.of_nat (length (sock st)) =? 0) eqn:Hn.
      * intros [= <-]. destruct (closes dry); (split; [done|]); by apply Hwf3.
      * destruct (closes dry).
        -- rewrite receiveMessages_loop_closed by done. intros [= <-].
           split; [done|]. by apply Hwf3.
        -- intros H. apply IH in H; [done|by apply Hwf3|done].
Qed.

(** A poll that finds less than the rest of the pending message keeps
    what it read: the declared length stays, the count grows by what
    was readable, the bytes are stored behind those that were there,
    nothing is dispatched; only the descriptor depends on how the
    reading ended. *)
Lemma receiveMessages_loop_partial dry fuel st :
  (length (sock st) < fuel)%nat ->
  client_fd st <> -1 -> 0 <= recv_index st -> content_size st < 2 ^ 31 ->
  recv_index st + Z.of_nat (length (sock st)) < content_size st ->
  exists st',
    receiveMessages_loop fuel dry st = Ok st' /\
    content_size st' = content_size st /\
    recv_index st' = recv_index st + Z.of_nat (length (sock st)) /\
    dispatched st' = dispatched st /\
    sock st' = [] /\
    client_fd st' = (if closes dry then -1 else client_fd st) /\
    recv_buffer st' = take (Z.to_nat (recv_index st)) (recv_buffer st) ++
                      overwrite (sock st) (drop (Z.to_nat (recv_index st)) (recv_buffer st)) /\
    controller_time st' = controller_time st.
Proof.
  intros Hfuel Hfd Hri Hcs Hlt.
  set (k := Z.of_nat (length (sock st))) in *.
  assert (0 <= k) as Hk by (subst k; lia).
  assert ((client_fd st =? -1) = false) as Hc by (by apply Z.eqb_neq).
  assert ((content_size st =? 0) = false) as H0 by (apply Z.eqb_neq; lia).
  assert ((recv_index st + k =? content_size st) = false) as Hne by (apply Z.eqb_neq; lia).
  destruct fuel as [|fuel]; [lia|].
  cbn [Player.receiveMessages_loop]. rewrite Hc, H0.
  rewrite receiveData_short by (fold k; lia). fold k. cbn.
  rewrite wrap_i32_small by lia.
  destruct (closes dry) eqn:Hcl; cbn; rewrite Hne; cbn.
  - (* the session is closed; the loop ends at once or at its next test *)
    destruct (k =? 0).
    + eexists. split; [done|]. split_and!; done.
    + rewrite receiveMessages_loop_closed by done. eexists. split; [done|]. split_and!; done.
  - destruct (k =? 0) eqn:Hk0.
    + eexists. split; [done|]. split_and!; done.
    + (* the next iteration finds the socket dry *)
      apply Z.eqb_neq in Hk0.
      destruct fuel as [|fuel]; [lia|].
      cbn [Player.receiveMessages_loop].
      cbn [client_fd content_size recv_index recv_buffer sock
           set_recv_index set_recv_buffer set_sock].
      rewrite Hc, H0.
      rewrite receiveData_short by (cbn; lia). cbn.
      rewrite Hcl, Z.add_0_r, wrap_i32_small by lia. cbn. rewrite Hne. cbn.
      eexists. split; [done|]. split_and!; try done.
      cbn. by rewrite drop_0, take_drop.
Qed.

Lemma receiveMessages_partial dry st :
  client_fd st <> -1 -> 0 <= recv_index st -> content_size st < 2 ^ 31 ->
  recv_index st + Z.of_nat (length (sock st)) < content_size st ->
  exists st',
    receiveMessages dry st = Ok st' /\
    content_size st' = content_size st /\
    recv_index st' = recv_index st + Z.of_nat (length (sock st)) /\
    dispatched st' = dispatched st.
Proof.
  intros Hfd Hri Hcs Hlt.
  destruct (receiveMessages_loop_partial dry (S (length (sock st))) st)
    as (st' & H1 & H2 & H3 & H4 & _); [lia|done..|].
  by exists st'.
Qed.

(** C8, as amended: where [EAGAIN] and [EWOULDBLOCK] are one value, (1) a
    poll whose reading ends on that [errno] leaves the session open, and
    one that ends on any other [recv] error or on a zero-length read
    closes it ([client_fd] becomes -1); (2) closing clears nothing: a
    poll that finds only a part of the rest of the pending message keeps
    the declared length and counts the bytes read, however the reading
    ended; (3) accepting the next client does not reset the declared
    length, the count or the buffer either. *)
Theorem read_error_policy :
  EAGAIN = EWOULDBLOCK ->
  (forall dry st st',
     well_framed st -> client_fd st <> -1 -> receiveMessages dry st = Ok st' ->
     client_fd st' = match dry with
                     | RecvFails errno => if errno =? EAGAIN then client_fd st else -1
                     | PeerClosed => -1
                     end) /\
  (forall dry st,
     client_fd st <> -1 -> 0 <= recv_index st -> content_size st < 2 ^ 31 ->
     recv_index st + Z.of_nat (length (sock st)) < content_size st ->
     exists st',
       receiveMessages dry st = Ok st' /\
       content_size st' = content_size st /\
       recv_index st' = recv_index st + Z.of_nat (length (sock st)) /\
       dispatched st' = dispatched st) /\
  (forall env st st',
     client_fd st = -1 -> step env st = Ok st' ->
     content_size st' = content_size st /\ recv_index st' = recv_index st /\
     recv_buffer st' = recv_buffer st).
Proof.
  intros Hsame. split_and!.
  - intros dry st st' Hwf Hfd H.
    apply receiveMessages_loop_session in H as [-> _]; [|done..].
    destruct dry as [errno|]; [|done]. cbn.
    rewrite unexpected_failure_same by done. by destruct (errno =? EAGAIN).
  - apply receiveMessages_partial.
  - intros env st st' Hfd H.
    apply (step_accepting EAGAIN EWOULDBLOCK ParseFromArray ByteSizeLong allowed_hosts
             player_id robot) in H as (_ & Hr & _); [|done].
    by injection Hr as -> -> -> _.
Qed.

End ReadErrors.

(** ** The controller on concrete inputs *)

Import Byte.

Lemma connected_reached : Demo.run [Demo.connecting] init = Ok Demo.connected.
Proof. by vm_compute. Qed.

(** C1: a message whose header arrives in two polls is lost.  The five
    bytes of the message with payload [x41], delivered whole, give that
    payload to the dispatcher; delivered as one byte, then four, they
    give it nothing: the first byte is dropped, and the next four are
    read as a header announcing 321 bytes. *)
Theorem header_split_breaks_reassembly :
  concat [[x00]; [x00; x00; x01; x41]] = frame [x41] /\
  (exists st, Demo.deliver [frame [x41]] Demo.connected = Ok st /\
              dispatched st = [[x41]]) /\
  (exists st, Demo.deliver [[x00]; [x00; x00; x01; x41]] Demo.connected = Ok st /\
              dispatched st = [] /\ content_size st = 321 /\ recv_index st = 0).
Proof.
  split_and!.
  - reflexivity.
  - eexists. split; [vm_compute; reflexivity|reflexivity].
  - eexists. split; [vm_compute; reflexivity|]. split_and!; reflexivity.
Qed.

(** C3: the remainder by a zero period is reached.  A time step command
    with a period below the step duration, or an enable followed by a
    disable in one batch, leaves the device in the active set with period
    0; the snapshot of the next step divides by it. *)
Theorem rejected_period_reaches_modulo_by_zero :
  Demo.run [Demo.connecting;
            arriving (frame [x01; x0a]) (RecvFails Demo.EAGAIN);
            Demo.quiet] init = Fault DivisionByZero /\
  Demo.run [Demo.connecting;
            arriving (frame [x01; x20; x01; x00]) (RecvFails Demo.EAGAIN);
            Demo.quiet] init = Fault DivisionByZero.
Proof. split; by vm_compute. Qed.

Lemma run_stops_at_fault env envs st f :
  Demo.step env st = Fault f -> Demo.run (env :: envs) st = Fault f.
Proof. unfold Demo.step, Demo.run. intros H. cbn [Player.run]. by rewrite H. Qed.

(** C2: an accepted enable is not always followed by a record.  Step N
    dispatches one batch: a period of 64 ms for the inactive
    accelerometer, which is accepted, and a period of 10 ms for the
    inactive gyro, which is rejected.  The snapshot of step N holds no
    record of the accelerometer; after the step it is active with its
    period of 64 ms, and so is the gyro, with the period 0.  At step N+1
    the time is 64 ms, a multiple of the period, but no snapshot is
    built: the aggregator divides by the gyro's period, and no later
    step is reached. *)
Theorem accepted_enable_silenced_by_rejected_neighbour :
  let step_N := arriving (frame [x02; x40; x01; x0a]) (RecvFails Demo.EAGAIN) in
  Demo.accelerometer ∉ sensors Demo.connected /\
  configures Demo.robot 64 Demo.accelerometer = true /\
  exists sb st1,
    Demo.step_snapshot step_N Demo.connected = Ok sb /\
    commands_between Demo.ParseFromArray Demo.connected sb
    = [{| sts_name := "accelerometer"; timestep := 64 |};
       {| sts_name := "gyro"; timestep := 10 |}] /\
    ~ reports (sensor_measurements sb) Demo.accelerometer /\
    Demo.step step_N Demo.connected = Ok st1 /\
    Demo.accelerometer ∈ sensors st1 /\ getSamplingPeriod st1 Demo.accelerometer = 64 /\
    wrap_u32 (controller_time st1 + basic_time_step Demo.robot) mod 64 = 0 /\
    Demo.gyro ∈ sensors st1 /\ getSamplingPeriod st1 Demo.gyro = 0 /\
    Demo.step_snapshot Demo.quiet st1 = Fault DivisionByZero /\
    forall envs, Demo.run (Demo.quiet :: envs) st1 = Fault DivisionByZero.
Proof.
  intros step_N.
  split; [apply (bool_decide_unpack _); by vm_compute|]. split; [reflexivity|].
  exists (Demo.unwrap (Demo.step_snapshot step_N Demo.connected)),
         (Demo.unwrap (Demo.step step_N Demo.connected)).
  set (st1 := Demo.unwrap (Demo.step step_N Demo.connected)).
  assert (Demo.step Demo.quiet st1 = Fault DivisionByZero) as Hnext by (by vm_compute).
  split_and!.
  - by vm_compute.
  - by vm_compute.
  - apply (bool_decide_unpack _). by vm_compute.
  - by vm_compute.
  - apply (bool_decide_unpack _). by vm_compute.
  - by vm_compute.
  - by vm_compute.
  - apply (bool_decide_unpack _). by vm_compute.
  - by vm_compute.
  - by vm_compute.
  - intros envs. apply run_stops_at_fault. exact Hnext.
Qed.

(** C4: a rejected time step command changes the subscription state.
    With a step duration of 32 ms, a period of 10 ms (too short) or of
    40 ms (not a multiple) for the inactive gyro adds one warning and
    leaves the periods alone, but puts the gyro into [new_sensors]. *)
Theorem rejected_time_step_stages_device :
  new_sensors Demo.connected = ∅ /\
  Forall (fun period =>
            exists st',
              sensor_time_step_command Demo.robot {| sts_name := "gyro"; timestep := period |}
                Demo.connected = Ok st' /\
              new_sensors st' = {[Demo.gyro]} /\
              periods st' = periods Demo.connected /\
              length (messages (sensor_measurements st')) = 1%nat)
    [10; 40].
Proof.
  split; [reflexivity|].
  repeat (apply Forall_cons_2;
          [eexists; split; [vm_compute; reflexivity|]; split_and!; reflexivity|]).
  apply Forall_nil_2.
Qed.

(** C5: a device with period 0 in a reporting set.  A batch that enables
    the inactive gyro (32 ms) and then disables it leaves it in
    [new_sensors] with period 0, and [updateDevices] moves it to [sensors]. *)
Theorem disabled_device_stays_pending :
  exists st',
    dispatch Demo.robot
      (Demo.time_steps [{| sts_name := "gyro"; timestep := 32 |};
                        {| sts_name := "gyro"; timestep := 0 |}])
      Demo.connected = Ok st' /\
    Demo.gyro ∈ new_sensors st' /\ getSamplingPeriod st' Demo.gyro = 0 /\
    Demo.gyro ∈ sensors (updateDevices st') /\
    getSamplingPeriod (updateDevices st') Demo.gyro = 0.
Proof.
  eexists. split; [vm_compute; reflexivity|].
  split_and!; try reflexivity; by apply (bool_decide_unpack _); vm_compute.
Qed.

(** C6, as stated, fails: with a teammate's window full, the nine bytes
    of an empty snapshot are replaced by the 35 bytes of the error record. *)
Lemma quota_replacement_not_smaller :
  ~ (forall sb st' fd size payload written complete,
       Demo.step_snapshot Demo.teammate_busy Demo.connected = Ok sb ->
       Demo.step Demo.teammate_busy Demo.connected = Ok st' ->
       last (outbox st') = Some (Frame fd size payload written complete) ->
       payload = quota_error /\
       size < wrap_u32 (Demo.ByteSizeLong (sensor_measurements sb))).
Proof.
  intros H.
  let sb := eval vm_compute in (Demo.unwrap (Demo.step_snapshot Demo.teammate_busy Demo.connected)) in
  let st' := eval vm_compute in (Demo.unwrap (Demo.step Demo.teammate_busy Demo.connected)) in
  destruct (H sb st' 7 35 quota_error 39 true) as [_ Hlt];
    [by vm_compute..|vm_compute in Hlt; discriminate].
Qed.

(** C8, as stated, fails: the peer leaves after the header and one of two
    payload bytes; the session is closed, the declared length and the
    count are kept. *)
Lemma partial_message_survives_close :
  ~ (forall st',
       Demo.run [Demo.connecting; Demo.leaving] init = Ok st' ->
       client_fd st' = -1 /\ content_size st' = 0 /\ recv_index st' = 0).
Proof.
  intros H.
  let st' := eval vm_compute in (Demo.unwrap (Demo.run [Demo.connecting; Demo.leaving] init)) in
  destruct (H st') as (_ & Hc & _); [by vm_compute|vm_compute in Hc; discriminate].
Qed.

(** The bytes of the next client complete the message of the one that left. *)
Lemma partial_message_continues_across_sessions :
  exists st',
    Demo.run [Demo.connecting; Demo.leaving; Demo.connecting;
              arriving [x20] (RecvFails Demo.EAGAIN)] init = Ok st' /\
    dispatched st' = [[x01; x20]].
Proof. eexists. split; [vm_compute; reflexivity|reflexivity]. Qed.


(** ** The theorems at work *)

(** The accelerometer, enabled every 64 ms by the message of step N, has
    no record in the snapshot of step N and one in that of step N+1. *)
Lemma subscription_promotion_ordering_witness :
  ~ reports (sensor_measurements Demo.snapshot_N) Demo.accelerometer /\
  reports (sensor_measurements Demo.snapshot_N1) Demo.accelerometer.
Proof.
  destruct (subscription_promotion_ordering Demo.EAGAIN Demo.EWOULDBLOCK Demo.ParseFromArray
              Demo.ByteSizeLong Demo.allowed_hosts Demo.player_id Demo.robot
              Demo.enabling Demo.connected Demo.snapshot_N Demo.accelerometer)
    as (H1 & _ & H3).
  - vm_compute. discriminate.
  - apply (bool_decide_unpack _). vm_compute. exact I.
  - vm_compute. reflexivity.
  - split.
    + apply H1. apply (bool_decide_unpack _). vm_compute. exact I.
    + destruct (H3 [] {| sts_name := "accelerometer"; timestep := 64 |} [] Demo.after_N []
                  Demo.after_N Demo.quiet Demo.snapshot_N1) as (_ & _ & Hr).
      * vm_compute. reflexivity.
      * vm_compute. reflexivity.
      * reflexivity.
      * discriminate.
      * reflexivity.
      * apply (bool_decide_unpack _). vm_compute. exact I.
      * vm_compute. reflexivity.
      * reflexivity.
      * vm_compute. discriminate.
      * vm_compute. reflexivity.
      * intros c' Hc'. vm_compute in Hc'. apply elem_of_nil in Hc'. destruct Hc'.
      * apply Hr; vm_compute; reflexivity.
Defined.


(** A teammate's window trips the quota: the frame carries the error
    record, 35 bytes. *)
Lemma quota_exceeded_replacement_witness :
  exists st' written complete,
    sendSensorMessage Demo.ByteSizeLong Demo.player_id Demo.robot Demo.teammate_busy
      (Demo.sending Demo.teammate_busy) = Ok st' /\
    outbox st' = outbox (Demo.sending Demo.teammate_busy)
                 ++ [Frame 7 35 quota_error written complete].
Proof.
  destruct (quota_exceeded_replacement Demo.ByteSizeLong Demo.player_id Demo.robot
              Demo.teammate_busy (Demo.sending Demo.teammate_busy)
              (fst (Demo.usage_of Demo.teammate_busy)) (snd (Demo.usage_of Demo.teammate_busy)))
    as (st' & written & complete & Hs & Ho & _).
  - vm_compute. reflexivity.
  - vm_compute. reflexivity.
  - exists st', written, complete. split; [exact Hs|exact Ho].
Defined.



(** One byte of two is missing when the reading ends: on [EAGAIN] the
    session stays open, on [ECONNRESET] and on a zero-length read it is
    closed; the declared length and the count stay 2 and 1. *)
Lemma read_error_policy_witness :
  Forall (fun '(dry, fd) =>
            exists st',
              receiveMessages Demo.EAGAIN Demo.EWOULDBLOCK Demo.ParseFromArray Demo.robot dry
                Demo.one_missing = Ok st' /\
              client_fd st' = fd /\ content_size st' = 2 /\ recv_index st' = 1)
    [(RecvFails Demo.EAGAIN, 7); (RecvFails Demo.ECONNRESET, -1); (PeerClosed, -1)].
Proof.
  destruct (read_error_policy Demo.EAGAIN Demo.EWOULDBLOCK Demo.ParseFromArray
              Demo.ByteSizeLong Demo.allowed_hosts Demo.player_id Demo.robot eq_refl)
    as (H1 & H2 & _).
  repeat
    (apply Forall_cons_2;
     [ cbn beta iota;
       match goal with
       | |- exists st', receiveMessages _ _ _ _ ?dry _ = _ /\ _ =>
           destruct (H2 dry Demo.one_missing) as (st' & Hr & Hc & Hi & _);
           [discriminate|discriminate|reflexivity|reflexivity|];
           exists st'; split; [exact Hr|]; split; [|split; [exact Hc|exact Hi]];
           apply (H1 dry Demo.one_missing st'); [|discriminate|exact Hr];
           right; split; [split; [discriminate|reflexivity]|reflexivity]
       end
     | ]).
  apply Forall_nil_2.
Defined.

(** ** Reassembly when no header is cut *)



Section Reassembly.

Variables EAGAIN EWOULDBLOCK : Z.
Variable ParseFromArray : list byte -> ActuatorRequests.
Variable robot : Robot.

(** Both names denote one value, and the step duration is not zero. *)
Hypothesis same_errno : EAGAIN = EWOULDBLOCK.
Hypothesis step_duration : basic_time_step robot <> 0.

Local Abbreviation receiveMessages_loop :=
  (receiveMessages_loop EAGAIN EWOULDBLOCK ParseFromArray robot).
Local Abbreviation processBuffer := (processBuffer ParseFromArray robot).
Local Abbreviation deliver := (deliver EAGAIN EWOULDBLOCK ParseFromArray robot).
Local Abbreviation would_block := (RecvFails EAGAIN).





End Reassembly.

(** What [covers] and [uncut] say about the stream. *)






(** A message whose payload arrives in two polls cuts no header. *)
Lemma payload_split_is_uncut :
  uncut None [[x00; x00; x00; x02; x41]; [x42]] [[x41; x42]] [[x41; x42]] /\
  exists st,
    Demo.deliver [[x00; x00; x00; x02; x41]; [x42]] Demo.connected = Ok st /\
    dispatched st = [[x41; x42]].
Proof.
  split.
  - apply (uncut_cons None _ _ _ (Some ([x41], [x42])) [] [] [[x41; x42]]).
    + apply (covers_header [x41; x42] [x41] [] _ [] []); [done|].
      by apply (covers_part [] [x41] [x42] []).
    + apply (uncut_cons _ _ _ _ None [] [[x41; x42]] []); [|constructor].
      apply (covers_rest [x41] [x42] [] [] None [] []); [done|constructor].
  - eexists. split; [vm_compute; reflexivity|reflexivity].
Qed.

(** * Further properties *)

(** ** Outbound transport *)

Lemma send_all_loop_accepting kernel fuel : forall call length written,
  (forall call, 1 <= kernel call < 2 ^ 31) -> 0 <= length <= Z.of_nat fuel ->
  send_all_loop fuel kernel call length written = Ok (true, written + length).
Proof.
  induction fuel as [|fuel IH]; intros call len written Hk Hl; cbn [send_all_loop].
  - destruct (0 <? len) eqn:H0; [lia|]. do 2 f_equal. lia.
  - destruct (0 <? len) eqn:H0.
    + apply Z.ltb_lt in H0.
      assert (1 <= send kernel call len <= len) as Hi.
      { unfold send. specialize (Hk call).
        destruct (kernel call <? 1) eqn:Hf; [lia|].
        rewrite wrap_i32_small by lia. lia. }
      destruct (send kernel call len <? 1) eqn:Hs; [lia|].
      rewrite IH by (done || lia). do 2 f_equal. lia.
    + do 2 f_equal. lia.
Qed.

(** X1: [send_all] makes up for partial writes.  When every [send]
    takes at least one byte, whatever the number of bytes it takes,
    [send_all] reports success and has written exactly [length] bytes. *)
Theorem send_all_completes_partial_writes kernel length :
  (forall call, 1 <= kernel call < 2 ^ 31) -> 0 <= length ->
  send_all kernel length = Ok (true, length).
Proof.
  intros Hk Hl. unfold send_all.
  rewrite send_all_loop_accepting by (done || lia). done.
Qed.

(** A kernel that takes three bytes at a time: 4 + 35 bytes are written. *)
Lemma send_all_completes_partial_writes_witness :
  send_all (fun _ => 3) 39 = Ok (true, 39).
Proof.
  apply (send_all_completes_partial_writes (fun _ => 3) 39).
  - intros _. split; [discriminate|reflexivity].
  - discriminate.
Defined.

(** ** Inbound transport *)

Section Reading.

Variables EAGAIN EWOULDBLOCK : Z.
Variable ParseFromArray : list byte -> ActuatorRequests.
Variable robot : Robot.

Local Abbreviation receiveData := (receiveData EAGAIN EWOULDBLOCK).
Local Abbreviation receiveMessages_loop :=
  (receiveMessages_loop EAGAIN EWOULDBLOCK ParseFromArray robot).
Local Abbreviation receiveMessages := (receiveMessages EAGAIN EWOULDBLOCK ParseFromArray robot).
Local Abbreviation processBuffer := (processBuffer ParseFromArray robot).
Local Abbreviation closes := (closes EAGAIN EWOULDBLOCK).


Lemma receiveMessages_loop_drains dry fuel : forall st st',
  well_framed st -> client_fd st <> -1 ->
  receiveMessages_loop fuel dry st = Ok st' -> sock st' = [].
Proof.
  induction fuel as [|fuel IH]; intros st st' Hwf Hfd;
    cbn [Player.receiveMessages_loop];
    (destruct (client_fd st =? -1) eqn:Hc; [by apply Z.eqb_eq in Hc|]); [done|].
  destruct (content_size st =? 0) eqn:Hcs.
  - (* the header *)
    apply Z.eqb_eq in Hcs.
    assert (recv_index st = 0) as Hri by (destruct Hwf as [[_ ?]|[? _]]; [done|lia]).
    assert (forall size st1, 0 <= size -> size < 2 ^ 31 -> recv_index st1 = 0 ->
              well_framed (set_recv_buffer (replicate (Z.to_nat size) Byte.x00)
                             (set_content_size size st1))) as Hwf2.
    { intros size st1 H0 H1 Hz. unfold well_framed. cbn.
      destruct (decide (size = 0)); [by left|right; lia]. }
    destruct (Z.le_gt_cases 4 (Z.of_nat (length (sock st)))) as [Hk|Hk].
    + rewrite receiveData_enough by lia. cbn.
      destruct (_ <? 0) eqn:Hneg; [done|]. apply Z.ltb_ge in Hneg.
      intros H. apply IH in H; [done| |done].
      apply Hwf2; [done|by apply wrap_i32_nonneg_bound|done].
    + rewrite receiveData_short by lia. cbn.
      destruct (_ <? 0) eqn:Hneg; [done|]. apply Z.ltb_ge in Hneg.
      pose proof (wrap_i32_nonneg_bound _ Hneg) as Hlt.
      destruct (Z.of_nat (length (sock st)) =? 0) eqn:Hn.
      * intros [= <-]. by destruct (closes dry).
      * destruct (closes dry).
        -- rewrite receiveMessages_loop_closed by done. by intros [= <-].
        -- intros H. apply IH in H; [done| |done]. by apply Hwf2.
  - (* the payload *)
    apply Z.eqb_neq in Hcs.
    destruct Hwf as [[? _]|[Hri Hlt]]; [done|].
    destruct (Z.le_gt_cases (content_size st - recv_index st) (Z.of_nat (length (sock st))))
      as [Hk|Hk].
    + rewrite receiveData_enough by lia. cbn.
      replace (recv_index st + (content_size st - recv_index st)) with (content_size st) by lia.
      rewrite wrap_i32_small, Z.eqb_refl by lia.
      match goal with |- context [processBuffer ?s] => set (st3 := s) end.
      destruct (processBuffer st3) as [st4|] eqn:Hp; [cbn|done].
      apply processBuffer_effect in Hp as (_ & Hu & Hr).
      apply untouched_parts in Hu as (Hfd4 & _ & _). injection Hr as _ Hri4 Hcs4 _.
      destruct (_ =? 0) eqn:Hn; [apply Z.eqb_eq in Hn; lia|].
      intros H. apply IH in H; [done|by left|by rewrite Hfd4].
    + rewrite receiveData_short by lia. cbn.
      rewrite wrap_i32_small by lia.
      destruct (_ =? content_size _) eqn:He.
      { apply Z.eqb_eq in He. destruct (closes dry); cbn in He; lia. }
      cbn.
      destruct (Z.of_nat (length (sock st)) =? 0) eqn:Hn.
      * intros [= <-]. by destruct (closes dry).
      * destruct (closes dry).
        -- rewrite receiveMessages_loop_closed by done. by intros [= <-].
        -- intros H. apply IH in H; [done| |done]. right. cbn. lia.
Qed.

(** X3: a poll that returns has read the socket empty.  With a client
    and a receive state as the loop leaves it, [receiveMessages] consumes
    every byte that has arrived, leaves the receive state well framed,
    and the session open or closed as the end of the reading decides. *)
Theorem poll_reads_socket_empty dry st st' :
  well_framed st -> client_fd st <> -1 ->
  receiveMessages dry st = Ok st' ->
  sock st' = [] /\ well_framed st' /\
  client_fd st' = (if closes dry then -1 else client_fd st).
Proof.
  intros Hwf Hfd H. split.
  - by apply receiveMessages_loop_drains in H.
  - apply (receiveMessages_loop_session EAGAIN EWOULDBLOCK ParseFromArray robot) in H; [|done..].
    by destruct H.
Qed.

Lemma byte_val_range b : 0 <= byte_val b < 256.
Proof. destruct b; unfold byte_val; simpl; lia. Qed.

Lemma wrap_i32_high v : 2 ^ 31 <= v < 2 ^ 32 -> wrap_i32 v = v - 2 ^ 32.
Proof.
  intros Hv. unfold wrap_i32.
  replace (v + 2 ^ 31) with (v - 2 ^ 31 + 1 * 2 ^ 32) by lia.
  rewrite Z_mod_plus_full, Z.mod_small; lia.
Qed.

(** X4: a header whose first byte has its top bit set ends the
    controller.  The four bytes are read as a signed length; a negative
    length is handed to [new char[]], and nothing is dispatched. *)
Theorem negative_length_header_aborts dry st b0 b1 b2 b3 rest :
  client_fd st <> -1 -> content_size st = 0 ->
  sock st = b0 :: b1 :: b2 :: b3 :: rest -> 128 <= byte_val b0 ->
  receiveMessages dry st = Fault BadAlloc.
Proof.
  intros Hfd Hcs Hsock Hb.
  unfold Player.receiveMessages. cbn [Player.receiveMessages_loop].
  apply Z.eqb_neq in Hfd. rewrite Hfd, Hcs. cbn [Z.eqb].
  rewrite receiveData_enough by (rewrite Hsock; cbn [length]; lia).
  rewrite Hsock. cbn [mbind outcome_bind].
  change (overwrite (take (Z.to_nat 4) (b0 :: b1 :: b2 :: b3 :: rest)) (replicate 4 x00))
    with [b0; b1; b2; b3].
  assert (wrap_i32 (be32 [b0; b1; b2; b3]) < 0) as Hneg.
  { pose proof (byte_val_range b0). pose proof (byte_val_range b1).
    pose proof (byte_val_range b2). pose proof (byte_val_range b3).
    rewrite wrap_i32_high; unfold be32; cbn [fold_left]; lia. }
  apply Z.ltb_lt in Hneg. by rewrite Hneg.
Qed.

(** X5: where [EAGAIN] and [EWOULDBLOCK] are different numbers, the
    test of [errno] holds for every value: each poll that returns has
    closed the session, also when the socket was merely empty. *)
Theorem distinct_errno_values_close_every_session dry st st' :
  EAGAIN <> EWOULDBLOCK -> well_framed st -> client_fd st <> -1 ->
  receiveMessages dry st = Ok st' -> client_fd st' = -1.
Proof.
  intros Hne Hwf Hfd H.
  apply (receiveMessages_loop_session EAGAIN EWOULDBLOCK ParseFromArray robot) in H
    as [-> _]; [|done..].
  destruct dry as [errno|]; [|done]. cbn.
  by rewrite unexpected_failure_distinct.
Qed.

End Reading.

(** Three bytes of the header of the next message have arrived: they are
    consumed, and the session stays open. *)
Lemma poll_reads_socket_empty_witness :
  let st' := Demo.unwrap (receiveMessages Demo.EAGAIN Demo.EWOULDBLOCK Demo.ParseFromArray
                            Demo.robot (RecvFails Demo.EAGAIN)
                            (set_sock [x00; x00; x00] Demo.connected)) in
  sock st' = [] /\ well_framed st' /\ client_fd st' = 7.
Proof.
  apply (poll_reads_socket_empty Demo.EAGAIN Demo.EWOULDBLOCK Demo.ParseFromArray Demo.robot
           (RecvFails Demo.EAGAIN) (set_sock [x00; x00; x00] Demo.connected)).
  - left. split; reflexivity.
  - discriminate.
  - vm_compute. reflexivity.
Defined.

(** A header that announces 0xff000000 bytes. *)
Lemma negative_length_header_aborts_witness :
  receiveMessages Demo.EAGAIN Demo.EWOULDBLOCK Demo.ParseFromArray Demo.robot
    (RecvFails Demo.EAGAIN) (set_sock [xff; x00; x00; x00] Demo.connected) = Fault BadAlloc.
Proof.
  apply (negative_length_header_aborts Demo.EAGAIN Demo.EWOULDBLOCK Demo.ParseFromArray
           Demo.robot (RecvFails Demo.EAGAIN) (set_sock [xff; x00; x00; x00] Demo.connected)
           xff x00 x00 x00 []).
  - discriminate.
  - reflexivity.
  - reflexivity.
  - discriminate.
Defined.

(** With the values 11 and 35 a poll of an idle, silent connection ends
    the session. *)
Lemma distinct_errno_values_close_every_session_witness :
  client_fd (Demo.unwrap (receiveMessages 11 35 Demo.ParseFromArray Demo.robot (RecvFails 11)
                            Demo.connected)) = -1.
Proof.
  apply (distinct_errno_values_close_every_session 11 35 Demo.ParseFromArray Demo.robot
           (RecvFails 11) Demo.connected).
  - discriminate.
  - left. split; reflexivity.
  - discriminate.
  - vm_compute. reflexivity.
Defined.

(** ** What the dispatcher answers *)

Section Answers.

Variable robot : Robot.

Local Abbreviation dispatch := (dispatch robot).
Local Abbreviation sensor_time_step_command := (sensor_time_step_command robot).
Local Abbreviation sensor_time_step_commands := (sensor_time_step_commands robot).

Lemma answered_refl st : answered st st [] [].
Proof. unfold answered. by rewrite !app_nil_r. Qed.

Lemma answered_trans st1 st2 st3 ws1 ws2 calls1 calls2 :
  answered st1 st2 ws1 calls1 -> answered st2 st3 ws2 calls2 ->
  answered st1 st3 (ws1 ++ ws2) (calls1 ++ calls2).
Proof.
  intros (H1 & H2 & H3) (H4 & H5 & H6). unfold answered.
  rewrite H4, H1, H6, H3, !app_assoc. split_and!; try done. by apply Forall_app.
Qed.

Lemma answered_warn text st :
  answered st (warn text st) [{| message_type := WARNING_MESSAGE; text := text |}] [].
Proof. unfold answered. cbn. rewrite app_nil_r. split_and!; try done. by apply Forall_singleton. Qed.

Lemma answered_call call st :
  answered st (set_actuations (actuations st ++ [call]) st) [] [call].
Proof. unfold answered. cbn. by rewrite app_nil_r. Qed.

(** A loop that answers each command by one warning or one write. *)
Lemma foldl_answered {C} (f : PlayerServer -> C -> PlayerServer) (name : C -> string) cmds :
  (forall st c, exists ws calls,
      answered st (f st c) ws calls /\ (length ws + length calls = 1)%nat /\
      (getDevice robot (name c) = None -> calls = [])) ->
  forall st, exists ws calls,
    answered st (foldl f st cmds) ws calls /\
    (length ws + length calls = length cmds)%nat /\
    ((forall c, c ∈ cmds -> getDevice robot (name c) = None) -> calls = []).
Proof.
  intros Hf. induction cmds as [|c cmds IH]; intros st; cbn [foldl].
  - exists [], []. split; [apply answered_refl|done].
  - destruct (Hf st c) as (ws1 & calls1 & Ha1 & Hl1 & Hn1).
    destruct (IH (f st c)) as (ws2 & calls2 & Ha2 & Hl2 & Hn2).
    exists (ws1 ++ ws2), (calls1 ++ calls2). split; [by eapply answered_trans|].
    split; [rewrite !length_app, length_cons; lia|].
    intros Hall. rewrite Hn1, Hn2; [done| |].
    + intros c' Hc'. apply Hall. by apply list_elem_of_further.
    + apply Hall. apply list_elem_of_here.
Qed.

Lemma motor_commands_answered {V} command setter (cmds : list (Command V)) st :
  exists ws calls,
    answered st (motor_commands robot command setter cmds st) ws calls /\
    (length ws + length calls = length cmds)%nat /\
    ((forall c, c ∈ cmds -> getDevice robot (cmd_name c) = None) -> calls = []).
Proof.
  apply (foldl_answered _ cmd_name). clear st. intros st c.
  destruct (getMotor robot (cmd_name c)) as [motor|] eqn:Hm.
  - eexists [], [_]. split; [apply answered_call|]. split; [done|].
    intros Hd. unfold getMotor in Hm. by rewrite Hd in Hm.
  - eexists [_], []. split; [apply answered_warn|done].
Qed.

Lemma camera_quality_commands_answered cmds st :
  exists ws calls,
    answered st (camera_quality_commands robot cmds st) ws calls /\
    (length ws + length calls = length cmds)%nat /\
    ((forall c, c ∈ cmds -> getDevice robot (cmd_name c) = None) -> calls = []).
Proof.
  apply (foldl_answered _ cmd_name). clear st. intros st c.
  destruct (getCamera robot (cmd_name c)); eexists [_], [];
    (split; [apply answered_warn|done]).
Qed.

Lemma camera_exposure_commands_answered cmds st :
  exists ws calls,
    answered st (camera_exposure_commands robot cmds st) ws calls /\
    (length ws + length calls = length cmds)%nat /\
    ((forall c, c ∈ cmds -> getDevice robot (cmd_name c) = None) -> calls = []).
Proof.
  apply (foldl_answered _ cmd_name). clear st. intros st c.
  destruct (getCamera robot (cmd_name c)) as [camera|] eqn:Hm.
  - eexists [], [_]. split; [apply answered_call|]. split; [done|].
    intros Hd. unfold getCamera in Hm. by rewrite Hd in Hm.
  - eexists [_], []. split; [apply answered_warn|done].
Qed.

Lemma sensor_time_step_command_answered c st st' :
  sensor_time_step_command c st = Ok st' ->
  exists ws, answered st st' ws [] /\ (length ws <= 1)%nat.
Proof.
  unfold Player.sensor_time_step_command.
  destruct (getDevice robot (sts_name c)) as [device|].
  - set (st1 := if negb (timestep c =? 0) then _ else _).
    assert (answered st st1 [] []) as H1.
    { subst st1. destruct (negb _); [destruct (decide _)|];
        unfold answered; cbn; by rewrite !app_nil_r. }
    assert (forall text, exists ws, answered st (warn text st1) ws [] /\ (length ws <= 1)%nat)
      as Hw.
    { intros text. exists [{| message_type := WARNING_MESSAGE; text := text |}].
      split; [|done]. exact (answered_trans _ _ _ [] _ [] [] H1 (answered_warn text st1)). }
    destruct (_ && _); [intros HH; injection HH as Heq; rewrite <- Heq; apply Hw|].
    destruct (c_rem _ _) as [r|]; [cbn|done].
    destruct (negb (r =? 0)); [intros HH; injection HH as Heq; rewrite <- Heq; apply Hw|].
    destruct (getNodeType robot device); intros HH; injection HH as Heq; rewrite <- Heq; try apply Hw;
      (exists []; split; [|cbn; lia]; destruct H1 as (? & ? & ?); by split_and!).
  - intros [= <-]. eexists. split; [apply answered_warn|done].
Qed.

Lemma sensor_time_step_commands_answered cmds : forall st st',
  sensor_time_step_commands cmds st = Ok st' ->
  exists ws, answered st st' ws [] /\ (length ws <= length cmds)%nat.
Proof.
  induction cmds as [|c cmds IH]; intros st st'; cbn [Player.sensor_time_step_commands].
  - intros [= <-]. exists []. split; [apply answered_refl|done].
  - destruct (sensor_time_step_command c st) as [st1|] eqn:H1; [cbn|done]. intros H2.
    apply sensor_time_step_command_answered in H1 as (ws1 & Ha1 & Hl1).
    apply IH in H2 as (ws2 & Ha2 & Hl2).
    exists (ws1 ++ ws2). split; [apply (answered_trans _ _ _ _ _ [] [] Ha1 Ha2)|].
    rewrite length_app. cbn [length]. lia.
Qed.

Lemma sensor_time_step_commands_unknown cmds : forall st,
  (forall c, c ∈ cmds -> getDevice robot (sts_name c) = None) ->
  exists st' ws,
    sensor_time_step_commands cmds st = Ok st' /\
    answered st st' ws [] /\ length ws = length cmds /\
    subscription st' = subscription st.
Proof.
  induction cmds as [|c cmds IH]; intros st Hall; cbn [Player.sensor_time_step_commands].
  - exists st, []. split; [done|]. split; [apply answered_refl|done].
  - unfold Player.sensor_time_step_command at 1.
    rewrite (Hall c) by apply list_elem_of_here. cbn.
    match goal with |- context [sensor_time_step_commands cmds ?s] =>
      destruct (IH s) as (st' & ws & H1 & H2 & H3 & H4) end.
    { intros c' Hc'. apply Hall. by apply list_elem_of_further. }
    eexists st', (_ :: ws). split; [exact H1|].
    split; [apply (answered_trans _ _ _ [_] _ [] [] (answered_warn _ st) H2)|].
    split; [cbn; by rewrite H3|done].
Qed.

(** X6: the dispatcher answers every command once at most, and only
    by appending.  A batch leaves behind warnings and actuator writes
    whose number is at most that of its commands, and at least that of
    its commands other than time step commands; it adds no error
    message. *)
Theorem dispatch_answers_each_command_once req st st' :
  dispatch req st = Ok st' ->
  exists ws calls,
    messages (sensor_measurements st') = messages (sensor_measurements st) ++ ws /\
    Forall (fun m => message_type m = WARNING_MESSAGE) ws /\
    actuations st' = actuations st ++ calls /\
    (length ws + length calls <= length (batch_names req))%nat /\
    (length (batch_names req) <= length ws + length calls + length (sensor_time_steps req))%nat.
Proof.
  unfold Player.dispatch. intros H.
  destruct (motor_commands_answered "position" SetPosition (motor_positions req) st)
    as (ws1 & calls1 & Ha1 & Hl1 & _).
  set (s1 := motor_commands robot "position" _ _ _) in *.
  destruct (motor_commands_answered "velocity" SetVelocity (motor_velocities req) s1)
    as (ws2 & calls2 & Ha2 & Hl2 & _).
  set (s2 := motor_commands robot "velocity" _ _ _) in *.
  destruct (motor_commands_answered "force" SetForce (motor_forces req) s2)
    as (ws3 & calls3 & Ha3 & Hl3 & _).
  set (s3 := motor_commands robot "force" _ _ _) in *.
  destruct (motor_commands_answered "torque" SetTorque (motor_torques req) s3)
    as (ws4 & calls4 & Ha4 & Hl4 & _).
  set (s4 := motor_commands robot "torque" _ _ _) in *.
  destruct (motor_commands_answered "PID" (fun m '(x, y, z) => SetControlPID m x y z)
              (motor_pids req) s4) as (ws5 & calls5 & Ha5 & Hl5 & _).
  set (s5 := motor_commands robot "PID" _ _ _) in *.
  destruct (camera_quality_commands_answered (camera_qualities req) s5)
    as (ws6 & calls6 & Ha6 & Hl6 & _).
  set (s6 := camera_quality_commands robot _ _) in *.
  destruct (camera_exposure_commands_answered (camera_exposures req) s6)
    as (ws7 & calls7 & Ha7 & Hl7 & _).
  set (s7 := camera_exposure_commands robot _ _) in *.
  apply sensor_time_step_commands_answered in H as (ws8 & Ha8 & Hl8).
  pose proof (answered_trans _ _ _ _ _ _ _ Ha1 Ha2) as Ha.
  pose proof (answered_trans _ _ _ _ _ _ _ Ha Ha3) as Hb.
  pose proof (answered_trans _ _ _ _ _ _ _ Hb Ha4) as Hc.
  pose proof (answered_trans _ _ _ _ _ _ _ Hc Ha5) as Hd.
  pose proof (answered_trans _ _ _ _ _ _ _ Hd Ha6) as He.
  pose proof (answered_trans _ _ _ _ _ _ _ He Ha7) as Hf.
  destruct (answered_trans _ _ _ _ _ _ _ Hf Ha8) as (Hm & Hw & Hc').
  eexists _, _. split; [exact Hm|]. split; [exact Hw|]. split; [exact Hc'|].
  unfold batch_names. rewrite !length_app, !length_fmap. cbn [length]. lia.
Qed.

(** X7: a batch that names no device of the robot changes nothing but
    the warnings: one for each of its commands; no actuator is written,
    no subscription changes, and the step duration is never divided by. *)
Theorem unknown_devices_only_warn req st :
  (forall name, name ∈ batch_names req -> getDevice robot name = None) ->
  exists st' ws,
    dispatch req st = Ok st' /\
    messages (sensor_measurements st') = messages (sensor_measurements st) ++ ws /\
    Forall (fun m => message_type m = WARNING_MESSAGE) ws /\
    length ws = length (batch_names req) /\
    actuations st' = actuations st /\
    subscription st' = subscription st.
Proof.
  intros Hall. unfold Player.dispatch.
  assert (forall {C} (name : C -> string) (cmds : list C),
            (forall n, n ∈ name <$> cmds -> n ∈ batch_names req) ->
            forall c, c ∈ cmds -> getDevice robot (name c) = None) as Hin.
  { intros C name cmds Hsub c Hc. apply Hall, Hsub. by apply list_elem_of_fmap_2. }
  destruct (motor_commands_answered "position" SetPosition (motor_positions req) st)
    as (ws1 & calls1 & Ha1 & Hl1 & Hn1).
  pose proof (motor_commands_frame robot "position" SetPosition (motor_positions req) st)
    as (Hs1 & _).
  set (s1 := motor_commands robot "position" _ _ _) in *.
  destruct (motor_commands_answered "velocity" SetVelocity (motor_velocities req) s1)
    as (ws2 & calls2 & Ha2 & Hl2 & Hn2).
  pose proof (motor_commands_frame robot "velocity" SetVelocity (motor_velocities req) s1)
    as (Hs2 & _).
  set (s2 := motor_commands robot "velocity" _ _ _) in *.
  destruct (motor_commands_answered "force" SetForce (motor_forces req) s2)
    as (ws3 & calls3 & Ha3 & Hl3 & Hn3).
  pose proof (motor_commands_frame robot "force" SetForce (motor_forces req) s2) as (Hs3 & _).
  set (s3 := motor_commands robot "force" _ _ _) in *.
  destruct (motor_commands_answered "torque" SetTorque (motor_torques req) s3)
    as (ws4 & calls4 & Ha4 & Hl4 & Hn4).
  pose proof (motor_commands_frame robot "torque" SetTorque (motor_torques req) s3) as (Hs4 & _).
  set (s4 := motor_commands robot "torque" _ _ _) in *.
  destruct (motor_commands_answered "PID" (fun m '(x, y, z) => SetControlPID m x y z)
              (motor_pids req) s4) as (ws5 & calls5 & Ha5 & Hl5 & Hn5).
  pose proof (motor_commands_frame robot "PID" (fun m '(x, y, z) => SetControlPID m x y z)
                (motor_pids req) s4) as (Hs5 & _).
  set (s5 := motor_commands robot "PID" _ _ _) in *.
  destruct (camera_quality_commands_answered (camera_qualities req) s5)
    as (ws6 & calls6 & Ha6 & Hl6 & Hn6).
  pose proof (camera_quality_commands_frame robot (camera_qualities req) s5) as (Hs6 & _).
  set (s6 := camera_quality_commands robot _ _) in *.
  destruct (camera_exposure_commands_answered (camera_exposures req) s6)
    as (ws7 & calls7 & Ha7 & Hl7 & Hn7).
  pose proof (camera_exposure_commands_frame robot (camera_exposures req) s6) as (Hs7 & _).
  set (s7 := camera_exposure_commands robot _ _) in *.
  destruct (sensor_time_step_commands_unknown (sensor_time_steps req) s7)
    as (st' & ws8 & H8 & Ha8 & Hl8 & Hs8).
  { apply Hin. intros n Hn. unfold batch_names. rewrite !elem_of_app. tauto. }
  assert (calls1 = []) as ->
    by (apply Hn1, Hin; intros n Hn; unfold batch_names; rewrite !elem_of_app; tauto).
  assert (calls2 = []) as ->
    by (apply Hn2, Hin; intros n Hn; unfold batch_names; rewrite !elem_of_app; tauto).
  assert (calls3 = []) as ->
    by (apply Hn3, Hin; intros n Hn; unfold batch_names; rewrite !elem_of_app; tauto).
  assert (calls4 = []) as ->
    by (apply Hn4, Hin; intros n Hn; unfold batch_names; rewrite !elem_of_app; tauto).
  assert (calls5 = []) as ->
    by (apply Hn5, Hin; intros n Hn; unfold batch_names; rewrite !elem_of_app; tauto).
  assert (calls6 = []) as ->
    by (apply Hn6, Hin; intros n Hn; unfold batch_names; rewrite !elem_of_app; tauto).
  assert (calls7 = []) as ->
    by (apply Hn7, Hin; intros n Hn; unfold batch_names; rewrite !elem_of_app; tauto).
  pose proof (answered_trans _ _ _ _ _ _ _ Ha1 Ha2) as Ha.
  pose proof (answered_trans _ _ _ _ _ _ _ Ha Ha3) as Hb.
  pose proof (answered_trans _ _ _ _ _ _ _ Hb Ha4) as Hc.
  pose proof (answered_trans _ _ _ _ _ _ _ Hc Ha5) as Hd.
  pose proof (answered_trans _ _ _ _ _ _ _ Hd Ha6) as He.
  pose proof (answered_trans _ _ _ _ _ _ _ He Ha7) as Hf.
  destruct (answered_trans _ _ _ _ _ _ _ Hf Ha8) as (Hm & Hw & Hc').
  eexists st', _. split; [exact H8|]. split; [exact Hm|]. split; [exact Hw|].
  split; [|split].
  - unfold batch_names. rewrite !length_app, !length_fmap. cbn [length] in *. lia.
  - by rewrite Hc', app_nil_r.
  - congruence.
Qed.

End Answers.

(** A batch for the motor, for a wheel and a camera the robot does not
    have, and a period for the gyro: one write and two warnings. *)
Lemma dispatch_answers_each_command_once_witness :
  let req :=
    {| motor_positions := [{| cmd_name := "motor"; cmd_value := 0 |};
                           {| cmd_name := "wheel"; cmd_value := 0 |}];
       motor_velocities := []; motor_forces := []; motor_torques := []; motor_pids := [];
       camera_qualities := [{| cmd_name := "camera"; cmd_value := 50 |}];
       camera_exposures := [];
       sensor_time_steps := [{| sts_name := "gyro"; timestep := 32 |}] |} in
  let st' := Demo.unwrap (dispatch Demo.robot req Demo.connected) in
  exists ws calls,
    messages (sensor_measurements st') = messages (sensor_measurements Demo.connected) ++ ws /\
    Forall (fun m => message_type m = WARNING_MESSAGE) ws /\
    actuations st' = actuations Demo.connected ++ calls /\
    (length ws + length calls <= 4)%nat /\ (4 <= length ws + length calls + 1)%nat.
Proof.
  intros req st'.
  apply (dispatch_answers_each_command_once Demo.robot req Demo.connected st').
  vm_compute. reflexivity.
Defined.

(** A batch for a wheel and a lidar the robot does not have. *)
Lemma unknown_devices_only_warn_witness :
  let req :=
    {| motor_positions := [{| cmd_name := "wheel"; cmd_value := 0 |}];
       motor_velocities := []; motor_forces := []; motor_torques := []; motor_pids := [];
       camera_qualities := []; camera_exposures := [];
       sensor_time_steps := [{| sts_name := "lidar"; timestep := 7 |}] |} in
  exists st' ws,
    dispatch Demo.robot req Demo.connected = Ok st' /\
    messages (sensor_measurements st') = messages (sensor_measurements Demo.connected) ++ ws /\
    Forall (fun m => message_type m = WARNING_MESSAGE) ws /\
    length ws = 2%nat /\
    actuations st' = actuations Demo.connected /\
    subscription st' = subscription Demo.connected.
Proof.
  intros req.
  apply (unknown_devices_only_warn Demo.robot req Demo.connected).
  apply Forall_forall.
  apply Forall_cons_2; [reflexivity|]. apply Forall_cons_2; [reflexivity|]. apply Forall_nil_2.
Defined.

(** ** What a snapshot holds *)

Section Records.

Variable robot : Robot.

Local Abbreviation sample := (sample robot).
Local Abbreviation sample_all := (sample_all robot).
Local Abbreviation sampled := (sampled robot).
Local Abbreviation prepareSensorMessage := (prepareSensorMessage robot).

Lemma sample_record d st st' :
  sample d st = Ok st' ->
  st' = if sampled st d then add_record robot (field_of robot d) d st else st.
Proof.
  unfold Player.sample, Player.sampled, field_of.
  destruct (getNodeType robot d); cbn [is_sensor andb];
    try (by intros [= <-]);
    (destruct (due d st) as [[]|]; cbn; [| |done]; intros [= <-]; [|done]); try done.
  by destruct (getType robot d).
Qed.

Lemma sampled_same st st0 d :
  periods st = periods st0 -> controller_time st = controller_time st0 ->
  sampled st d = sampled st0 d.
Proof.
  intros Hp Ht. unfold Player.sampled, due, getSamplingPeriod. by rewrite Hp, Ht.
Qed.

Lemma sample_all_records st0 devices : forall st st',
  periods st = periods st0 -> controller_time st = controller_time st0 ->
  sample_all devices st = Ok st' ->
  measurements (sensor_measurements st')
  = measurements (sensor_measurements st)
    ++ (record_of robot <$> filter (fun d => sampled st0 d = true) devices) /\
  time (sensor_measurements st') = time (sensor_measurements st) /\
  real_time (sensor_measurements st') = real_time (sensor_measurements st) /\
  messages (sensor_measurements st') = messages (sensor_measurements st).
Proof.
  induction devices as [|d0 devices IH]; intros st st' Hp Ht; cbn [Player.sample_all].
  - intros [= <-]. by rewrite filter_nil, app_nil_r.
  - destruct (sample d0 st) as [st1|] eqn:Hs; [cbn|done]. intros Hrest.
    apply sample_record in Hs. rewrite (sampled_same st st0) in Hs by done.
    destruct (sampled st0 d0) eqn:Hd0; subst st1.
    + rewrite decide_True by done.
      apply IH in Hrest as (-> & -> & -> & ->); [|done..].
      cbn. by rewrite <- app_assoc.
    + rewrite decide_False by done. by apply IH in Hrest.
Qed.

Lemma NoDup_in_order (s : gset Device) : NoDup (in_order s).
Proof.
  unfold in_order. rewrite merge_sort_Permutation. apply NoDup_elements.
Qed.

Lemma prepareSensorMessage_stamps now st sb :
  prepareSensorMessage now st = Ok sb ->
  time (sensor_measurements sb) = controller_time st /\
  real_time (sensor_measurements sb) = now.
Proof.
  unfold Player.prepareSensorMessage. intros H.
  by apply (sample_all_records st) in H as (_ & -> & -> & _).
Qed.

(** X8: the snapshot [prepareSensorMessage] builds.  It is stamped
    with the controller's time and the wall clock, keeps the messages,
    and gains one record for each active device that is a sensor and
    due, in the order of the handles, each device once, each record in
    the field of its kind and under its name. *)
Theorem snapshot_holds_the_due_active_sensors now st sb :
  prepareSensorMessage now st = Ok sb ->
  let devices := filter (fun d => sampled st d = true) (in_order (sensors st)) in
  measurements (sensor_measurements sb)
  = measurements (sensor_measurements st) ++ (record_of robot <$> devices) /\
  NoDup devices /\
  (forall d, d ∈ devices <-> d ∈ sensors st /\ sampled st d = true) /\
  time (sensor_measurements sb) = controller_time st /\
  real_time (sensor_measurements sb) = now /\
  messages (sensor_measurements sb) = messages (sensor_measurements st).
Proof.
  intros H devices. unfold Player.prepareSensorMessage in H.
  apply (sample_all_records st) in H as (Hm & Ht & Hr & Hmsg); [|done..].
  split; [exact Hm|]. split; [apply NoDup_filter, NoDup_in_order|].
  split; [|done].
  intros d. subst devices. rewrite list_elem_of_filter, elem_of_in_order. tauto.
Qed.

End Records.

(** The accelerometer, sampled every 64 ms, at 64 ms. *)
Lemma snapshot_holds_the_due_active_sensors_witness :
  let sb := Demo.unwrap (prepareSensorMessage Demo.robot 5 (Demo.sampling_at 64)) in
  let devices := filter (fun d => sampled Demo.robot (Demo.sampling_at 64) d = true)
                   (in_order (sensors (Demo.sampling_at 64))) in
  measurements (sensor_measurements sb)
  = measurements (sensor_measurements (Demo.sampling_at 64))
    ++ (record_of Demo.robot <$> devices) /\
  NoDup devices /\
  (forall d, d ∈ devices <-> d ∈ sensors (Demo.sampling_at 64) /\
                            sampled Demo.robot (Demo.sampling_at 64) d = true) /\
  time (sensor_measurements sb) = 64 /\
  real_time (sensor_measurements sb) = 5 /\
  messages (sensor_measurements sb) = [].
Proof.
  intros sb.
  apply (snapshot_holds_the_due_active_sensors Demo.robot 5 (Demo.sampling_at 64) sb).
  vm_compute. reflexivity.
Defined.

(** ** A new period for an active sensor *)

Section Reconfiguring.

Variables EAGAIN EWOULDBLOCK : Z.
Variable ParseFromArray : list byte -> ActuatorRequests.
Variable robot : Robot.

Local Abbreviation step_snapshot := (step_snapshot EAGAIN EWOULDBLOCK ParseFromArray robot).
Local Abbreviation time_step_effect := (time_step_effect robot).
Local Abbreviation commands_between := (commands_between ParseFromArray).
Local Abbreviation sampled := (sampled robot).
Local Abbreviation names := (names robot).
Local Abbreviation configures := (configures robot).
Local Abbreviation basic_time_step := (basic_time_step robot).

Lemma effect_keeps_active u c d :
  (names d c -> timestep c <> 0) -> d ∈ active u -> d ∈ active (time_step_effect u c).
Proof.
  intros Hc Hd. unfold Player.time_step_effect.
  destruct (getDevice robot (sts_name c)) as [device|] eqn:Hdev; [|done].
  destruct (negb (timestep c =? 0)) eqn:Hz.
  - destruct (decide (device ∈ active u)); by destruct (Player.configures _ _ _).
  - assert (device <> d) as Hne.
    { intros ->. specialize (Hc Hdev). apply negb_false_iff, Z.eqb_eq in Hz. done. }
    destruct (Player.configures _ _ _); cbn; set_solver.
Qed.

Lemma effects_keep_active cmds d : forall u,
  (forall c, c ∈ cmds -> names d c -> timestep c <> 0) ->
  d ∈ active u -> d ∈ active (foldl time_step_effect u cmds).
Proof.
  induction cmds as [|c cmds IH]; intros u Hall Hd; cbn [foldl]; [done|].
  apply IH.
  - intros c' Hc'. apply Hall. by apply list_elem_of_further.
  - apply effect_keeps_active; [|done]. apply Hall. apply list_elem_of_here.
Qed.

Lemma effect_reconfigures u c d :
  names d c -> timestep c <> 0 -> configures (timestep c) d = true -> d ∈ active u ->
  d ∈ active (time_step_effect u c) /\
  configured (time_step_effect u c) !! d = Some (timestep c).
Proof.
  intros Hn Hz Hc Hd. unfold Player.time_step_effect. rewrite Hn.
  apply Z.eqb_neq in Hz. rewrite Hz. cbn [negb].
  rewrite decide_True by done. rewrite Hc. cbn. by rewrite lookup_insert_eq.
Qed.

Lemma effects_reconfigure l1 c l2 d u :
  d ∈ active u ->
  (forall c', c' ∈ l1 -> names d c' -> timestep c' <> 0) ->
  names d c -> timestep c <> 0 -> configures (timestep c) d = true ->
  (forall c', c' ∈ l2 -> ~ names d c') ->
  let u' := foldl time_step_effect u (l1 ++ c :: l2) in
  d ∈ active u' /\ configured u' !! d = Some (timestep c).
Proof.
  intros Hd H1 Hn Hz Hc H2 u'. subst u'. rewrite foldl_app. cbn [foldl].
  pose proof (effects_keep_active l1 d u H1 Hd) as Hd1.
  destruct (effect_reconfigures _ c d Hn Hz Hc Hd1) as [Hd2 Hp2].
  destruct (effects_other robot l2 d (time_step_effect (foldl time_step_effect u l1) c) H2)
    as (Ha & _ & Hp).
  split; [by apply Ha|by rewrite Hp].
Qed.

(** X9: a new period for a sensor that is active counts at once.  When
    a step receives a valid, non-zero period for an active sensor, and
    no later command of the step names the sensor, the snapshot of this
    very step samples it by the new period. *)
Theorem active_sensor_period_change_is_immediate env st sb d l1 c l2 :
  0 < basic_time_step ->
  step_snapshot env st = Ok sb ->
  d ∈ sensors st -> ~ reports (sensor_measurements st) d ->
  commands_between st sb = l1 ++ c :: l2 ->
  names d c -> timestep c <> 0 -> configures (timestep c) d = true ->
  timestep c < 2 ^ 31 ->
  (forall c', c' ∈ l1 -> names d c' -> timestep c' <> 0) ->
  (forall c', c' ∈ l2 -> ~ names d c') ->
  d ∈ sensors sb /\ getSamplingPeriod sb d = timestep c /\
  (reports (sensor_measurements sb) d <-> controller_time sb mod timestep c = 0).
Proof.
  intros Hb Hs Hd Hnr Hcmds Hn Hz Hc Hlt H1 H2.
  apply step_snapshot_effect in Hs as (ps & Hdis & Hsub & Hct & Hrep).
  rewrite (commands_between_app ParseFromArray st sb ps Hdis) in Hcmds.
  rewrite Hcmds in Hsub.
  destruct (effects_reconfigure l1 c l2 d (subscription st) Hd H1 Hn Hz Hc H2) as [Ha Hp].
  rewrite <- Hsub in Ha, Hp. cbn in Ha, Hp.
  assert (getSamplingPeriod sb d = timestep c) as Hper
    by (unfold getSamplingPeriod; by rewrite Hp).
  split; [done|]. split; [done|].
  destruct (configures_period robot _ _ Hc Hz) as [Hge Hsens].
  rewrite Hrep. unfold Player.sampled. rewrite Hsens. cbn [andb].
  rewrite due_period; rewrite ?Hper; [| rewrite Hct; apply wrap_u32_range | lia].
  rewrite Z.eqb_eq. tauto.
Qed.

End Reconfiguring.

(** The accelerometer is sampled every 64 ms; at 32 ms a period of 32 ms
    arrives, and the snapshot of that step holds its record. *)
Lemma active_sensor_period_change_is_immediate_witness :
  let sb := Demo.unwrap (Demo.step_snapshot
                           (arriving (frame [x02; x20]) (RecvFails Demo.EAGAIN))
                           (Demo.sampling_at 0)) in
  Demo.accelerometer ∈ sensors sb /\ getSamplingPeriod sb Demo.accelerometer = 32 /\
  (reports (sensor_measurements sb) Demo.accelerometer <-> controller_time sb mod 32 = 0).
Proof.
  intros sb.
  apply (active_sensor_period_change_is_immediate Demo.EAGAIN Demo.EWOULDBLOCK
           Demo.ParseFromArray Demo.robot
           (arriving (frame [x02; x20]) (RecvFails Demo.EAGAIN)) (Demo.sampling_at 0) sb
           Demo.accelerometer [] {| sts_name := "accelerometer"; timestep := 32 |} []).
  - reflexivity.
  - vm_compute. reflexivity.
  - apply (bool_decide_unpack _). vm_compute. exact I.
  - apply (bool_decide_unpack _). vm_compute. exact I.
  - vm_compute. reflexivity.
  - reflexivity.
  - discriminate.
  - reflexivity.
  - reflexivity.
  - intros c' Hc'. apply elem_of_nil in Hc'. destruct Hc'.
  - intros c' Hc'. apply elem_of_nil in Hc'. destruct Hc'.
Defined.

(** ** What holds between two steps *)

Lemma beyond_records_fields st1 st :
  beyond_records st1 = beyond_records st ->
  sensors st1 = sensors st /\ new_sensors st1 = new_sensors st /\ periods st1 = periods st /\
  recv_index st1 = recv_index st /\ content_size st1 = content_size st /\
  client_fd st1 = client_fd st /\ sock st1 = sock st /\
  controller_time st1 = controller_time st /\ data_transferred st1 = data_transferred st /\
  quota_file st1 = quota_file st /\ outbox st1 = outbox st.
Proof. intros H. injection H. intros. split_and!; congruence. Qed.

Lemma steady_fields st1 st :
  steady st1 = steady st ->
  controller_time st1 = controller_time st /\ data_transferred st1 = data_transferred st /\
  quota_file st1 = quota_file st /\ outbox st1 = outbox st.
Proof. intros H. injection H. intros. split_and!; congruence. Qed.

Section BetweenSteps.

Variables EAGAIN EWOULDBLOCK : Z.
Variable ParseFromArray : list byte -> ActuatorRequests.
Variable ByteSizeLong : SensorMeasurements -> Z.
Variable allowed_hosts : list string.
Variable player_id : Z.
Variable robot : Robot.

Local Abbreviation receiveMessages := (receiveMessages EAGAIN EWOULDBLOCK ParseFromArray robot).
Local Abbreviation step_receive := (step_receive EAGAIN EWOULDBLOCK ParseFromArray robot).
Local Abbreviation step_snapshot := (step_snapshot EAGAIN EWOULDBLOCK ParseFromArray robot).
Local Abbreviation bandwidth_usage := (bandwidth_usage player_id robot).
Local Abbreviation sendSensorMessage := (sendSensorMessage ByteSizeLong player_id robot).
Local Abbreviation step :=
  (step EAGAIN EWOULDBLOCK ParseFromArray ByteSizeLong allowed_hosts player_id robot).
Local Abbreviation run :=
  (run EAGAIN EWOULDBLOCK ParseFromArray ByteSizeLong allowed_hosts player_id robot).
Local Abbreviation time_step_effect := (time_step_effect robot).
Local Abbreviation basic_time_step := (basic_time_step robot).

Lemma effect_resolved u c :
  (forall d, d ∈ active u ∪ pending u -> exists name, getDevice robot name = Some d) ->
  forall d, d ∈ active (time_step_effect u c) ∪ pending (time_step_effect u c) ->
            exists name, getDevice robot name = Some d.
Proof.
  intros H d. unfold Player.time_step_effect.
  destruct (getDevice robot (sts_name c)) as [device|] eqn:Hdev; [|apply H].
  destruct (negb _); [destruct (decide _)|]; destruct (configures _ _ _); cbn; intros Hd;
    (destruct (decide (d = device)) as [->|]; [eauto|apply H; set_solver]).
Qed.

Lemma effect_valid_periods u c :
  (forall d p, configured u !! d = Some p ->
     is_sensor (getNodeType robot d) = true /\ Z.rem p basic_time_step = 0 /\
     (p = 0 \/ basic_time_step <= p)) ->
  forall d p, configured (time_step_effect u c) !! d = Some p ->
    is_sensor (getNodeType robot d) = true /\ Z.rem p basic_time_step = 0 /\
    (p = 0 \/ basic_time_step <= p).
Proof.
  intros H. unfold Player.time_step_effect.
  destruct (getDevice robot (sts_name c)) as [device|] eqn:Hdev; [|apply H].
  destruct (configures robot (timestep c) device) eqn:Hc.
  - intros d p Hp.
    assert (<[device := timestep c]> (configured u) !! d = Some p) as Hp'.
    { revert Hp. destruct (negb _); [destruct (decide _)|]; done. }
    apply lookup_insert_Some in Hp' as [[<- <-]|[_ Hp']]; [|by apply H].
    unfold configures in Hc. apply andb_true_iff in Hc as [Hc Hs].
    apply andb_true_iff in Hc as [Hr Hm]. apply Z.eqb_eq in Hm.
    split; [done|]. split; [done|].
    apply negb_true_iff, andb_false_iff in Hr as [Hr|Hr].
    + apply negb_false_iff, Z.eqb_eq in Hr. by left.
    + apply Z.ltb_ge in Hr. by right.
  - destruct (negb _); [destruct (decide _)|]; apply H.
Qed.

Lemma effects_resolved_and_valid cmds : forall u,
  (forall d, d ∈ active u ∪ pending u -> exists name, getDevice robot name = Some d) ->
  (forall d p, configured u !! d = Some p ->
     is_sensor (getNodeType robot d) = true /\ Z.rem p basic_time_step = 0 /\
     (p = 0 \/ basic_time_step <= p)) ->
  let u' := foldl time_step_effect u cmds in
  (forall d, d ∈ active u' ∪ pending u' -> exists name, getDevice robot name = Some d) /\
  (forall d p, configured u' !! d = Some p ->
     is_sensor (getNodeType robot d) = true /\ Z.rem p basic_time_step = 0 /\
     (p = 0 \/ basic_time_step <= p)).
Proof.
  induction cmds as [|c cmds IH]; intros u H1 H2; cbn [foldl]; [done|].
  apply IH; [by apply effect_resolved|by apply effect_valid_periods].
Qed.

Lemma prepareSensorMessage_frame now st sb :
  prepareSensorMessage robot now st = Ok sb -> beyond_records sb = beyond_records st.
Proof.
  unfold Player.prepareSensorMessage. intros H.
  by apply sample_all_effect in H as [-> _].
Qed.

Lemma bandwidth_usage_window env size st usage st1 :
  bandwidth_usage env size st = Ok (usage, st1) ->
  exists data,
    st1 = set_quota_file (Some data) (set_data_transferred (Some data) st) /\
    length data
    = length (default (replicate (Z.to_nat (Z.quot 1000 basic_time_step)) 0)
                (data_transferred st)).
Proof.
  unfold Player.bandwidth_usage.
  destruct (c_div 1000 basic_time_step) as [window_size|] eqn:Hw; [cbn|done].
  assert (window_size = Z.quot 1000 basic_time_step) as ->.
  { unfold c_div in Hw. destruct (_ =? 0); [done|]. by injection Hw as <-. }
  destruct (c_div (controller_time st) _) as [steps|]; [cbn|done].
  destruct (c_rem steps _) as [index|]; [cbn|done].
  destruct (data_transferred st) as [data|].
  - cbn. destruct (quota_writable st); [|done].
    intros [= _ <-]. eexists. split; [done|]. by rewrite length_insert.
  - destruct (_ <? 0); [done|]. cbn. destruct (quota_writable st); [|done].
    intros [= _ <-]. eexists. split; [done|]. by rewrite length_insert.
Qed.

(** The poll of a step with a client. *)
Lemma step_receive_between env st st1 :
  well_framed st -> client_fd st <> -1 ->
  step_receive env st = Ok st1 ->
  well_framed st1 /\ (client_fd st1 = -1 -> sock st1 = []) /\
  controller_time st1 = wrap_u32 (controller_time st + basic_time_step) /\
  data_transferred st1 = data_transferred st /\ quota_file st1 = quota_file st /\
  outbox st1 = outbox st /\
  exists cmds, subscription st1 = foldl time_step_effect (subscription st) cmds.
Proof.
  intros Hwf Hfd. unfold Player.step_receive. destruct (e_select env =? -1).
  - intros [= <-]. cbn. split_and!; try done. by exists [].
  - intros H.
    assert (Hsock := H). apply receiveMessages_loop_drains in Hsock; [|exact Hwf|exact Hfd].
    assert (Hwf1 := H).
    apply receiveMessages_loop_session in Hwf1 as [_ Hwf1]; [|exact Hwf|exact Hfd].
    apply receiveMessages_effect in H as (ps & _ & Hsub & Hst).
    apply steady_fields in Hst as (-> & -> & -> & ->).
    split_and!; try done. by eexists.
Qed.

Lemma step_keeps_between_steps env st st' :
  between_steps robot st -> step env st = Ok st' -> between_steps robot st'.
Proof.
  intros (Hnew & Hsm & Hct & Hwf & Hq & Hwin & Hsock & Hres & Hper).
  unfold well_framed in Hwf.
  destruct (decide (client_fd st = -1)) as [Hfd|Hfd].
  - (* no client: accept *)
    unfold Player.step, accept_client. rewrite Hfd. cbn.
    assert (between_steps robot (set_client_fd (-1) st)) as Hsame.
    { unfold between_steps, well_framed. cbn. split_and!; try done; try lia.
      intros _. by apply Hsock. }
    destruct (e_accept env) as [[cfd h_name]|]; cbn; [|by intros [= <-]].
    destruct (cfd =? -1) eqn:Hc; cbn; [by intros [= <-]|].
    destruct (send_all (e_send env) 8) as [[complete written]|]; [cbn|done].
    destruct (bool_decide _); cbn; rewrite ?Hc; cbn; intros [= <-];
      unfold between_steps, well_framed; cbn; split_and!; try done; try lia;
      try (intros _; by apply Hsock); try (by intros ->).
  - (* a client: poll, snapshot, promote, send *)
    unfold Player.step. apply Z.eqb_neq in Hfd as Hfd'. rewrite Hfd'.
    unfold Player.step_snapshot.
    destruct (step_receive env st) as [st1|] eqn:Hr; [cbn|done].
    destruct (prepareSensorMessage robot (e_real_time env) st1) as [sb|] eqn:Hp; [cbn|done].
    intros Hs.
    apply step_receive_between in Hr
      as (Hwf1 & Hsock1 & Hct1 & Hdt1 & Hqf1 & _ & cmds & Hsub1); [|done..].
    apply prepareSensorMessage_frame, beyond_records_fields in Hp
      as (Hb1 & Hb2 & Hb3 & Hb4 & Hb5 & Hb6 & Hb7 & Hb8 & Hb9 & Hb10 & _).
    destruct (effects_resolved_and_valid cmds (subscription st)) as [Hres1 Hper1].
    { cbn. intros d Hd. apply Hres. rewrite Hnew in Hd. set_solver. }
    { exact Hper. }
    rewrite <- Hsub1 in Hres1, Hper1. cbn in Hres1, Hper1.
    destruct (bandwidth_usage env (wrap_u32 (ByteSizeLong (sensor_measurements (updateDevices sb))))
                (updateDevices sb)) as [[usage st2]|] eqn:Hu.
    + destruct (sendSensorMessage_result ByteSizeLong player_id robot env _ usage st2 Hu)
        as (complete & written & _ & Heq).
      rewrite Heq in Hs. injection Hs as <-.
      apply bandwidth_usage_window in Hu as (data & -> & Hlen).
      unfold between_steps, well_framed. cbn.
      rewrite Hb4, Hb5, Hb6, Hb7, Hb8, Hb3, Hb1, Hb2, Hct1.
      split_and!; try done.
      * pose proof (wrap_u32_range (controller_time st + basic_time_step)). lia.
      * pose proof (wrap_u32_range (controller_time st + basic_time_step)). lia.
      * intros data' [= <-]. rewrite Hlen. cbn. rewrite Hb9, Hdt1.
        destruct (data_transferred st) as [data0|] eqn:Hd0; cbn.
        -- by apply Hwin.
        -- by rewrite length_replicate.
    + unfold Player.sendSensorMessage in Hs. by rewrite Hu in Hs.
Qed.

Lemma init_between_steps : between_steps robot init.
Proof.
  unfold between_steps, well_framed. cbn.
  split_and!; try done; try lia; try (by left); set_solver.
Qed.

Lemma run_keeps_between_steps envs : forall st st',
  between_steps robot st -> run envs st = Ok st' -> between_steps robot st'.
Proof.
  induction envs as [|env envs IH]; intros st st' Hinv; cbn [Player.run].
  - by intros [= <-].
  - destruct (step env st) as [st1|] eqn:Hs; [cbn|done].
    apply IH. by eapply step_keeps_between_steps.
Qed.

(** X10: what holds of every state the main loop reaches.  Whatever
    arrives and whoever connects, after any number of steps from the
    constructor's state: no device is waiting for promotion, the
    snapshot is clear, the clock is a 32-bit value, the receive state is
    well framed, the quota file shows the window, whose length is
    1000 / step duration, a closed session has nothing to read, every
    active device is one the robot resolves, and every configured period
    belongs to a sensor and is 0 or a multiple of the step duration not
    below it. *)
Theorem reachable_states_are_between_steps envs st :
  run envs init = Ok st -> between_steps robot st.
Proof. apply run_keeps_between_steps, init_between_steps. Qed.

End BetweenSteps.

(** After the connection and the step that enables the accelerometer. *)
Lemma reachable_states_are_between_steps_witness :
  between_steps Demo.robot (Demo.unwrap (Demo.run [Demo.connecting; Demo.enabling] init)).
Proof.
  apply (reachable_states_are_between_steps Demo.EAGAIN Demo.EWOULDBLOCK Demo.ParseFromArray
           Demo.ByteSizeLong Demo.allowed_hosts Demo.player_id Demo.robot
           [Demo.connecting; Demo.enabling]).
  vm_compute. reflexivity.
Defined.

(** ** Accepting a client, answering a client *)

Section Sessions.

Variables EAGAIN EWOULDBLOCK : Z.
Variable ParseFromArray : list byte -> ActuatorRequests.
Variable ByteSizeLong : SensorMeasurements -> Z.
Variable allowed_hosts : list string.
Variable player_id : Z.
Variable robot : Robot.

Local Abbreviation step_receive := (step_receive EAGAIN EWOULDBLOCK ParseFromArray robot).
Local Abbreviation step_snapshot := (step_snapshot EAGAIN EWOULDBLOCK ParseFromArray robot).
Local Abbreviation bandwidth_usage := (bandwidth_usage player_id robot).
Local Abbreviation sendSensorMessage := (sendSensorMessage ByteSizeLong player_id robot).
Local Abbreviation step :=
  (step EAGAIN EWOULDBLOCK ParseFromArray ByteSizeLong allowed_hosts player_id robot).
Local Abbreviation basic_time_step := (basic_time_step robot).

(** X11: who gets a session.  A step without a client opens a session
    only for a pending connection whose host name is in the list; it
    then restarts the clock at 0.  Every pending connection is answered
    by one token, "Welcome" or "Refused", and by nothing else; a step
    that opens no session leaves the clock alone.  In both cases the
    subscription state, the receive state and the pending snapshot are
    those the last session left. *)
Theorem only_listed_hosts_get_a_session env st st' :
  client_fd st = -1 -> step env st = Ok st' ->
  (client_fd st' <> -1 ->
   exists host,
     e_accept env = Some (client_fd st', host) /\ host ∈ allowed_hosts /\
     controller_time st' = 0 /\ sock st' = e_arrived env) /\
  (client_fd st' = -1 -> controller_time st' = controller_time st /\ sock st' = sock st) /\
  (exists tokens,
     outbox st' = outbox st ++ tokens /\
     match e_accept env with
     | Some (cfd, host) =>
         if cfd =? -1 then tokens = []
         else exists complete,
             tokens = [Token cfd (if bool_decide (host ∈ allowed_hosts)
                                  then "Welcome" else "Refused") complete]
     | None => tokens = []
     end) /\
  subscription st' = subscription st /\ receiving st' = receiving st /\
  sensor_measurements st' = sensor_measurements st /\ actuations st' = actuations st.
Proof.
  intros Hfd. unfold Player.step, accept_client. rewrite Hfd. cbn.
  destruct (e_accept env) as [[cfd h_name]|]; cbn.
  - destruct (cfd =? -1) eqn:Hc; cbn.
    + intros [= <-]. cbn. split_and!; try done. exists []. by rewrite app_nil_r.
    + destruct (send_all (e_send env) 8) as [[complete written]|]; [cbn|done].
      destruct (bool_decide (h_name ∈ allowed_hosts)) eqn:Hin; cbn; rewrite ?Hc; cbn;
        intros [= <-]; cbn; split_and!; try done; eauto.
      * intros _. exists h_name. split_and!; try done. by apply bool_decide_eq_true in Hin.
      * by intros ->.
  - intros [= <-]. cbn. split_and!; try done. exists []. by rewrite app_nil_r.
Qed.

(** X12: what a step with a client sends.  Exactly one frame is handed
    to [send_all]: for the descriptor as the poll left it, -1 if the poll
    closed the session; its payload is the snapshot of the step, stamped
    with the advanced clock and the wall clock, or the quota error; its
    length prefix is the size of that payload as a 32-bit value.  The
    clock has advanced by the step duration, in 32-bit arithmetic. *)
Theorem connected_step_sends_one_frame env st st' :
  client_fd st <> -1 -> step env st = Ok st' ->
  exists sb size payload written complete,
    step_snapshot env st = Ok sb /\
    outbox st' = outbox st ++ [Frame (client_fd st') size payload written complete] /\
    client_fd st' = client_fd sb /\
    size = wrap_u32 (ByteSizeLong payload) /\
    (payload = quota_error \/ payload = sensor_measurements sb) /\
    time (sensor_measurements sb) = wrap_u32 (controller_time st + basic_time_step) /\
    real_time (sensor_measurements sb) = e_real_time env /\
    controller_time st' = wrap_u32 (controller_time st + basic_time_step).
Proof.
  intros Hfd. unfold Player.step. apply Z.eqb_neq in Hfd as Hfd'. rewrite Hfd'.
  destruct (step_snapshot env st) as [sb|] eqn:Hsb; [cbn|done]. intros Hs.
  assert (Hsb' := Hsb). unfold Player.step_snapshot in Hsb'.
  destruct (step_receive env st) as [st1|] eqn:Hr; [cbn in Hsb'|done].
  assert (outbox st1 = outbox st /\
          controller_time st1 = wrap_u32 (controller_time st + basic_time_step))
    as [Ho1 Hct1].
  { revert Hr. unfold Player.step_receive. destruct (e_select env =? -1).
    - by intros [= <-].
    - intros H. apply receiveMessages_effect in H as (ps & _ & _ & Hst).
      by apply steady_fields in Hst as (-> & _ & _ & ->). }
  assert (Hfr := Hsb'). apply prepareSensorMessage_frame, beyond_records_fields in Hfr
    as (_ & _ & _ & _ & _ & _ & _ & Hctb & _ & _ & Ho).
  apply prepareSensorMessage_stamps in Hsb' as (Ht & Hrt).
  destruct (bandwidth_usage env (wrap_u32 (ByteSizeLong (sensor_measurements (updateDevices sb))))
              (updateDevices sb)) as [[usage st2]|] eqn:Hu.
  - destruct (sendSensorMessage_result ByteSizeLong player_id robot env _ usage st2 Hu)
      as (complete & written & _ & Heq).
    rewrite Heq in Hs. injection Hs as <-.
    apply bandwidth_usage_effect in Hu as (data & ->).
    eexists sb, _, _, written, complete. cbn.
    split; [done|]. split; [by rewrite Ho, Ho1|]. split; [done|]. split; [done|].
    split; [destruct (TEAM_QUOTA <? usage); [by left|by right]|].
    by rewrite Ht, Hrt, Hctb, Hct1.
  - unfold Player.sendSensorMessage in Hs. by rewrite Hu in Hs.
Qed.

End Sessions.

(** The client from "localhost" is welcomed on descriptor 7. *)
Lemma only_listed_hosts_get_a_session_witness :
  let env := Demo.connecting in
  let st' := Demo.connected in
  (client_fd st' <> -1 ->
   exists host,
     e_accept env = Some (client_fd st', host) /\ host ∈ Demo.allowed_hosts /\
     controller_time st' = 0 /\ sock st' = e_arrived env) /\
  (client_fd st' = -1 -> controller_time st' = controller_time init /\ sock st' = sock init) /\
  (exists tokens,
     outbox st' = outbox init ++ tokens /\
     match e_accept env with
     | Some (cfd, host) =>
         if cfd =? -1 then tokens = []
         else exists complete,
             tokens = [Token cfd (if bool_decide (host ∈ Demo.allowed_hosts)
                                  then "Welcome" else "Refused") complete]
     | None => tokens = []
     end) /\
  subscription st' = subscription init /\ receiving st' = receiving init /\
  sensor_measurements st' = sensor_measurements init /\ actuations st' = actuations init.
Proof.
  intros env st'.
  apply (only_listed_hosts_get_a_session Demo.EAGAIN Demo.EWOULDBLOCK Demo.ParseFromArray
           Demo.ByteSizeLong Demo.allowed_hosts Demo.player_id Demo.robot env init st').
  - reflexivity.
  - vm_compute. reflexivity.
Defined.

(** A quiet step of the connected controller. *)
Lemma connected_step_sends_one_frame_witness :
  let st' := Demo.unwrap (Demo.step Demo.quiet Demo.connected) in
  exists sb size payload written complete,
    Demo.step_snapshot Demo.quiet Demo.connected = Ok sb /\
    outbox st' = outbox Demo.connected ++ [Frame (client_fd st') size payload written complete] /\
    client_fd st' = client_fd sb /\
    size = wrap_u32 (Demo.ByteSizeLong payload) /\
    (payload = quota_error \/ payload = sensor_measurements sb) /\
    time (sensor_measurements sb) = wrap_u32 (controller_time Demo.connected + 32) /\
    real_time (sensor_measurements sb) = e_real_time Demo.quiet /\
    controller_time st' = wrap_u32 (controller_time Demo.connected + 32).
Proof.
  intros st'.
  apply (connected_step_sends_one_frame Demo.EAGAIN Demo.EWOULDBLOCK Demo.ParseFromArray
           Demo.ByteSizeLong Demo.allowed_hosts Demo.player_id Demo.robot
           Demo.quiet Demo.connected st').
  - discriminate.
  - vm_compute. reflexivity.
Defined.

(** ** What the bandwidth accounting adds up *)

Lemma total_app l1 l2 : total (l1 ++ l2) = total l1 + total l2.
Proof. unfold total. induction l1 as [|v l1 IH]; cbn; [done|]. rewrite IH. lia. Qed.

Lemma total_nonneg l : Forall (fun v => 0 <= v) l -> 0 <= total l.
Proof. unfold total. induction 1; cbn; lia. Qed.

Lemma sum_int_total values : forall sum,
  Forall (fun v => 0 <= v) values -> 0 <= sum -> sum + total values < 2 ^ 31 ->
  sum_int values sum = sum + total values.
Proof.
  induction values as [|v values IH]; intros sum Hall Hs Hlt; cbn [sum_int].
  - unfold total. cbn. lia.
  - apply Forall_cons in Hall as [Hv Hall].
    pose proof (total_nonneg values Hall) as Ht.
    change (total (v :: values)) with (v + total values) in *.
    rewrite wrap_i32_small by lia. rewrite IH by (done || lia). lia.
Qed.

Section Accounting.

Variable player_id : Z.
Variable robot : Robot.

Local Abbreviation bandwidth_usage := (bandwidth_usage player_id robot).

(** The loop over the files of the teammates. *)
Lemma teammates_sum env ids : forall sum,
  let files := omap (fun i => if i =? player_id then None else e_files env i) ids in
  Forall (fun content => content <> []) files ->
  Forall (fun v => 0 <= v) (concat files) ->
  0 <= sum -> sum + total (concat files) < 2 ^ 31 ->
  foldl (fun sum i =>
           if i =? player_id then sum
           else match e_files env i with
                | None => sum
                | Some content => read_quota_file (e_stale env) content sum
                end) sum ids
  = sum + total (concat files).
Proof.
  induction ids as [|i ids IH]; intros sum files; subst files; cbn [foldl omap list_omap].
  - intros _ _ _ _. unfold total. cbn. lia.
  - destruct (i =? player_id); [apply IH|].
    destruct (e_files env i) as [content|]; [|apply IH].
    cbn [concat]. intros Hne Hall Hs Hlt.
    apply Forall_cons in Hne as [Hc Hne]. apply Forall_app in Hall as [Hall1 Hall2].
    rewrite total_app in *.
    pose proof (total_nonneg _ Hall1). pose proof (total_nonneg _ Hall2).
    assert (read_quota_file (e_stale env) content sum = sum + total content) as ->.
    { destruct content; [done|]. cbn [read_quota_file]. apply sum_int_total; (done || lia). }
    rewrite IH by (done || lia). lia.
Qed.

Lemma bandwidth_usage_sum env size st usage st1 :
  bandwidth_usage env size st = Ok (usage, st1) ->
  exists data,
    quota_file st1 = Some data /\
    usage = foldl (fun sum i =>
                     if i =? player_id then sum
                     else match e_files env i with
                          | None => sum
                          | Some content => read_quota_file (e_stale env) content sum
                          end) (sum_int data 0) [1; 2; 3; 4].
Proof.
  unfold Player.bandwidth_usage.
  destruct (c_div 1000 _) as [window_size|]; [cbn [mbind outcome_bind]|done].
  destruct (c_div (controller_time st) _) as [steps|]; [cbn [mbind outcome_bind]|done].
  destruct (c_rem steps _) as [index|]; [cbn [mbind outcome_bind]|done].
  destruct (match data_transferred st with Some _ => _ | None => _ end) as [data|];
    [cbn [mbind outcome_bind]|done].
  destruct (quota_writable st); [|done].
  intros [= <- <-]. eexists. split; reflexivity.
Qed.

(** X13: what the usage is.  Where no sum overflows, the usage that
    [bandwidth_usage] returns is the sum of the player's whole window,
    the packet of this step included, and of every value in the files
    of the teammates that exist. *)
Theorem bandwidth_usage_adds_window_and_teammates env size st usage st1 data :
  bandwidth_usage env size st = Ok (usage, st1) -> quota_file st1 = Some data ->
  let files := teammates_files player_id env in
  Forall (fun content => content <> []) files ->
  Forall (fun v => 0 <= v) (data ++ concat files) ->
  total (data ++ concat files) < 2 ^ 31 ->
  usage = total data + total (concat files).
Proof.
  intros Hu Hq files Hne Hall Hlt.
  apply bandwidth_usage_sum in Hu as (data' & Hq' & ->).
  assert (data' = data) as -> by congruence.
  apply Forall_app in Hall as [Hall1 Hall2]. rewrite total_app in Hlt.
  pose proof (total_nonneg _ Hall1). pose proof (total_nonneg _ Hall2).
  rewrite sum_int_total by (done || lia).
  rewrite (teammates_sum env [1; 2; 3; 4]); (done || lia).
Qed.

(** X14: whose files are read.  The result of [bandwidth_usage] and
    the state it leaves depend on the files of the players 1 to 4 other
    than this player only: its own file is written, never read. *)
Theorem bandwidth_usage_reads_teammates_only env env' size st :
  (forall i, i ∈ [1; 2; 3; 4] -> i <> player_id -> e_files env i = e_files env' i) ->
  e_stale env = e_stale env' ->
  bandwidth_usage env size st = bandwidth_usage env' size st.
Proof.
  intros Hfiles Hstale. unfold Player.bandwidth_usage.
  destruct (c_div 1000 _) as [window_size|]; [cbn [mbind outcome_bind]|done].
  destruct (c_div (controller_time st) _) as [steps|]; [cbn [mbind outcome_bind]|done].
  destruct (c_rem steps _) as [index|]; [cbn [mbind outcome_bind]|done].
  destruct (match data_transferred st with Some _ => _ | None => _ end) as [data|];
    [cbn [mbind outcome_bind]|done].
  destruct (quota_writable st); [|done].
  do 2 f_equal. rewrite Hstale. cbn [foldl].
  assert (forall i, i ∈ [1; 2; 3; 4] -> forall sum,
            (if i =? player_id then sum
             else match e_files env i with
                  | None => sum
                  | Some content => read_quota_file (e_stale env') content sum
                  end)
            = (if i =? player_id then sum
               else match e_files env' i with
                    | None => sum
                    | Some content => read_quota_file (e_stale env') content sum
                    end)) as Hi.
  { intros i Hin sum. destruct (i =? player_id) eqn:He; [done|].
    apply Z.eqb_neq in He. by rewrite Hfiles. }
  rewrite (Hi 1), (Hi 2), (Hi 3), (Hi 4); [done|set_solver..].
Qed.

End Accounting.

(** Player 1 sends 9 bytes while the file of player 2 shows 31 packets
    of 40 MB: the usage is 1 240 000 009. *)
Lemma bandwidth_usage_adds_window_and_teammates_witness :
  let data := default [] (quota_file (snd (Demo.usage_of Demo.teammate_busy))) in
  fst (Demo.usage_of Demo.teammate_busy)
  = total data + total (concat (teammates_files Demo.player_id Demo.teammate_busy)).
Proof.
  intros data.
  apply (bandwidth_usage_adds_window_and_teammates Demo.player_id Demo.robot
           Demo.teammate_busy
           (wrap_u32 (Demo.ByteSizeLong
                        (sensor_measurements (Demo.sending Demo.teammate_busy))))
           (Demo.sending Demo.teammate_busy)
           (fst (Demo.usage_of Demo.teammate_busy)) (snd (Demo.usage_of Demo.teammate_busy))
           data).
  - vm_compute. reflexivity.
  - vm_compute. reflexivity.
  - apply (bool_decide_unpack _). vm_compute. exact I.
  - apply (bool_decide_unpack _). vm_compute. exact I.
  - vm_compute. reflexivity.
Defined.

(** The file of player 1 itself makes no difference to player 1. *)
Lemma bandwidth_usage_reads_teammates_only_witness :
  let own_file_full :=
    {| e_accept := None; e_arrived := []; e_select := 0; e_dry := RecvFails Demo.EAGAIN;
       e_real_time := 0; e_files := fun i => if i =? 1 then Some [2 ^ 30] else None;
       e_stale := 0; e_send := fun _ => 1 |} in
  bandwidth_usage Demo.player_id Demo.robot own_file_full 9 Demo.connected
  = bandwidth_usage Demo.player_id Demo.robot Demo.quiet 9 Demo.connected.
Proof.
  intros own_file_full.
  apply (bandwidth_usage_reads_teammates_only Demo.player_id Demo.robot
           own_file_full Demo.quiet 9 Demo.connected).
  - intros i Hi Hne. unfold own_file_full, Demo.quiet. cbn.
    destruct (i =? 1) eqn:He; [|reflexivity].
    apply Z.eqb_eq in He. destruct (Hne He).
  - reflexivity.
Defined.

(** ** The player's number *)

Section Names.

Import Startup.

Lemma digit_is_no_space d : (d < 10)%nat -> Ascii.eqb (ascii_of_nat (48 + d)) " " = false.
Proof. intros H. do 10 (destruct d as [|d]; [reflexivity|]). lia. Qed.

Lemma digit_of_digit d : (d < 10)%nat -> digit_of (ascii_of_nat (48 + d)) = Some (Z.of_nat d).
Proof. intros H. do 10 (destruct d as [|d]; [reflexivity|]). lia. Qed.

Lemma find_last_of_digits ds :
  Forall (fun d => (d < 10)%nat) ds -> find_last_of " " (of_digits ds) = None.
Proof.
  induction 1 as [|d ds Hd _ IH]; cbn [of_digits find_last_of]; [done|].
  by rewrite IH, digit_is_no_space.
Qed.

Lemma find_last_of_app c s1 s2 :
  find_last_of c s2 = None ->
  find_last_of c (s1 +:+ String c s2) = Some (String.length s1).
Proof.
  intros H. induction s1 as [|a s1 IH].
  - change ("" +:+ String c s2) with (String c s2). cbn [find_last_of String.length].
    by rewrite H, Ascii.eqb_refl.
  - change (String a s1 +:+ String c s2) with (String a (s1 +:+ String c s2)).
    cbn [find_last_of String.length]. by rewrite IH.
Qed.

Lemma substr_app s1 a s2 : substr (S (String.length s1)) (s1 +:+ String a s2) = Some s2.
Proof.
  induction s1 as [|b s1 IH].
  - change ("" +:+ String a s2) with (String a s2). cbn. by destruct s2.
  - change (String b s1 +:+ String a s2) with (String b (s1 +:+ String a s2)).
    cbn [substr String.length]. exact IH.
Qed.

Lemma leading_digits_digits ds : forall value seen,
  Forall (fun d => (d < 10)%nat) ds ->
  leading_digits (of_digits ds) value seen
  = match ds with
    | [] => if seen then Some value else None
    | _ :: _ => Some (foldl (fun v d => v * 10 + Z.of_nat d) value ds)
    end.
Proof.
  induction ds as [|d ds IH]; intros value seen Hall; cbn [of_digits leading_digits]; [done|].
  apply Forall_cons in Hall as [Hd Hall].
  rewrite digit_of_digit by done. rewrite IH by done.
  by destruct ds.
Qed.

Lemma value_of_nonneg ds : forall value,
  0 <= value -> 0 <= foldl (fun v d => v * 10 + Z.of_nat d) value ds.
Proof. induction ds as [|d ds IH]; intros value Hv; cbn; [done|]. apply IH. lia. Qed.

Lemma stoi_unsigned a s :
  isspace a = false -> a <> "-"%char -> a <> "+"%char ->
  stoi (String a s)
  = match leading_digits (String a s) 0 false with
    | Some v => if (- 2 ^ 31 <=? v) && (v <? 2 ^ 31) then Parsed v else OutOfRange
    | None => InvalidArgument
    end.
Proof.
  intros Hsp Hm Hp. unfold stoi. cbn [skip_spaces]. rewrite Hsp.
  destruct a as [[] [] [] [] [] [] [] []]; done.
Qed.

Lemma digit_is_unsigned d :
  (d < 10)%nat ->
  isspace (ascii_of_nat (48 + d)) = false /\
  ascii_of_nat (48 + d) <> "-"%char /\ ascii_of_nat (48 + d) <> "+"%char.
Proof. intros H. do 10 (destruct d as [|d]; [done|]). lia. Qed.

Lemma stoi_digits ds :
  ds <> [] -> Forall (fun d => (d < 10)%nat) ds -> value_of ds < 2 ^ 31 ->
  stoi (of_digits ds) = Parsed (value_of ds).
Proof.
  intros Hne Hall Hlt. destruct ds as [|d ds]; [done|].
  pose proof (leading_digits_digits (d :: ds) 0 false Hall) as Hl.
  pose proof (value_of_nonneg (d :: ds) 0 ltac:(done)) as H0.
  fold (value_of (d :: ds)) in Hl, H0.
  assert (d < 10)%nat as Hd by (by apply Forall_cons in Hall as [? _]).
  destruct (digit_is_unsigned d Hd) as (Hsp & Hm & Hp).
  cbn [of_digits] in *. rewrite stoi_unsigned by done. rewrite Hl.
  destruct (_ && _) eqn:Hr; [done|].
  apply andb_false_iff in Hr as [Hr|Hr]; [apply Z.leb_gt in Hr|apply Z.ltb_ge in Hr]; lia.
Qed.

(** X15: the player's number.  For a robot named by some text, a
    space and a decimal number that fits an [int], [main] takes the
    number as the player's id, whatever the text, spaces included.  A
    name that is only digits is the id; a name that ends with a space
    makes [std::stoi] throw. *)
Theorem player_id_is_the_number_after_the_last_space prefix ds :
  ds <> [] -> Forall (fun d => (d < 10)%nat) ds -> value_of ds < 2 ^ 31 ->
  player_id_of (prefix +:+ " " +:+ of_digits ds) = Parsed (value_of ds) /\
  player_id_of (of_digits ds) = Parsed (value_of ds) /\
  player_id_of (prefix +:+ " ") = InvalidArgument.
Proof.
  intros Hne Hall Hlt. unfold player_id_of. split; [|split].
  - change (" " +:+ of_digits ds) with (String " " (of_digits ds)).
    rewrite find_last_of_app by (by apply find_last_of_digits).
    rewrite substr_app. by apply stoi_digits.
  - rewrite find_last_of_digits by done. cbn [substr]. by apply stoi_digits.
  - rewrite (find_last_of_app " " prefix EmptyString) by done.
    by rewrite substr_app.
Qed.

End Names.

(** The robot "red player 3" is player 3. *)
Lemma player_id_is_the_number_after_the_last_space_witness :
  Startup.player_id_of "red player 3" = Startup.Parsed 3 /\
  Startup.player_id_of "3" = Startup.Parsed 3 /\
  Startup.player_id_of "red player " = Startup.InvalidArgument.
Proof.
  apply (player_id_is_the_number_after_the_last_space "red player" [3%nat]).
  - discriminate.
  - apply Forall_cons_2; [lia|apply Forall_nil_2].
  - reflexivity.
Defined.


(** ** Across sessions, and on an idle connection *)

Section Idle.

Variables EAGAIN EWOULDBLOCK : Z.
Variable ParseFromArray : list byte -> ActuatorRequests.
Variable ByteSizeLong : SensorMeasurements -> Z.
Variable allowed_hosts : list string.
Variable player_id : Z.
Variable robot : Robot.

Local Abbreviation receiveMessages := (receiveMessages EAGAIN EWOULDBLOCK ParseFromArray robot).
Local Abbreviation step_receive := (step_receive EAGAIN EWOULDBLOCK ParseFromArray robot).
Local Abbreviation step_snapshot := (step_snapshot EAGAIN EWOULDBLOCK ParseFromArray robot).
Local Abbreviation bandwidth_usage := (bandwidth_usage player_id robot).
Local Abbreviation sendSensorMessage := (sendSensorMessage ByteSizeLong player_id robot).
Local Abbreviation step :=
  (step EAGAIN EWOULDBLOCK ParseFromArray ByteSizeLong allowed_hosts player_id robot).
Local Abbreviation run :=
  (run EAGAIN EWOULDBLOCK ParseFromArray ByteSizeLong allowed_hosts player_id robot).
Local Abbreviation commands_between := (commands_between ParseFromArray).
Local Abbreviation names := (names robot).
Local Abbreviation closes := (closes EAGAIN EWOULDBLOCK).
Local Abbreviation basic_time_step := (basic_time_step robot).

(** X17: only a period of 0 disables a sensor.  Over any number of
    steps, whatever arrives, whether the client leaves and another one
    connects, a sensor that is active with a positive period stays so
    unless a time step command names it with the period 0. *)
Theorem subscription_outlives_the_session envs d st st' :
  0 < basic_time_step -> run envs st = Ok st' ->
  (forall c, c ∈ commands_between st st' -> names d c -> timestep c <> 0) ->
  d ∈ sensors st -> 0 < getSamplingPeriod st d ->
  d ∈ sensors st' /\ 0 < getSamplingPeriod st' d.
Proof. apply run_keeps_enabled. Qed.

(** The poll of a connection on which nothing is readable. *)
Lemma receiveMessages_idle dry st :
  well_framed st -> client_fd st <> -1 -> sock st = [] ->
  exists st1,
    receiveMessages dry st = Ok st1 /\
    subscription st1 = subscription st /\ steady st1 = steady st /\
    dispatched st1 = dispatched st /\
    client_fd st1 = (if closes dry then -1 else client_fd st) /\
    quota_writable st1 = quota_writable st.
Proof.
  intros Hwf Hfd Hsock.
  assert (exists st1, receiveMessages dry st = Ok st1 /\ dispatched st1 = dispatched st /\
                      quota_writable st1 = quota_writable st)
    as (st1 & Hr & Hd & Hw).
  { unfold Player.receiveMessages. rewrite Hsock. cbn [length Player.receiveMessages_loop].
    apply Z.eqb_neq in Hfd. rewrite Hfd.
    destruct Hwf as [[Hcs Hri]|[Hri Hlt]].
    - rewrite Hcs. cbn [Z.eqb].
      rewrite receiveData_short by (rewrite Hsock; cbn; lia).
      rewrite Hsock. cbn. eexists. split; [done|]. by destruct (Player.closes _ _ dry).
    - destruct (content_size st =? 0) eqn:H0; [apply Z.eqb_eq in H0; lia|].
      rewrite receiveData_short by (rewrite Hsock; cbn; lia).
      rewrite Hsock. cbn. rewrite Z.add_0_r, wrap_i32_small by lia.
      destruct (Player.closes _ _ dry); cbn;
        (destruct (recv_index st =? content_size st) eqn:He; [apply Z.eqb_eq in He; lia|]);
        cbn; by eexists. }
  exists st1. split; [done|].
  assert (Hs := Hr). apply receiveMessages_loop_session in Hs as [Hc _]; [|done..].
  apply receiveMessages_effect in Hr as (ps & Hps & Hsub & Hst).
  rewrite Hd in Hps. rewrite <- (app_nil_r (dispatched st)) in Hps at 1.
  apply app_inv_head in Hps as <-. done.
Qed.

Lemma sample_all_writable devices : forall st st',
  sample_all robot devices st = Ok st' -> quota_writable st' = quota_writable st.
Proof.
  induction devices as [|d devices IH]; intros st st'; cbn [Player.sample_all].
  - by intros [= <-].
  - destruct (sample robot d st) as [st1|] eqn:Hs; [cbn|done]. intros Hrest.
    apply IH in Hrest as ->. apply sample_record in Hs as ->.
    by destruct (sampled robot st d).
Qed.

(** X18: an idle connection does not stop the controller.  With a step
    duration between 1 and 1000 ms and a quota file that can be opened,
    in a state as the main loop leaves it, with a client, nothing to
    read, and no active sensor whose period is 0, the step returns; it
    changes neither the active set nor the periods, dispatches nothing,
    and closes the session only if the reading ends in a way that
    closes. *)
Theorem idle_step_returns env st :
  0 < basic_time_step <= 1000 ->
  between_steps robot st -> client_fd st <> -1 ->
  quota_writable st = true ->
  sock st = [] -> e_arrived env = [] ->
  (forall d, d ∈ sensors st -> is_sensor (getNodeType robot d) = true ->
             wrap_u32 (getSamplingPeriod st d) <> 0) ->
  exists st',
    step env st = Ok st' /\
    sensors st' = sensors st /\ periods st' = periods st /\ dispatched st' = dispatched st /\
    client_fd st'
    = (if negb (e_select env =? -1) && closes (e_dry env) then -1 else client_fd st).
Proof.
  intros Hb (Hnew & _ & Hct & Hwf & _) Hfd Hwr Hsock Harr Hper.
  assert (exists st1,
            step_receive env st = Ok st1 /\ subscription st1 = subscription st /\
            dispatched st1 = dispatched st /\
            controller_time st1 = wrap_u32 (controller_time st + basic_time_step) /\
            client_fd st1
            = (if negb (e_select env =? -1) && closes (e_dry env) then -1 else client_fd st) /\
            quota_writable st1 = true)
    as (st1 & Hr & Hsub1 & Hd1 & Hct1 & Hfd1 & Hwr1).
  { unfold Player.step_receive. cbn [sock set_controller_time]. rewrite Harr, Hsock. cbn [app].
    destruct (e_select env =? -1); cbn [negb andb]; [by eexists|].
    match goal with |- context [receiveMessages _ ?s] =>
      destruct (receiveMessages_idle (e_dry env) s) as (st1 & Hr & Hs & Hst & Hd & Hc & Hw);
        [exact Hwf|exact Hfd|done|] end.
    exists st1. apply steady_fields in Hst as (Ht & _). rewrite Hw. by split_and!. }
  destruct (prepareSensorMessage_returns robot (e_real_time env) st1) as [sb Hp].
  { intros d Hd Hk. injection Hsub1 as Hs1 _ Hp1.
    unfold getSamplingPeriod. rewrite Hp1. apply Hper; [by rewrite <- Hs1|done]. }
  assert (Hfr := Hp). apply prepareSensorMessage_frame, beyond_records_fields in Hfr
    as (Hb1 & Hb2 & Hb3 & _ & _ & Hb6 & _ & Hb8 & _).
  assert (Hdp := Hp). apply prepareSensorMessage_effect in Hdp as (_ & _ & _ & Hdp & _).
  assert (quota_writable sb = true) as Hwrb.
  { unfold Player.prepareSensorMessage in Hp. by apply sample_all_writable in Hp as ->. }
  destruct (bandwidth_usage_returns player_id robot env
              (wrap_u32 (ByteSizeLong (sensor_measurements (updateDevices sb))))
              (updateDevices sb)) as [usage Hu]; [done| |exact Hwrb|].
  { cbn. rewrite Hb8, Hct1.
    pose proof (wrap_u32_range (controller_time st + basic_time_step)). lia. }
  destruct (sendSensorMessage_result ByteSizeLong player_id robot env _ usage _ Hu)
    as (complete & written & _ & Heq).
  eexists. split.
  - unfold Player.step. apply Z.eqb_neq in Hfd. rewrite Hfd.
    unfold Player.step_snapshot. rewrite Hr. cbn [mbind outcome_bind]. rewrite Hp.
    cbn [mbind outcome_bind]. exact Heq.
  - cbn. injection Hsub1 as Hs1 Hn1 Hp1.
    rewrite Hb1, Hb2, Hb3, Hb6, Hdp, Hs1, Hn1, Hp1, Hnew, Hd1, Hfd1.
    split_and!; try done. set_solver.
Qed.

End Idle.

(** The accelerometer is sampled every 64 ms; the client leaves in the
    middle of a message and another one connects: it still is. *)
Lemma subscription_outlives_the_session_witness :
  let st' := Demo.unwrap (Demo.run [Demo.leaving; Demo.connecting; Demo.quiet]
                            (Demo.sampling_at 0)) in
  Demo.accelerometer ∈ sensors st' /\ 0 < getSamplingPeriod st' Demo.accelerometer.
Proof.
  intros st'.
  apply (subscription_outlives_the_session Demo.EAGAIN Demo.EWOULDBLOCK Demo.ParseFromArray
           Demo.ByteSizeLong Demo.allowed_hosts Demo.player_id Demo.robot
           [Demo.leaving; Demo.connecting; Demo.quiet] Demo.accelerometer
           (Demo.sampling_at 0) st').
  - reflexivity.
  - vm_compute. reflexivity.
  - intros c Hc. vm_compute in Hc. apply elem_of_nil in Hc. destruct Hc.
  - apply (bool_decide_unpack _). vm_compute. exact I.
  - reflexivity.
Defined.

(** A quiet step of the connected controller returns. *)
Lemma idle_step_returns_witness :
  exists st',
    Demo.step Demo.quiet Demo.connected = Ok st' /\
    sensors st' = sensors Demo.connected /\ periods st' = periods Demo.connected /\
    dispatched st' = dispatched Demo.connected /\
    client_fd st' = 7.
Proof.
  apply (idle_step_returns Demo.EAGAIN Demo.EWOULDBLOCK Demo.ParseFromArray
           Demo.ByteSizeLong Demo.allowed_hosts Demo.player_id Demo.robot
           Demo.quiet Demo.connected).
  - split; [reflexivity|discriminate].
  - unfold between_steps. split_and!; try reflexivity.
    + left. split; reflexivity.
    + intros data Hd. discriminate Hd.
    + intros d Hd. apply elem_of_empty in Hd. destruct Hd.
    + intros d p Hl. change (periods Demo.connected) with (∅ : gmap Device Z) in Hl.
      rewrite lookup_empty in Hl. discriminate Hl.
  - discriminate.
  - reflexivity.
  - reflexivity.
  - reflexivity.
  - intros d Hd. apply elem_of_empty in Hd. destruct Hd.
Defined.

(** ** Where the controller divides by zero *)

Section Divisions.

Variable ByteSizeLong : SensorMeasurements -> Z.
Variable player_id : Z.
Variable robot : Robot.

Local Abbreviation sample := (sample robot).
Local Abbreviation sample_all := (sample_all robot).
Local Abbreviation prepareSensorMessage := (prepareSensorMessage robot).
Local Abbreviation bandwidth_usage := (bandwidth_usage player_id robot).
Local Abbreviation sendSensorMessage := (sendSensorMessage ByteSizeLong player_id robot).
Local Abbreviation basic_time_step := (basic_time_step robot).

Lemma sample_fault d st f : sample d st = Fault f -> f = DivisionByZero.
Proof.
  unfold Player.sample, due, c_rem.
  destruct (getNodeType robot d); try done;
    (destruct (_ =? 0); cbn; [by intros [= <-]|done]).
Qed.

Lemma sample_zero_period d st :
  is_sensor (getNodeType robot d) = true -> wrap_u32 (getSamplingPeriod st d) = 0 ->
  sample d st = Fault DivisionByZero.
Proof.
  intros Hk Hz. unfold Player.sample.
  destruct (getNodeType robot d); try done; by rewrite due_zero.
Qed.

Lemma sample_all_zero_period devices : forall st d,
  d ∈ devices -> is_sensor (getNodeType robot d) = true ->
  wrap_u32 (getSamplingPeriod st d) = 0 ->
  sample_all devices st = Fault DivisionByZero.
Proof.
  induction devices as [|d0 devices IH]; intros st d Hd Hk Hz; cbn [Player.sample_all].
  - by apply elem_of_nil in Hd.
  - destruct (sample d0 st) as [st1|f] eqn:Hs; cbn.
    + apply elem_of_cons in Hd as [->|Hd].
      * by rewrite sample_zero_period in Hs.
      * apply (IH st1 d Hd Hk).
        apply sample_record in Hs. subst st1.
        by destruct (Player.sampled robot st d0).
    + by apply sample_fault in Hs as ->.
Qed.

(** X19: when the snapshot cannot be built.  [prepareSensorMessage]
    returns if no active sensor has the period 0, and divides by zero if
    one has; nothing else makes it fail. *)
Theorem snapshot_fails_exactly_on_a_zero_period now st :
  ((forall d, d ∈ sensors st -> is_sensor (getNodeType robot d) = true ->
              wrap_u32 (getSamplingPeriod st d) <> 0) ->
   exists sb, prepareSensorMessage now st = Ok sb) /\
  ((exists d, d ∈ sensors st /\ is_sensor (getNodeType robot d) = true /\
              wrap_u32 (getSamplingPeriod st d) = 0) ->
   prepareSensorMessage now st = Fault DivisionByZero).
Proof.
  split.
  - apply prepareSensorMessage_returns.
  - intros (d & Hd & Hk & Hz). unfold Player.prepareSensorMessage.
    apply (sample_all_zero_period _ _ d); [by apply elem_of_in_order|done|done].
Qed.

(** X20: the step durations the accounting can take.  With a step
    duration of 0, or above 1000 ms, [sendSensorMessage] divides by zero
    in [bandwidth_usage] before anything is sent: the window would have
    no slot. *)
Theorem step_duration_outside_one_second_stops_sending env st :
  basic_time_step = 0 \/ 1000 < basic_time_step < 2 ^ 32 ->
  sendSensorMessage env st = Fault DivisionByZero.
Proof.
  intros Hb. unfold Player.sendSensorMessage, Player.bandwidth_usage, c_div, c_rem.
  destruct Hb as [Hb|Hb]; [by rewrite Hb|].
  destruct (basic_time_step =? 0) eqn:H0; [apply Z.eqb_eq in H0; lia|].
  rewrite (wrap_u32_small basic_time_step) by lia. rewrite H0.
  cbn [mbind outcome_bind]. rewrite Z.quot_small by lia. done.
Qed.

End Divisions.

(** The accelerometer active with the period 0. *)
Lemma snapshot_fails_exactly_on_a_zero_period_witness :
  prepareSensorMessage Demo.robot 5
    (set_periods {[Demo.accelerometer := 0]} (set_sensors {[Demo.accelerometer]} Demo.connected))
  = Fault DivisionByZero.
Proof.
  destruct (snapshot_fails_exactly_on_a_zero_period Demo.robot 5
              (set_periods {[Demo.accelerometer := 0]}
                 (set_sensors {[Demo.accelerometer]} Demo.connected))) as [_ H].
  apply H. exists Demo.accelerometer. split; [|split].
  - apply (bool_decide_unpack _). vm_compute. exact I.
  - reflexivity.
  - reflexivity.
Defined.

(** The robot of the demonstration with steps of two seconds. *)
Lemma step_duration_outside_one_second_stops_sending_witness :
  sendSensorMessage Demo.ByteSizeLong Demo.player_id
    {| getBasicTimeStep := 2000; getDevice := getDevice Demo.robot;
       getNodeType := getNodeType Demo.robot; getName := getName Demo.robot;
       getType := getType Demo.robot |}
    Demo.quiet Demo.connected
  = Fault DivisionByZero.
Proof.
  apply (step_duration_outside_one_second_stops_sending Demo.ByteSizeLong Demo.player_id).
  right. split; reflexivity.
Defined.

(** ** The quota file *)

Section QuotaFile.

Variable ByteSizeLong : SensorMeasurements -> Z.
Variable player_id : Z.
Variable robot : Robot.

Local Abbreviation sendSensorMessage := (sendSensorMessage ByteSizeLong player_id robot).
Local Abbreviation basic_time_step := (basic_time_step robot).

(** X22: a quota file that cannot be opened.  [bandwidth_usage] hands
    the result of [fopen] to [fprintf] and [fclose] unchecked: with a
    step duration between 1 and 1000 ms, where the player's quota file
    cannot be opened for writing, [sendSensorMessage] does not return,
    and nothing is sent. *)
Theorem unwritable_quota_file_stops_sending env st :
  0 < basic_time_step <= 1000 -> 0 <= controller_time st -> quota_writable st = false ->
  sendSensorMessage env st = Fault NullStream.
Proof.
  intros Hb Ht Hwr.
  set (window_size := 1000 / basic_time_step).
  assert (1 <= window_size) as Hw.
  { subst window_size. apply Z.div_le_lower_bound; lia. }
  assert (window_size <= 1000) as Hw'.
  { subst window_size. apply Z.div_le_upper_bound; lia. }
  unfold Player.sendSensorMessage, Player.bandwidth_usage, c_div, c_rem.
  destruct (basic_time_step =? 0) eqn:H0; [apply Z.eqb_eq in H0; lia|]. cbn.
  rewrite (wrap_u32_small basic_time_step) by lia. rewrite H0. cbn.
  rewrite Z.quot_div_nonneg by lia. fold window_size.
  rewrite (wrap_u32_small window_size) by lia.
  destruct (window_size =? 0) eqn:H1; [apply Z.eqb_eq in H1; lia|]. cbn.
  destruct (data_transferred st) as [d|]; cbn.
  - by rewrite Hwr.
  - destruct (window_size <? 0) eqn:H2; [apply Z.ltb_lt in H2; lia|]. cbn.
    by rewrite Hwr.
Qed.

End QuotaFile.

(** The connected controller in a directory it cannot write to. *)
Lemma unwritable_quota_file_stops_sending_witness :
  sendSensorMessage Demo.ByteSizeLong Demo.player_id Demo.robot Demo.quiet
    (set_quota_writable false Demo.connected)
  = Fault NullStream.
Proof.
  apply (unwritable_quota_file_stops_sending Demo.ByteSizeLong Demo.player_id Demo.robot
           Demo.quiet (set_quota_writable false Demo.connected)).
  - split; [reflexivity|discriminate].
  - discriminate.
  - reflexivity.
Defined.
